(** * igo: the command line front-end, the curly-syntax emitter (to_go)
      and the debug printer of ASTs (ast/print.igo), embedded in Rocq.

    Part I holds the embedding of the Go and igo sources, one module per
    source file; Part II holds the properties proved about it. *)

From Stdlib Require Import ZArith List String Ascii Lia Bool.
From stdpp Require Import base list strings gmap pretty.
From Equations Require Import Equations.
Import ListNotations.
Open Scope Z_scope.

(** ** Bytes, Go strings and Go integers *)

(** A Go [string] and a Go [[]byte] are both sequences of bytes. *)
Abbreviation bytes := (list ascii).

(** Literals: [bs "func"] is the byte sequence of the text. *)
Definition bs (s : string) : bytes := list_ascii_of_string s.

Module Ch.
Definition ht : ascii := "009"%char.   (* '\t' *)
Definition nl : ascii := "010"%char.   (* '\n' *)
Definition vt : ascii := "011"%char.   (* '\v' *)
Definition ff : ascii := "012"%char.   (* '\f' *)
Definition cr : ascii := "013"%char.   (* '\r' *)
Definition sp : ascii := " "%char.
Definition x85 : ascii := "133"%char.
Definition xA0 : ascii := "160"%char.
Definition xC2 : ascii := "194"%char.
(** [tabwriter.Escape], the byte 0xff. *)
Definition Escape : ascii := "255"%char.
End Ch.

(** [bytes_eqb a b] is Go's [a == b] on strings. *)
Fixpoint bytes_eqb (a b : bytes) : bool :=
  match a, b with
  | [], [] => true
  | x :: a', y :: b' => Ascii.eqb x y && bytes_eqb a' b'
  | _, _ => false
  end.

(** [len(s)] as a Go [int]. *)
Definition len {A} (l : list A) : Z := Z.of_nat (length l).

(** Go's [int] is 64 bits wide on the platforms igo is built for; [wrap]
    is the two's complement wrap-around of its arithmetic. *)
Definition wrap (z : Z) : Z := (z + 2 ^ 63) mod 2 ^ 64 - 2 ^ 63.
Definition int_add (a b : Z) : Z := wrap (a + b).
Definition int_sub (a b : Z) : Z := wrap (a - b).

(** [fmt.Sprintf("%d", z)]. *)
Definition itoa (z : Z) : bytes := bs (pretty z).

(** *** [strings] and [unicode] helpers of the Go library used by to_go *)

(** [strings.HasPrefix(s, prefix)]. *)
Fixpoint HasPrefix (s prefix : bytes) : bool :=
  match prefix, s with
  | [], _ => true
  | x :: prefix', y :: s' => Ascii.eqb x y && HasPrefix s' prefix'
  | _ :: _, [] => false
  end.

(** [strings.Contains(s, "\n")]. *)
Definition containsNewline (s : bytes) : bool := existsb (Ascii.eqb Ch.nl) s.

(** The white space of [unicode.IsSpace] in the ASCII range:
    '\t', '\n', '\v', '\f', '\r' and ' '. *)
Definition isSpaceByte (b : ascii) : bool :=
  let n := N_of_ascii b in ((9 <=? n) && (n <=? 13))%N || (n =? 32)%N.

(** The last two bytes of a three byte UTF-8 white space rune whose first
    byte is [b0]: U+1680, U+2000..U+200A, U+2028, U+2029, U+202F, U+205F
    and U+3000. *)
Definition isSpace3 (b0 b1 b2 : ascii) : bool :=
  let n0 := N_of_ascii b0 in
  let n1 := N_of_ascii b1 in
  let n2 := N_of_ascii b2 in
  ((n0 =? 225) && (n1 =? 154) && (n2 =? 128))%N
  || ((n0 =? 226) && (n1 =? 128)
      && (((128 <=? n2) && (n2 <=? 138)) || (n2 =? 168) || (n2 =? 169) || (n2 =? 175)))%N
  || ((n0 =? 226) && (n1 =? 129) && (n2 =? 159))%N
  || ((n0 =? 227) && (n1 =? 128) && (n2 =? 128))%N.

(** The two byte white space runes U+0085 and U+00A0. *)
Definition isSpace2 (b0 b1 : ascii) : bool :=
  Ascii.eqb b0 Ch.xC2 && (Ascii.eqb b1 Ch.x85 || Ascii.eqb b1 Ch.xA0).

(** [strings.TrimLeftFunc(s, unicode.IsSpace)]: leading runes that are
    white space are removed; a byte that starts no such rune stops it. *)
Fixpoint trimLeft (s : bytes) : bytes :=
  match s with
  | [] => []
  | b0 :: r0 =>
      if isSpaceByte b0 then trimLeft r0
      else match r0 with
           | b1 :: r1 =>
               if isSpace2 b0 b1 then trimLeft r1
               else match r1 with
                    | b2 :: r2 => if isSpace3 b0 b1 b2 then trimLeft r2 else s
                    | [] => s
                    end
           | [] => s
           end
  end.

(** The same scan over the reversed string, for trailing runes. *)
Fixpoint trimLeftRev (s : bytes) : bytes :=
  match s with
  | [] => []
  | b0 :: r0 =>
      if isSpaceByte b0 then trimLeftRev r0
      else match r0 with
           | b1 :: r1 =>
               if isSpace2 b1 b0 then trimLeftRev r1
               else match r1 with
                    | b2 :: r2 => if isSpace3 b2 b1 b0 then trimLeftRev r2 else s
                    | [] => s
                    end
           | [] => s
           end
  end.

(** [trimRight] of to_go.go: [strings.TrimRightFunc(s, unicode.IsSpace)]. *)
Definition trimRight (s : bytes) : bytes := rev (trimLeftRev (rev s)).

(** [strings.TrimSpace(s)]. *)
Definition TrimSpace (s : bytes) : bytes := trimLeft (trimRight s).

(** [strings.LastIndex(s, ":")]: the index of the last colon, if any
    (Go returns -1 for none). *)
Fixpoint LastIndexColon (s : bytes) : option nat :=
  match s with
  | [] => None
  | b :: r =>
      match LastIndexColon r with
      | Some i => Some (S i)
      | None => if Ascii.eqb b ":"%char then Some 0%nat else None
      end
  end.

(** The value of a string of decimal digits, [None] when a byte is no
    digit. *)
Fixpoint digitsValue (acc : Z) (s : bytes) : option Z :=
  match s with
  | [] => Some acc
  | b :: r =>
      let n := Z.of_N (N_of_ascii b) in
      if (48 <=? n) && (n <=? 57) then digitsValue (10 * acc + (n - 48)) r else None
  end.

(** [strconv.Atoi(s)]: an optional sign, then at least one decimal
    digit; a value outside the [int] range is an error ([None]). *)
Definition Atoi (s : bytes) : option Z :=
  let '(neg, digits) :=
    match s with
    | b :: r => if Ascii.eqb b "-"%char then (true, r)
                else if Ascii.eqb b "+"%char then (false, r) else (false, s)
    | [] => (false, s)
    end in
  match digits with
  | [] => None
  | _ =>
      match digitsValue 0 digits with
      | Some v =>
          let v := if neg then - v else v in
          if (- 2 ^ 63 <=? v) && (v <? 2 ^ 63) then Some v else None
      | None => None
      end
  end.

(** ** main.go: the command line front-end *)

Module Cli.

(** [type Cmd int] with its four constants. *)
Inductive Cmd := INVALID | COMPILE | PARSE | BUILD.

(** The conversion [Cmd(i)] for an index of [commands]. *)
Definition Cmd_of_index (i : nat) : Cmd :=
  match i with
  | 1%nat => COMPILE
  | 2%nat => PARSE
  | 3%nat => BUILD
  | _ => INVALID
  end.

(** [int(c)], used by the test [cmd > 0]. *)
Definition Cmd_index (c : Cmd) : nat :=
  match c with INVALID => 0 | COMPILE => 1 | PARSE => 2 | BUILD => 3 end.

(** [var commands]: the slice literal is keyed from [COMPILE] = 1, so
    index 0 holds the empty string. *)
Definition commands : list string := [""; "compile"; "parse"; "build"]%string.

(** The loop of [toCmd] over [commands] from index [i] on. *)
Fixpoint toCmd_from (i : nat) (cs : list string) (c : string) : Cmd :=
  match cs with
  | [] => Cmd_of_index 0
  | command :: cs' =>
      if String.eqb c command then Cmd_of_index i else toCmd_from (S i) cs' c
  end.

Definition toCmd (c : string) : Cmd := toCmd_from 0 commands c.

(** The two targets of package cmd, [cmd.GO] and [cmd.IGO]. *)
Inductive Format := GO | IGO.

(** What [main] ends with: the call [cmd.To(target, paths)], whose result
    is the exit code, or the message "Invalid command" followed by
    [usage()], which exits with code 2. *)
Inductive Outcome :=
| CallTo (target : Format) (paths : list string)
| InvalidCommand.

(** The loop of [main] over the arguments: the last argument that names
    a command wins, every other argument is a path. *)
Fixpoint scanArgs (args : list string) (command : Cmd) (paths : list string)
  : Cmd * list string :=
  match args with
  | [] => (command, paths)
  | s :: args' =>
      let cmd := toCmd s in
      if (0 <? Cmd_index cmd)%nat then scanArgs args' cmd paths
      else scanArgs args' command (paths ++ [s])
  end.

Definition main (args : list string) : Outcome :=
  let '(command, paths) := scanArgs args INVALID [] in
  match command with
  | PARSE => CallTo IGO paths
  | COMPILE => CallTo GO paths
  | _ => InvalidCommand
  end.

(** The two surface syntaxes. *)
Inductive Syntax := Curly | Indented.

(** Modelled from the spec: package cmd ([cmd.To], [cmd.GO], [cmd.IGO]) is
    not among the sources.  By the file name convention curly-syntax
    files end in .go and indented-syntax files in .igo, and the output
    takes the opposite extension of the input; [To] is named after the
    format it writes, as the README has it ("igo parse" converts *.go to
    *.igo, "igo compile" converts *.igo to *.go). *)
Definition To_output (target : Format) : Syntax :=
  match target with GO => Curly | IGO => Indented end.

Definition To_input (target : Format) : Syntax :=
  match target with GO => Indented | IGO => Curly end.

(** The conversion a run of [main] performs: (input syntax, output
    syntax), or [None] when no conversion is started. *)
Definition direction (o : Outcome) : option (Syntax * Syntax) :=
  match o with
  | CallTo target _ => Some (To_input target, To_output target)
  | InvalidCommand => None
  end.

End Cli.

(** ** to_go/to_go.go: the curly-syntax emitter *)

Module ToGo.

(** *** Package token *)

(** Modelled from the spec: package token is not among the sources.  The
    token kinds are the lexical classes of the curly-syntax grammar
    (identifiers, literals, operators and punctuators, keywords), in the
    order of Go's token table, of which igo's package is a copy; the
    emitter names ILLEGAL, EOF, IDENT, INT, STRING, ADD, SUB, QUO, LSS,
    AND, INC, DEC, LBRACE, RPAREN, RBRACK, RBRACE, BREAK, CONTINUE,
    FALLTHROUGH and RETURN. *)
Module token.

Inductive Token :=
  | ILLEGAL | EOF | COMMENT | IDENT | INT | FLOAT | IMAG | CHAR | STRING |
  ADD | SUB | MUL | QUO | REM | AND | OR | XOR | SHL | SHR | AND_NOT |
  ADD_ASSIGN | SUB_ASSIGN | MUL_ASSIGN | QUO_ASSIGN | REM_ASSIGN |
  AND_ASSIGN | OR_ASSIGN | XOR_ASSIGN | SHL_ASSIGN | SHR_ASSIGN |
  AND_NOT_ASSIGN | LAND | LOR | ARROW | INC | DEC | EQL | LSS | GTR | ASSIGN
  | NOT | NEQ | LEQ | GEQ | DEFINE | ELLIPSIS | LPAREN | LBRACK | LBRACE |
  COMMA | PERIOD | RPAREN | RBRACK | RBRACE | SEMICOLON | COLON | BREAK |
  CASE | CHAN | CONST | CONTINUE | DEFAULT | DEFER | ELSE | FALLTHROUGH |
  FOR | FUNC | GO | GOTO | IF | IMPORT | INTERFACE | MAP | PACKAGE | RANGE |
  RETURN | SELECT | STRUCT | SWITCH | TYPE | VAR.

(** [Token.String]: the text of an operator, punctuator or keyword, the
    name of any other kind. *)
Definition Token_String (t : Token) : bytes :=
  bs match t with
     | ILLEGAL => "ILLEGAL"
     | EOF => "EOF"
     | COMMENT => "COMMENT"
     | IDENT => "IDENT"
     | INT => "INT"
     | FLOAT => "FLOAT"
     | IMAG => "IMAG"
     | CHAR => "CHAR"
     | STRING => "STRING"
     | ADD => "+"
     | SUB => "-"
     | MUL => "*"
     | QUO => "/"
     | REM => "%"
     | AND => "&"
     | OR => "|"
     | XOR => "^"
     | SHL => "<<"
     | SHR => ">>"
     | AND_NOT => "&^"
     | ADD_ASSIGN => "+="
     | SUB_ASSIGN => "-="
     | MUL_ASSIGN => "*="
     | QUO_ASSIGN => "/="
     | REM_ASSIGN => "%="
     | AND_ASSIGN => "&="
     | OR_ASSIGN => "|="
     | XOR_ASSIGN => "^="
     | SHL_ASSIGN => "<<="
     | SHR_ASSIGN => ">>="
     | AND_NOT_ASSIGN => "&^="
     | LAND => "&&"
     | LOR => "||"
     | ARROW => "<-"
     | INC => "++"
     | DEC => "--"
     | EQL => "=="
     | LSS => "<"
     | GTR => ">"
     | ASSIGN => "="
     | NOT => "!"
     | NEQ => "!="
     | LEQ => "<="
     | GEQ => ">="
     | DEFINE => ":="
     | ELLIPSIS => "..."
     | LPAREN => "("
     | LBRACK => "["
     | LBRACE => "{"
     | COMMA => ","
     | PERIOD => "."
     | RPAREN => ")"
     | RBRACK => "]"
     | RBRACE => "}"
     | SEMICOLON => ";"
     | COLON => ":"
     | BREAK => "break"
     | CASE => "case"
     | CHAN => "chan"
     | CONST => "const"
     | CONTINUE => "continue"
     | DEFAULT => "default"
     | DEFER => "defer"
     | ELSE => "else"
     | FALLTHROUGH => "fallthrough"
     | FOR => "for"
     | FUNC => "func"
     | GO => "go"
     | GOTO => "goto"
     | IF => "if"
     | IMPORT => "import"
     | INTERFACE => "interface"
     | MAP => "map"
     | PACKAGE => "package"
     | RANGE => "range"
     | RETURN => "return"
     | SELECT => "select"
     | STRUCT => "struct"
     | SWITCH => "switch"
     | TYPE => "type"
     | VAR => "var"
     end%string.

(** [token.Position] describes a source position; line and column
    count from 1. *)
Record Position := {
  Filename : bytes;
  Offset : Z;
  Line : Z;
  Column : Z
}.

(** [Position.IsValid]: a position is valid when its line is positive. *)
Definition IsValid (pos : Position) : bool := 0 <? Line pos.

(** [Position.String], used by the debugging output only. *)
Definition Position_String (pos : Position) : bytes :=
  let s := Filename pos in
  let s :=
    if IsValid pos then
      (if bytes_eqb s [] then s else s ++ bs ":")
        ++ itoa (Line pos) ++ bs ":" ++ itoa (Column pos)
    else s in
  if bytes_eqb s [] then bs "-" else s.

(** [token.Pos] is a compact handle, an [int]; [NoPos] is 0 and
    [Pos.IsValid] tells a handle from it. *)
Definition NoPos : Z := 0.
Definition Pos_IsValid (x : Z) : bool := negb (x =? NoPos).

End token.

Export token.

Definition with_Filename (v : bytes) (pos : Position) : Position :=
  {| Filename := v; Offset := Offset pos; Line := Line pos; Column := Column pos |}.
Definition with_Offset (v : Z) (pos : Position) : Position :=
  {| Filename := Filename pos; Offset := v; Line := Line pos; Column := Column pos |}.
Definition with_Line (v : Z) (pos : Position) : Position :=
  {| Filename := Filename pos; Offset := Offset pos; Line := v; Column := Column pos |}.
Definition with_Column (v : Z) (pos : Position) : Position :=
  {| Filename := Filename pos; Offset := Offset pos; Line := Line pos; Column := v |}.

(** The zero value of [token.Position]. *)
Definition Position_zero : Position :=
  {| Filename := []; Offset := 0; Line := 0; Column := 0 |}.

(** *** Package ast: comments *)

(** [ast.Comment]: [Slash] is the position of the comment's first
    character, which [Pos()] returns; [Text] is the comment's text. *)
Record Comment := { Slash : Z; Text : bytes }.

(** [ast.CommentGroup]. *)
Record CommentGroup := { List : list Comment }.

(** *** Constants and types of the printer *)

Definition maxNewlines : Z := 2.   (* max. number of newlines between source text *)
Definition debug : bool := false.  (* enable for debugging *)
Definition infinity : Z := 2 ^ 30.

(** [type whiteSpace byte] and its constants. *)
Inductive whiteSpace := ignore | blank | vtab | newline | formfeed | indent | unindent.

(** [byte(ch)] for a white space item. *)
Definition whiteSpace_byte (ch : whiteSpace) : ascii :=
  match ch with
  | ignore => "000"%char
  | blank => Ch.sp
  | vtab => Ch.vt
  | newline => Ch.nl
  | formfeed => Ch.ff
  | indent => ">"%char
  | unindent => "<"%char
  end.

(** [type pmode int]. *)
Definition noExtraLinebreak : Z := 1.

(** [type Mode uint]: the flags of a [Config]. *)
Definition RawFormat : Z := 1.
Definition TabIndent : Z := 2.
Definition UseSpaces : Z := 4.
Definition SourcePos : Z := 8.

(** [type Config struct]. *)
Record Config := { Mode : Z; Tabwidth : Z; Indent : Z }.

(** [type printer struct]; every field carries the prefix [p_].  The file
    set is represented by its method [Position]; the cache [nodeSizes] is
    used by the node printing functions only and is left out. *)
Record printer := {
  (* Configuration (does not change after initialization) *)
  p_Config : Config;
  p_fset : Z -> Position;
  (* Current state *)
  p_output : bytes;
  p_indent : Z;
  p_mode : Z;
  p_impliedSemi : bool;
  p_lastTok : token.Token;
  p_wsbuf : list whiteSpace;
  (* Positions: AST (source) space, output space, and the value of
     [p_pos] after the last call of writeString *)
  p_pos : Position;
  p_out : Position;
  p_last : Position;
  (* The list of all source comments, in order of appearance *)
  p_comments : list CommentGroup;
  p_cindex : nat;
  p_useNodeComments : bool;
  (* Information about p.comments[p.cindex]; set up by nextComment *)
  p_comment : option CommentGroup;
  p_commentOffset : Z;
  p_commentNewline : bool;
  (* Cache of most recently computed line position *)
  p_cachedPos : Z;
  p_cachedLine : Z
}.

(** Assignments to single fields. *)
Definition set_output (v : bytes) (p : printer) : printer :=
  {| p_Config := p_Config p; p_fset := p_fset p; p_output := v; p_indent :=
     p_indent p; p_mode := p_mode p; p_impliedSemi := p_impliedSemi p;
     p_lastTok := p_lastTok p; p_wsbuf := p_wsbuf p; p_pos := p_pos p; p_out
     := p_out p; p_last := p_last p; p_comments := p_comments p; p_cindex :=
     p_cindex p; p_useNodeComments := p_useNodeComments p; p_comment :=
     p_comment p; p_commentOffset := p_commentOffset p; p_commentNewline :=
     p_commentNewline p; p_cachedPos := p_cachedPos p; p_cachedLine :=
     p_cachedLine p |}.
Definition set_indent (v : Z) (p : printer) : printer :=
  {| p_Config := p_Config p; p_fset := p_fset p; p_output := p_output p;
     p_indent := v; p_mode := p_mode p; p_impliedSemi := p_impliedSemi p;
     p_lastTok := p_lastTok p; p_wsbuf := p_wsbuf p; p_pos := p_pos p; p_out
     := p_out p; p_last := p_last p; p_comments := p_comments p; p_cindex :=
     p_cindex p; p_useNodeComments := p_useNodeComments p; p_comment :=
     p_comment p; p_commentOffset := p_commentOffset p; p_commentNewline :=
     p_commentNewline p; p_cachedPos := p_cachedPos p; p_cachedLine :=
     p_cachedLine p |}.
Definition set_mode (v : Z) (p : printer) : printer :=
  {| p_Config := p_Config p; p_fset := p_fset p; p_output := p_output p;
     p_indent := p_indent p; p_mode := v; p_impliedSemi := p_impliedSemi p;
     p_lastTok := p_lastTok p; p_wsbuf := p_wsbuf p; p_pos := p_pos p; p_out
     := p_out p; p_last := p_last p; p_comments := p_comments p; p_cindex :=
     p_cindex p; p_useNodeComments := p_useNodeComments p; p_comment :=
     p_comment p; p_commentOffset := p_commentOffset p; p_commentNewline :=
     p_commentNewline p; p_cachedPos := p_cachedPos p; p_cachedLine :=
     p_cachedLine p |}.
Definition set_impliedSemi (v : bool) (p : printer) : printer :=
  {| p_Config := p_Config p; p_fset := p_fset p; p_output := p_output p;
     p_indent := p_indent p; p_mode := p_mode p; p_impliedSemi := v;
     p_lastTok := p_lastTok p; p_wsbuf := p_wsbuf p; p_pos := p_pos p; p_out
     := p_out p; p_last := p_last p; p_comments := p_comments p; p_cindex :=
     p_cindex p; p_useNodeComments := p_useNodeComments p; p_comment :=
     p_comment p; p_commentOffset := p_commentOffset p; p_commentNewline :=
     p_commentNewline p; p_cachedPos := p_cachedPos p; p_cachedLine :=
     p_cachedLine p |}.
Definition set_lastTok (v : token.Token) (p : printer) : printer :=
  {| p_Config := p_Config p; p_fset := p_fset p; p_output := p_output p;
     p_indent := p_indent p; p_mode := p_mode p; p_impliedSemi :=
     p_impliedSemi p; p_lastTok := v; p_wsbuf := p_wsbuf p; p_pos := p_pos
     p; p_out := p_out p; p_last := p_last p; p_comments := p_comments p;
     p_cindex := p_cindex p; p_useNodeComments := p_useNodeComments p;
     p_comment := p_comment p; p_commentOffset := p_commentOffset p;
     p_commentNewline := p_commentNewline p; p_cachedPos := p_cachedPos p;
     p_cachedLine := p_cachedLine p |}.
Definition set_wsbuf (v : list whiteSpace) (p : printer) : printer :=
  {| p_Config := p_Config p; p_fset := p_fset p; p_output := p_output p;
     p_indent := p_indent p; p_mode := p_mode p; p_impliedSemi :=
     p_impliedSemi p; p_lastTok := p_lastTok p; p_wsbuf := v; p_pos := p_pos
     p; p_out := p_out p; p_last := p_last p; p_comments := p_comments p;
     p_cindex := p_cindex p; p_useNodeComments := p_useNodeComments p;
     p_comment := p_comment p; p_commentOffset := p_commentOffset p;
     p_commentNewline := p_commentNewline p; p_cachedPos := p_cachedPos p;
     p_cachedLine := p_cachedLine p |}.
Definition set_pos (v : Position) (p : printer) : printer :=
  {| p_Config := p_Config p; p_fset := p_fset p; p_output := p_output p;
     p_indent := p_indent p; p_mode := p_mode p; p_impliedSemi :=
     p_impliedSemi p; p_lastTok := p_lastTok p; p_wsbuf := p_wsbuf p; p_pos
     := v; p_out := p_out p; p_last := p_last p; p_comments := p_comments p;
     p_cindex := p_cindex p; p_useNodeComments := p_useNodeComments p;
     p_comment := p_comment p; p_commentOffset := p_commentOffset p;
     p_commentNewline := p_commentNewline p; p_cachedPos := p_cachedPos p;
     p_cachedLine := p_cachedLine p |}.
Definition set_out (v : Position) (p : printer) : printer :=
  {| p_Config := p_Config p; p_fset := p_fset p; p_output := p_output p;
     p_indent := p_indent p; p_mode := p_mode p; p_impliedSemi :=
     p_impliedSemi p; p_lastTok := p_lastTok p; p_wsbuf := p_wsbuf p; p_pos
     := p_pos p; p_out := v; p_last := p_last p; p_comments := p_comments p;
     p_cindex := p_cindex p; p_useNodeComments := p_useNodeComments p;
     p_comment := p_comment p; p_commentOffset := p_commentOffset p;
     p_commentNewline := p_commentNewline p; p_cachedPos := p_cachedPos p;
     p_cachedLine := p_cachedLine p |}.
Definition set_last (v : Position) (p : printer) : printer :=
  {| p_Config := p_Config p; p_fset := p_fset p; p_output := p_output p;
     p_indent := p_indent p; p_mode := p_mode p; p_impliedSemi :=
     p_impliedSemi p; p_lastTok := p_lastTok p; p_wsbuf := p_wsbuf p; p_pos
     := p_pos p; p_out := p_out p; p_last := v; p_comments := p_comments p;
     p_cindex := p_cindex p; p_useNodeComments := p_useNodeComments p;
     p_comment := p_comment p; p_commentOffset := p_commentOffset p;
     p_commentNewline := p_commentNewline p; p_cachedPos := p_cachedPos p;
     p_cachedLine := p_cachedLine p |}.
Definition set_comments (v : list CommentGroup) (p : printer) : printer :=
  {| p_Config := p_Config p; p_fset := p_fset p; p_output := p_output p;
     p_indent := p_indent p; p_mode := p_mode p; p_impliedSemi :=
     p_impliedSemi p; p_lastTok := p_lastTok p; p_wsbuf := p_wsbuf p; p_pos
     := p_pos p; p_out := p_out p; p_last := p_last p; p_comments := v;
     p_cindex := p_cindex p; p_useNodeComments := p_useNodeComments p;
     p_comment := p_comment p; p_commentOffset := p_commentOffset p;
     p_commentNewline := p_commentNewline p; p_cachedPos := p_cachedPos p;
     p_cachedLine := p_cachedLine p |}.
Definition set_cindex (v : nat) (p : printer) : printer :=
  {| p_Config := p_Config p; p_fset := p_fset p; p_output := p_output p;
     p_indent := p_indent p; p_mode := p_mode p; p_impliedSemi :=
     p_impliedSemi p; p_lastTok := p_lastTok p; p_wsbuf := p_wsbuf p; p_pos
     := p_pos p; p_out := p_out p; p_last := p_last p; p_comments :=
     p_comments p; p_cindex := v; p_useNodeComments := p_useNodeComments p;
     p_comment := p_comment p; p_commentOffset := p_commentOffset p;
     p_commentNewline := p_commentNewline p; p_cachedPos := p_cachedPos p;
     p_cachedLine := p_cachedLine p |}.
Definition set_comment (v : option CommentGroup) (p : printer) : printer :=
  {| p_Config := p_Config p; p_fset := p_fset p; p_output := p_output p;
     p_indent := p_indent p; p_mode := p_mode p; p_impliedSemi :=
     p_impliedSemi p; p_lastTok := p_lastTok p; p_wsbuf := p_wsbuf p; p_pos
     := p_pos p; p_out := p_out p; p_last := p_last p; p_comments :=
     p_comments p; p_cindex := p_cindex p; p_useNodeComments :=
     p_useNodeComments p; p_comment := v; p_commentOffset := p_commentOffset
     p; p_commentNewline := p_commentNewline p; p_cachedPos := p_cachedPos
     p; p_cachedLine := p_cachedLine p |}.
Definition set_commentOffset (v : Z) (p : printer) : printer :=
  {| p_Config := p_Config p; p_fset := p_fset p; p_output := p_output p;
     p_indent := p_indent p; p_mode := p_mode p; p_impliedSemi :=
     p_impliedSemi p; p_lastTok := p_lastTok p; p_wsbuf := p_wsbuf p; p_pos
     := p_pos p; p_out := p_out p; p_last := p_last p; p_comments :=
     p_comments p; p_cindex := p_cindex p; p_useNodeComments :=
     p_useNodeComments p; p_comment := p_comment p; p_commentOffset := v;
     p_commentNewline := p_commentNewline p; p_cachedPos := p_cachedPos p;
     p_cachedLine := p_cachedLine p |}.
Definition set_commentNewline (v : bool) (p : printer) : printer :=
  {| p_Config := p_Config p; p_fset := p_fset p; p_output := p_output p;
     p_indent := p_indent p; p_mode := p_mode p; p_impliedSemi :=
     p_impliedSemi p; p_lastTok := p_lastTok p; p_wsbuf := p_wsbuf p; p_pos
     := p_pos p; p_out := p_out p; p_last := p_last p; p_comments :=
     p_comments p; p_cindex := p_cindex p; p_useNodeComments :=
     p_useNodeComments p; p_comment := p_comment p; p_commentOffset :=
     p_commentOffset p; p_commentNewline := v; p_cachedPos := p_cachedPos p;
     p_cachedLine := p_cachedLine p |}.
Definition set_cachedPos (v : Z) (p : printer) : printer :=
  {| p_Config := p_Config p; p_fset := p_fset p; p_output := p_output p;
     p_indent := p_indent p; p_mode := p_mode p; p_impliedSemi :=
     p_impliedSemi p; p_lastTok := p_lastTok p; p_wsbuf := p_wsbuf p; p_pos
     := p_pos p; p_out := p_out p; p_last := p_last p; p_comments :=
     p_comments p; p_cindex := p_cindex p; p_useNodeComments :=
     p_useNodeComments p; p_comment := p_comment p; p_commentOffset :=
     p_commentOffset p; p_commentNewline := p_commentNewline p; p_cachedPos
     := v; p_cachedLine := p_cachedLine p |}.
Definition set_cachedLine (v : Z) (p : printer) : printer :=
  {| p_Config := p_Config p; p_fset := p_fset p; p_output := p_output p;
     p_indent := p_indent p; p_mode := p_mode p; p_impliedSemi :=
     p_impliedSemi p; p_lastTok := p_lastTok p; p_wsbuf := p_wsbuf p; p_pos
     := p_pos p; p_out := p_out p; p_last := p_last p; p_comments :=
     p_comments p; p_cindex := p_cindex p; p_useNodeComments :=
     p_useNodeComments p; p_comment := p_comment p; p_commentOffset :=
     p_commentOffset p; p_commentNewline := p_commentNewline p; p_cachedPos
     := p_cachedPos p; p_cachedLine := v |}.

(** The capacity of [p.wsbuf], fixed by [init]. *)
Definition wsbuf_cap : nat := 16.

(** [printer.init]. *)
Definition init (cfg : Config) (fset : Z -> Position) : printer :=
  {| p_Config := cfg; p_fset := fset;
     p_output := []; p_indent := 0; p_mode := 0; p_impliedSemi := false;
     p_lastTok := ILLEGAL; p_wsbuf := [];
     p_pos := {| Filename := []; Offset := 0; Line := 1; Column := 1 |};
     p_out := {| Filename := []; Offset := 0; Line := 1; Column := 1 |};
     p_last := Position_zero;
     p_comments := []; p_cindex := 0; p_useNodeComments := false;
     p_comment := None; p_commentOffset := 0; p_commentNewline := false;
     p_cachedPos := -1; p_cachedLine := 0 |}.

(** *** Results: a call returns, or panics *)

Inductive result (A : Type) : Type :=
| Ok (a : A)
| Panic (msg : string).
Arguments Ok {A} a.
Arguments Panic {A} msg.

(** A method of the printer that may panic. *)
Definition M (A : Type) : Type := printer -> result (A * printer).

Definition ret {A} (a : A) : M A := fun p => Ok (a, p).

Definition bind {A B} (m : M A) (k : A -> M B) : M B :=
  fun p => match m p with
           | Ok (a, p') => k a p'
           | Panic msg => Panic msg
           end.

Definition panic {A} (msg : string) : M A := fun _ => Panic msg.

(** A step that cannot panic. *)
Definition step (f : printer -> printer) : M unit := fun p => Ok (tt, f p).

Notation "x <- m ;; k" := (bind m (fun x => k))
  (at level 100, m at next level, right associativity).
Notation "m ;; k" := (bind m (fun _ => k))
  (at level 100, right associativity).

(** *** Writing bytes and strings *)

(** [p.output = append(p.output, s...)]. *)
Definition emit (s : bytes) (p : printer) : printer :=
  set_output (p_output p ++ s) p.

(** [printer.internalError]: with [debug] off it does nothing; with
    [debug] on it prints the position and the message and panics. *)
Definition internalError (msg : string) : M unit :=
  fun p => if debug then Panic msg else Ok (tt, p).

(** [printer.posFor]. *)
Definition posFor (p : printer) (pos : Z) : Position := p_fset p pos.

(** [printer.lineFor], with its one-entry cache. *)
Definition lineFor (pos : Z) (p : printer) : Z * printer :=
  let p :=
    if negb (pos =? p_cachedPos p)
    then set_cachedLine (Line (p_fset p pos)) (set_cachedPos pos p)
    else p in
  (p_cachedLine p, p).

(** [printer.atLineBegin] emits a //line comment if necessary and
    prints indentation. *)
Definition atLineBegin (pos : Position) (p : printer) : printer :=
  (* write a //line comment if necessary *)
  let p :=
    if negb (Z.land (Mode (p_Config p)) SourcePos =? 0)
       && IsValid pos
       && (negb (Line (p_out p) =? Line pos)
           || negb (bytes_eqb (Filename (p_out p)) (Filename pos)))
    then
      let p := emit [Ch.Escape] p in
      let p := emit (bs "//line " ++ Filename pos ++ bs ":" ++ itoa (Line pos) ++ [Ch.nl]) p in
      let p := emit [Ch.Escape] p in
      (* p.out must match the //line comment *)
      set_out (with_Line (Line pos) (with_Filename (Filename pos) (p_out p))) p
    else p in
  (* write indentation *)
  let n := int_add (Indent (p_Config p)) (p_indent p) in
  let p := emit (repeat Ch.ht (Z.to_nat n)) p in
  (* update positions *)
  let p := set_pos (with_Offset (int_add (Offset (p_pos p)) n) (p_pos p)) p in
  let p := set_pos (with_Column (int_add (Column (p_pos p)) n) (p_pos p)) p in
  set_out (with_Column (int_add (Column (p_out p)) n) (p_out p)) p.

(** [printer.writeByte] writes [ch] [n] times to [p.output] and updates
    [p.pos]. *)
Definition writeByte (ch : ascii) (n : Z) (p : printer) : printer :=
  let p := if Column (p_out p) =? 1 then atLineBegin (p_pos p) p else p in
  let p := emit (repeat ch (Z.to_nat n)) p in
  (* update positions *)
  let p := set_pos (with_Offset (int_add (Offset (p_pos p)) n) (p_pos p)) p in
  if Ascii.eqb ch Ch.nl || Ascii.eqb ch Ch.ff then
    let p := set_pos (with_Line (int_add (Line (p_pos p)) n) (p_pos p)) p in
    let p := set_out (with_Line (int_add (Line (p_out p)) n) (p_out p)) p in
    let p := set_pos (with_Column 1 (p_pos p)) p in
    set_out (with_Column 1 (p_out p)) p
  else
    let p := set_pos (with_Column (int_add (Column (p_pos p)) n) (p_pos p)) p in
    set_out (with_Column (int_add (Column (p_out p)) n) (p_out p)) p.

(** The scan of [writeString] for newlines in [s], from index [i] on:
    their number and the index of the last one. *)
Fixpoint scanNewlines (i : nat) (s : bytes) (nlines : Z) (li : nat) : Z * nat :=
  match s with
  | [] => (nlines, li)
  | c :: s' =>
      if Ascii.eqb c Ch.nl then scanNewlines (S i) s' (nlines + 1) i
      else scanNewlines (S i) s' nlines li
  end.

(** [printer.writeString] writes the string [s] to [p.output] and updates
    [p.pos], [p.out] and [p.last].  If [isLit] is set, [s] is escaped
    with [tabwriter.Escape] characters. *)
Definition writeString (pos : Position) (s : bytes) (isLit : bool) (p : printer) : printer :=
  let p := if Column (p_out p) =? 1 then atLineBegin pos p else p in
  (* update p.pos (if pos is invalid, continue with existing p.pos) *)
  let p := if IsValid pos then set_pos pos p else p in
  let p := if isLit then emit [Ch.Escape] p else p in
  let p := if debug then emit (bs "/*" ++ Position_String pos ++ bs "*/") p else p in
  let p := emit s p in
  (* update positions *)
  let '(nlines, li) := scanNewlines 0 s 0 0 in
  let p := set_pos (with_Offset (int_add (Offset (p_pos p)) (len s)) (p_pos p)) p in
  let p :=
    if 0 <? nlines then
      let p := set_pos (with_Line (int_add (Line (p_pos p)) nlines) (p_pos p)) p in
      let p := set_out (with_Line (int_add (Line (p_out p)) nlines) (p_out p)) p in
      let c := len s - Z.of_nat li in
      let p := set_pos (with_Column c (p_pos p)) p in
      set_out (with_Column c (p_out p)) p
    else
      let p := set_pos (with_Column (int_add (Column (p_pos p)) (len s)) (p_pos p)) p in
      set_out (with_Column (int_add (Column (p_out p)) (len s)) (p_out p)) p in
  let p := if isLit then emit [Ch.Escape] p else p in
  set_last (p_pos p) p.

(** *** The comment cursor *)

(** The loop of [commentsHaveNewline] over the comments from index [i]
    on; [line] is the line of the first comment. *)
Fixpoint commentsHaveNewline_from (line : Z) (i : nat) (list : list Comment)
    (p : printer) : bool * printer :=
  match list with
  | [] => (false, p)
  | c :: list' =>
      let '(differ, p) :=
        if (0 <? i)%nat then
          let '(l, p) := lineFor (Slash c) p in (negb (l =? line), p)
        else (false, p) in
      if differ then (true, p)
      else
        let t := Text c in
        if (2 <=? len t)
           && (match t with
               | _ :: t1 :: _ => Ascii.eqb t1 "/"%char
               | _ => false
               end || containsNewline t)
        then (true, p)
        else commentsHaveNewline_from line (S i) list' p
  end.

(** [printer.commentsHaveNewline] reports whether a list of comments
    belonging to a comment group contains newlines; it is called with a
    list that is not empty. *)
Definition commentsHaveNewline (list : list Comment) (p : printer) : bool * printer :=
  match list with
  | [] => (false, p)
  | c0 :: _ =>
      let '(line, p) := lineFor (Slash c0) p in
      commentsHaveNewline_from line 0 list p
  end.

(** The loop of [nextComment]; [cs] is [p.comments[p.cindex:]]. *)
Fixpoint nextComment_loop (cs : list CommentGroup) (p : printer) : printer :=
  match cs with
  | [] =>
      (* no more comments *)
      set_commentOffset infinity p
  | c :: cs' =>
      let p := set_cindex (S (p_cindex p)) p in
      match List c with
      | c0 :: _ =>
          let p := set_comment (Some c) p in
          let p := set_commentOffset (Offset (posFor p (Slash c0))) p in
          let '(b, p) := commentsHaveNewline (List c) p in
          set_commentNewline b p
      | [] =>
          (* correct ASTs don't have empty comment groups: try again *)
          nextComment_loop cs' p
      end
  end.

(** [printer.nextComment]. *)
Definition nextComment (p : printer) : printer :=
  nextComment_loop (drop (p_cindex p) (p_comments p)) p.

(** [printer.commentBefore] returns true iff the current comment group
    occurs before the next position in the source code and printing it
    does not introduce implicit semicolons. *)
Definition commentBefore (p : printer) (next : Position) : bool :=
  (p_commentOffset p <? Offset next)
  && (negb (p_impliedSemi p) || negb (p_commentNewline p)).

(** *** The whitespace buffer *)

(** The state of the printer, read. *)
Definition get : M printer := fun p => Ok (p, p).

(** The case [unindent] of [writeWhitespace]: the indentation is
    decremented; a negative result is an internal error, after which the
    indentation is reset to 0. *)
Definition applyUnindent : M unit :=
  step (fun p => set_indent (int_sub (p_indent p) 1) p) ;;
  p <- get ;;
  if p_indent p <? 0 then
    internalError "negative indentation:" ;;
    step (set_indent 0)
  else ret tt.

Definition isLinebreak (ch : whiteSpace) : bool :=
  match ch with newline | formfeed => true | _ => false end.

(** The measure of the loop of [writeWhitespace]: two per entry still to
    write, and one more while a line break stands before an unindent
    (the iteration that swaps them is done again for the same index). *)
Definition swapPending (l : list whiteSpace) : nat :=
  match l with
  | ch :: unindent :: _ => if isLinebreak ch then 1 else 0
  | _ => 0
  end.

Definition entriesMeasure (l : list whiteSpace) : nat :=
  (2 * length l + swapPending l)%nat.

Lemma swapPending_le (l : list whiteSpace) : (swapPending l <= 1)%nat.
Proof. destruct l as [|[] [|[] ?]]; simpl; lia. Qed.

(** The loop of [writeWhitespace] over the entries [p.wsbuf[i:n]] still to
    write.  A line break immediately followed by an unindent is swapped
    with it, the line break becoming a formfeed, and the same index is
    processed again. *)
Equations? writeEntries (l : list whiteSpace) (p : printer)
  : result (unit * printer) by wf (entriesMeasure l) lt :=
  writeEntries [] p := Ok (tt, p);
  writeEntries (ignore :: r) p := writeEntries r p;
  writeEntries (indent :: r) p :=
    writeEntries r (set_indent (int_add (p_indent p) 1) p);
  writeEntries (unindent :: r) p with applyUnindent p => {
    | Ok (_, p') := writeEntries r p';
    | Panic msg := Panic msg };
  writeEntries (newline :: unindent :: r) p :=
    writeEntries (unindent :: formfeed :: r) p;
  writeEntries (formfeed :: unindent :: r) p :=
    writeEntries (unindent :: formfeed :: r) p;
  writeEntries (ch :: r) p :=
    writeEntries r (writeByte (whiteSpace_byte ch) 1 p).
Proof.
  all: repeat match goal with x := _ |- _ => subst x end.
  all: unfold entriesMeasure;
    match goal with
    | |- (_ * length ?l + _ < _)%nat => pose proof (swapPending_le l)
    end; cbn [length swapPending isLinebreak] in *; lia.
Qed.

(** [printer.writeWhitespace] writes the first [n] whitespace entries
    and shifts the remaining entries down.  ([n] beyond the length of the
    buffer is an index out of range.) *)
Definition writeWhitespace (n : nat) : M unit :=
  fun p =>
    if (length (p_wsbuf p) <? n)%nat then Panic "index out of range"
    else match writeEntries (take n (p_wsbuf p)) p with
         | Ok (_, p') => Ok (tt, set_wsbuf (drop n (p_wsbuf p)) p')
         | Panic msg => Panic msg
         end.

(** [nlimit] limits [n] to [maxNewlines]. *)
Definition nlimit (n : Z) : Z := if maxNewlines <? n then maxNewlines else n.

(** *** Writing comments *)

Definition isNil {A} (o : option A) : bool :=
  match o with None => true | Some _ => false end.

(** The scan of [writeCommentPrefix] over [p.wsbuf] for a comment on the
    same line as the last item, from index [i] on: the buffer with the
    blanks seen turned into [ignore], whether a tab was seen, and the
    index [j] at which the scan broke off ([j] keeps its initial 0 when
    the scan runs to the end). *)
Fixpoint scanSameLine (i : nat) (ws : list whiteSpace)
  : list whiteSpace * bool * nat :=
  match ws with
  | [] => ([], false, 0%nat)
  | ch :: rest =>
      match ch with
      | blank =>
          (* ignore any blanks before a comment *)
          let '(rest', hasSep, j) := scanSameLine (S i) rest in
          (ignore :: rest', hasSep, j)
      | vtab =>
          (* respect existing tabs *)
          let '(rest', _, j) := scanSameLine (S i) rest in
          (vtab :: rest', true, j)
      | indent =>
          (* apply pending indentation *)
          let '(rest', hasSep, j) := scanSameLine (S i) rest in
          (indent :: rest', hasSep, j)
      | _ => (ws, false, i)
      end
  end.

(** The scan for a comment on a different line.  [aligned] is
    [tok != token.RBRACE && pos.Column == next.Column]; [prevNil] is
    [prev == nil].  It yields the buffer, [droppedLinebreak] and [j]. *)
Fixpoint scanOtherLine (aligned prevNil : bool) (i : nat) (ws : list whiteSpace)
  : list whiteSpace * bool * nat :=
  match ws with
  | [] => ([], false, 0%nat)
  | ch :: rest =>
      match ch with
      | blank | vtab =>
          (* ignore any horizontal whitespace before line breaks *)
          let '(rest', dropped, j) := scanOtherLine aligned prevNil (S i) rest in
          (ignore :: rest', dropped, j)
      | indent =>
          (* apply pending indentation *)
          let '(rest', dropped, j) := scanOtherLine aligned prevNil (S i) rest in
          (indent :: rest', dropped, j)
      | unindent =>
          (* if this is not the last unindent, apply it; if the next token
             is not a closing brace, apply it if the comment is aligned
             with the token; otherwise stop *)
          if match rest with unindent :: _ => true | _ => false end || aligned
          then
            let '(rest', dropped, j) := scanOtherLine aligned prevNil (S i) rest in
            (unindent :: rest', dropped, j)
          else (ws, false, i)
      | newline | formfeed =>
          (* record only if first comment of a group *)
          (ignore :: rest, prevNil, i)
      | ignore => (ws, false, i)
      end
  end.

(** [printer.writeCommentPrefix] writes the whitespace before a comment.
    [pos] is the comment position, [next] the position of the item after
    all pending comments, [prev] the previous comment in a group of
    comments (or nil), and [tok] the next token. *)
Definition writeCommentPrefix (pos next : Position) (prev : option Comment)
    (comment : Comment) (tok : Token) : M unit :=
  p <- get ;;
  if (len (p_output p) =? 0) then
    (* the comment is the first item to be printed *)
    ret tt
  else if IsValid pos && negb (bytes_eqb (Filename pos) (Filename (p_last p))) then
    (* comment in a different file - separate with newlines *)
    step (writeByte Ch.ff maxNewlines)
  else if (Line pos =? Line (p_last p)) && isNil prev then
    (* comment on the same line as last item: separate with at least
       one separator *)
    let '(ws, hasSep, j) := scanSameLine 0 (p_wsbuf p) in
    step (set_wsbuf ws) ;;
    writeWhitespace j ;;
    (* make sure there is at least one separator *)
    if negb hasSep then
      let sep := if Line pos =? Line next then Ch.sp else Ch.ht in
      step (writeByte sep 1)
    else ret tt
  else
    (* comment on a different line: separate with at least one line
       break *)
    let aligned :=
      negb match tok with RBRACE => true | _ => false end
      && (Column pos =? Column next) in
    let '(ws, droppedLinebreak, j) := scanOtherLine aligned (isNil prev) 0 (p_wsbuf p) in
    step (set_wsbuf ws) ;;
    writeWhitespace j ;;
    p <- get ;;
    (* determine number of linebreaks before the comment *)
    let n :=
      if IsValid pos && IsValid (p_last p) then
        let n := int_sub (Line pos) (Line (p_last p)) in
        if n <? 0 then 0 else n
      else 0 in
    (* at the package scope level only, add an extra newline if we
       dropped one before *)
    let n := if (p_indent p =? 0) && droppedLinebreak then int_add n 1 else n in
    (* make sure there is at least one line break if the previous
       comment was a line comment *)
    let n := if (n =? 0) && negb (isNil prev) then 1 else n in
    if 0 <? n then step (writeByte Ch.ff (nlimit n)) else ret tt.

Definition linePrefix : bytes := bs "//line ".

(** The line directive a comment carries, if any: the file name and the
    line of a text that begins with [linePrefix], stands in column 1 (or
    has no valid position) and ends in a colon and a positive number. *)
Definition lineDirective (text : bytes) (pos : Position) : option (bytes * Z) :=
  if HasPrefix text linePrefix && (negb (IsValid pos) || (Column pos =? 1)) then
    (* possibly a line directive *)
    let ldir := TrimSpace (drop (length linePrefix) text) in
    match LastIndexColon ldir with
    | Some i =>
        match Atoi (drop (S i) ldir) with
        | Some line => if 0 <? line then Some (take i ldir, line) else None
        | None => None
        end
    | None => None
    end
  else None.

(** [printer.writeComment].  For a line directive the indentation is
    suspended while the comment is written, and the deferred function
    then sets the AST-space position to what the directive says.  The
    comment is written as [prefix], the text without its first byte and
    trimmed on the right, and [" */ "] unless [prefix] is ["//"]. *)
Definition writeComment (comment : Comment) (prefix : bytes) : M unit :=
  p <- get ;;
  let text := Text comment in
  let pos := posFor p (Slash comment) in
  let directive := lineDirective text pos in
  let indent0 := p_indent p in
  (if isNil directive then ret tt else step (set_indent 0)) ;;
  (* shortcut common case of //-style comments *)
  let suffix := if bytes_eqb prefix (bs "//") then [] else bs " */ " in
  match text with
  | [] => panic "slice bounds out of range"
  | _ :: text1 =>
      step (writeString pos (prefix ++ trimRight text1 ++ suffix) true) ;;
      match directive with
      | Some (filename, line) =>
          step (fun p => set_pos (with_Filename filename (p_pos p)) p) ;;
          step (fun p => set_pos (with_Line line (p_pos p)) p) ;;
          step (fun p => set_pos (with_Column 1 (p_pos p)) p) ;;
          step (set_indent indent0)
      | None => ret tt
      end
  end.

(** The loop of [writeCommentSuffix] over [p.wsbuf]: the buffer, and
    [needsLinebreak], [wroteNewline] and [droppedFF] after it. *)
Fixpoint scanSuffix (needsLinebreak wroteNewline droppedFF : bool)
    (ws : list whiteSpace) : list whiteSpace * bool * bool * bool :=
  match ws with
  | [] => ([], needsLinebreak, wroteNewline, droppedFF)
  | ch :: rest =>
      match ch with
      | blank | vtab =>
          (* ignore trailing whitespace *)
          let '(rest', n, w, d) := scanSuffix needsLinebreak wroteNewline droppedFF rest in
          (ignore :: rest', n, w, d)
      | indent | unindent | ignore =>
          (* don't lose indentation information *)
          let '(rest', n, w, d) := scanSuffix needsLinebreak wroteNewline droppedFF rest in
          (ch :: rest', n, w, d)
      | newline | formfeed =>
          (* if we need a line break, keep exactly one but remember if we
             dropped any formfeeds *)
          if needsLinebreak then
            let '(rest', n, w, d) := scanSuffix false true droppedFF rest in
            (ch :: rest', n, w, d)
          else
            let droppedFF :=
              match ch with formfeed => true | _ => droppedFF end in
            let '(rest', n, w, d) := scanSuffix needsLinebreak wroteNewline droppedFF rest in
            (ignore :: rest', n, w, d)
      end
  end.

(** [printer.writeCommentSuffix] writes a line break after a comment if
    indicated and processes any leftover indentation information.  The
    result indicates if a newline was written or if a formfeed was
    dropped from the whitespace buffer. *)
Definition writeCommentSuffix (needsLinebreak : bool) : M (bool * bool) :=
  p <- get ;;
  let '(ws, needsLinebreak, wroteNewline, droppedFF) :=
    scanSuffix needsLinebreak false false (p_wsbuf p) in
  step (set_wsbuf ws) ;;
  writeWhitespace (length ws) ;;
  (* make sure we have a line break *)
  if needsLinebreak then
    step (writeByte Ch.nl 1) ;;
    ret (true, droppedFF)
  else ret (wroteNewline, droppedFF).

(** The loop of [intersperseComments] over the comments of one group. *)
Fixpoint writeGroup (list : list Comment) (next : Position) (tok : Token)
    (last : option Comment) : M (option Comment) :=
  match list with
  | [] => ret last
  | c :: list' =>
      match tok with
      | LBRACE => writeComment c (bs " /*")
      | _ =>
          p <- get ;;
          writeCommentPrefix (posFor p (Slash c)) next last c tok ;;
          writeComment c (bs "//")
      end ;;
      writeGroup list' next tok (Some c)
  end.

(** The loop [for p.commentBefore(next)] of [intersperseComments], run
    at most [fuel] times.  A group that is nil where one is read is a nil
    dereference. *)
Fixpoint writeGroups (fuel : nat) (next : Position) (tok : Token)
    (last : option Comment) : M (option Comment) :=
  p <- get ;;
  if commentBefore p next then
    match fuel with
    | O => panic "out of fuel"
    | S fuel' =>
        match p_comment p with
        | None => panic "nil pointer dereference"
        | Some group =>
            last <- writeGroup (List group) next tok last ;;
            step nextComment ;;
            writeGroups fuel' next tok last
        end
    end
  else ret last.

(** The decision of [intersperseComments] whether a line break is needed
    after the comments: before a closing brace unless explicitly
    disabled, or at end of file. *)
Definition needsLinebreak (tok : Token) (mode : Z) : bool :=
  match tok with
  | RBRACE => Z.land mode noExtraLinebreak =? 0
  | EOF => true
  | _ => false
  end.

(** [printer.intersperseComments] consumes all comments that appear
    before the next token [tok] and prints them together with the
    buffered whitespace.  Every pass of its loop but the last moves the
    comment cursor on, so one pass per group left, and one more, are as
    many as a run that ends can take. *)
Definition intersperseComments (next : Position) (tok : Token) : M (bool * bool) :=
  p <- get ;;
  last <- writeGroups (S (S (length (p_comments p) - p_cindex p))) next tok None ;;
  match last with
  | Some _ =>
      p <- get ;;
      writeCommentSuffix (needsLinebreak tok (p_mode p))
  | None =>
      (* no comment was written *)
      internalError "intersperseComments called without pending comments" ;;
      ret (false, false)
  end.

(** [printer.flush] prints any pending comments and whitespace occurring
    textually before the position of the next token [tok]. *)
Definition flush (next : Position) (tok : Token) : M (bool * bool) :=
  p <- get ;;
  if commentBefore p next then
    (* if there are comments before the next item, intersperse them *)
    intersperseComments next tok
  else
    (* otherwise, write any leftover whitespace *)
    writeWhitespace (length (p_wsbuf p)) ;;
    ret (false, false).

(** *** Printing interface *)

(** [mayCombine]: would the byte [next], written right after the token
    [prev], combine with it into a different token. *)
Definition mayCombine (prev : Token) (next : ascii) : bool :=
  match prev with
  | INT => Ascii.eqb next "."%char                                (* 1. *)
  | ADD => Ascii.eqb next "+"%char                                (* ++ *)
  | SUB => Ascii.eqb next "-"%char                                (* -- *)
  | QUO => Ascii.eqb next "*"%char                                (* /* *)
  | LSS => Ascii.eqb next "-"%char || Ascii.eqb next "<"%char     (* <- or << *)
  | AND => Ascii.eqb next "&"%char || Ascii.eqb next "^"%char     (* && or &^ *)
  | _ => false
  end.

(** The arguments of [print], by their dynamic type. *)
Inductive arg :=
| A_pmode (x : Z)
| A_whiteSpace (x : whiteSpace)
| A_Ident (Name : bytes)                       (* *ast.Ident *)
| A_BasicLit (Kind : Token) (Value : bytes)    (* *ast.BasicLit *)
| A_Token (x : Token)
| A_Pos (x : Z)
| A_string (x : bytes)
| A_other.                                     (* a value of any other type *)

(** The number of newlines [print] intersperses before an item, after
    [flush]: those present in the source, if they don't cause extra
    semicolons, at most [maxNewlines], and one less than that if a
    newline was written already; 0 when none is written. *)
Definition newlineCount (next : Position) (wroteNewline : bool) (p : printer) : Z :=
  if negb (p_impliedSemi p) then
    let n := nlimit (int_sub (Line next) (Line (p_pos p))) in
    (* don't exceed maxNewlines if we already wrote one *)
    let n := if wroteNewline && (n =? maxNewlines) then maxNewlines - 1 else n in
    if 0 <? n then n else 0
  else 0.

(** That block of [print]; its result is the value of [impliedSemi]
    after it. *)
Definition intersperseNewlines (next : Position) (wroteNewline droppedFF : bool)
    (impliedSemi : bool) : M bool :=
  p <- get ;;
  let n := newlineCount next wroteNewline p in
  if 0 <? n then
    (* use formfeed if we dropped one before *)
    let ch := if droppedFF then Ch.ff else Ch.nl in
    step (writeByte ch n) ;;
    ret false
  else ret impliedSemi.

(** The part of [print] common to the arguments that carry text:
    [data], [isLit] and [impliedSemi] are what the type switch set. *)
Definition printData (data : bytes) (isLit impliedSemi : bool) : M unit :=
  p <- get ;;
  let next := p_pos p in   (* estimated/accurate position of next item *)
  flags <- flush next (p_lastTok p) ;;
  let '(wroteNewline, droppedFF) := flags in
  impliedSemi <- intersperseNewlines next wroteNewline droppedFF impliedSemi ;;
  step (writeString next data isLit) ;;
  step (set_impliedSemi impliedSemi).

(** Some keywords and closing tokens followed by a newline imply a
    semicolon. *)
Definition impliesSemi (x : Token) : bool :=
  match x with
  | BREAK | CONTINUE | FALLTHROUGH | RETURN
  | INC | DEC | RPAREN | RBRACK | RBRACE => true
  | _ => false
  end.

(** The body of the loop of [print], for one argument. *)
Definition print1 (a : arg) : M unit :=
  match a with
  | A_pmode x =>
      (* toggle printer mode *)
      step (fun p => set_mode (Z.lxor (p_mode p) x) p)
  | A_whiteSpace x =>
      match x with
      | ignore =>
          (* don't add ignore's to the buffer *)
          ret tt
      | _ =>
          p <- get ;;
          let i := length (p_wsbuf p) in
          (if (i =? wsbuf_cap)%nat then
             (* whitespace sequences are very short so this should never
                happen; handled gracefully *)
             writeWhitespace i
           else ret tt) ;;
          step (fun p => set_wsbuf (p_wsbuf p ++ [x]) p) ;;
          (if isLinebreak x then
             (* newlines affect the current state (p.impliedSemi) *)
             step (set_impliedSemi false)
           else ret tt) ;;
          step (set_lastTok ILLEGAL)
      end
  | A_Ident Name =>
      step (set_lastTok IDENT) ;;
      printData Name false true
  | A_BasicLit Kind Value =>
      step (set_lastTok Kind) ;;
      printData Value true true
  | A_Token x =>
      let s := Token_String x in
      match s with
      | [] => panic "index out of range"
      | s0 :: _ =>
          p <- get ;;
          (if mayCombine (p_lastTok p) s0 then
             (* the previous and the current token must be separated by a
                blank otherwise they combine into a different incorrect
                token sequence *)
             (if negb (length (p_wsbuf p) =? 0)%nat
              then internalError "whitespace buffer not empty"
              else ret tt) ;;
             step (set_wsbuf [blank])
           else ret tt) ;;
          step (set_lastTok x) ;;
          printData s false (impliesSemi x)
      end
  | A_Pos x =>
      if Pos_IsValid x then
        (* accurate position of next item *)
        step (fun p => set_pos (posFor p x) p)
      else ret tt
  | A_string x =>
      (* incorrect AST - print error message *)
      step (set_lastTok STRING) ;;
      printData x true true
  | A_other => panic "github.com/DAddYE/igo/to_go printer type"
  end.

(** [printer.print] prints a list of items. *)
Fixpoint print (args : list arg) : M unit :=
  match args with
  | [] => ret tt
  | a :: args' => print1 a ;; print args'
  end.

(** *** Trimmer *)

(** The states of the trimmer. *)
Inductive tstate :=
| inSpace    (* inside space *)
| inEscape   (* inside text bracketed by tabwriter.Escapes *)
| inText.    (* inside text *)

(** [type trimmer struct]; the writer [output] is a buffer in memory, as
    in the README's examples, represented by the bytes written to it:
    its [Write] appends and returns no error. *)
Record trimmer := { t_output : bytes; t_state : tstate; t_space : bytes }.

Definition trimmer_new : trimmer :=
  {| t_output := []; t_state := inSpace; t_space := [] |}.

(** [p.output.Write(s)]. *)
Definition t_write (s : bytes) (t : trimmer) : trimmer :=
  {| t_output := t_output t ++ s; t_state := t_state t; t_space := t_space t |}.

Definition t_setState (s : tstate) (t : trimmer) : trimmer :=
  {| t_output := t_output t; t_state := s; t_space := t_space t |}.

(** [p.space = append(p.space, b)]. *)
Definition t_addSpace (b : ascii) (t : trimmer) : trimmer :=
  {| t_output := t_output t; t_state := t_state t; t_space := t_space t ++ [b] |}.

(** [trimmer.resetSpace]. *)
Definition resetSpace (t : trimmer) : trimmer :=
  {| t_output := t_output t; t_state := inSpace; t_space := [] |}.

Definition aNewline : bytes := [Ch.nl].

(** [data[m:n]]. *)
Definition slice (data : bytes) (m n : nat) : bytes := take (n - m) (drop m data).

(** One pass of the loop of [trimmer.Write], for the byte [b0] at index
    [n]: the trimmer and [m] after it. *)
Definition Write_step (data : bytes) (n : nat) (b0 : ascii) (m : nat) (t : trimmer)
  : trimmer * nat :=
  let b := if Ascii.eqb b0 Ch.vt then Ch.ht (* convert to htab *) else b0 in
  match t_state t with
  | inSpace =>
      if Ascii.eqb b Ch.ht || Ascii.eqb b Ch.sp then (t_addSpace b t, m)
      else if Ascii.eqb b Ch.nl || Ascii.eqb b Ch.ff then
        (* discard trailing space *)
        (t_write aNewline (resetSpace t), m)
      else if Ascii.eqb b Ch.Escape then
        (t_setState inEscape (t_write (t_space t) t), S n)   (* +1: skip tabwriter.Escape *)
      else (t_setState inText (t_write (t_space t) t), n)
  | inEscape =>
      if Ascii.eqb b Ch.Escape then (resetSpace (t_write (slice data m n) t), m)
      else (t, m)
  | inText =>
      if Ascii.eqb b Ch.ht || Ascii.eqb b Ch.sp then
        (t_addSpace b (resetSpace (t_write (slice data m n) t)), m)
      else if Ascii.eqb b Ch.nl || Ascii.eqb b Ch.ff then
        (t_write aNewline (resetSpace (t_write (slice data m n) t)), m)
      else if Ascii.eqb b Ch.Escape then
        (t_setState inEscape (t_write (slice data m n) t), S n)
      else (t, m)
  end.

(** The loop of [trimmer.Write] over [data[n:]] = [rest]. *)
Fixpoint Write_loop (data rest : bytes) (n m : nat) (t : trimmer) : trimmer * nat :=
  match rest with
  | [] => (t, m)
  | b0 :: rest' =>
      let '(t, m) := Write_step data n b0 m t in
      Write_loop data rest' (S n) m t
  end.

(** [trimmer.Write]. *)
Definition Write (data : bytes) (t : trimmer) : trimmer :=
  let '(t, m) := Write_loop data data 0 0 t in
  match t_state t with
  | inEscape | inText => resetSpace (t_write (slice data m (length data)) t)
  | inSpace => t
  end.

(** *** Public interface *)

(** [Config.fprint] for a node whose tree walk (the node printing
    functions are not among the sources) passes [items] to [print], with
    [comments] the comments of the node, and for a configuration with
    [RawFormat] set, so that the printer result goes to the output
    through the trimmer alone. *)
Definition fprint (cfg : Config) (fset : Z -> Position)
    (comments : list CommentGroup) (items : list arg) : result bytes :=
  let p := init cfg fset in
  (* printNode: get comments ready for use, format node *)
  let p := nextComment (set_comments comments p) in
  match (print items ;;
         (* print outstanding comments; EOF acts like a newline *)
         step (set_impliedSemi false) ;;
         flush {| Filename := []; Offset := infinity; Line := infinity; Column := 0 |} EOF) p
  with
  | Ok (_, p) =>
      (* redirect output through a trimmer to eliminate trailing
         whitespace *)
      Ok (t_output (Write (p_output p) trimmer_new))
  | Panic msg => Panic msg
  end.

(** *** Helpers on strings *)

(** [isBlank] returns true if [s] contains only white space (only tabs
    and blanks can appear in the printer's context): no byte above
    [' ']. *)
Definition isBlank (s : bytes) : bool :=
  forallb (fun c => negb (32 <? N_of_ascii c)%N) s.

(** [commonPrefix]: the loop advances [i] while both strings have a byte
    at [i], the two bytes are equal and not above [' ']; the result is
    [a[0:i]]. *)
Fixpoint commonPrefix (a b : bytes) : bytes :=
  match a, b with
  | x :: a', y :: b' =>
      if Ascii.eqb x y && (N_of_ascii x <=? 32)%N then x :: commonPrefix a' b' else []
  | _, _ => []
  end.

End ToGo.

(** ** ast/print.igo: the debug printer of ASTs *)

Module AstPrint.

(** A [reflect.Value] as [print] takes it apart, by its kind.  A pointer
    that is not nil is known by its identity [ptr], the key under which
    [ptrmap] files it; the heap maps it to the value it points to.
    Sub-trees are shared, and cycles closed, through pointers. *)
#[local] Set Warnings "-register-all".
Inductive value :=
| VNil                                               (* a nil chan, func, interface, map, pointer or slice *)
| VInterface (elem : value)                          (* reflect.Interface *)
| VMap (type : bytes) (entries : list (value * value)) (* reflect.Map, in the order of MapKeys *)
| VPtr (ptr : nat)                                   (* reflect.Ptr *)
| VArray (type : bytes) (elems : list value)         (* reflect.Array *)
| VSlice (type : bytes) (elems : list value)         (* reflect.Slice, but []byte *)
| VStruct (type : bytes) (fields : list (bytes * value)) (* reflect.Struct *)
| VBasic (text : bytes).
(** [VBasic] is a value of any other kind, and a []byte, by the text fmt
    gives it: %#q for a []byte, %q for a string, the position for a
    token.Pos when a file set is given, %v otherwise. *)

(** [NotNilFilter] returns true for field values that are not nil. *)
Definition NotNilFilter (name : bytes) (v : value) : bool :=
  match v with VNil => false | _ => true end.

(** [type printer struct]; the fields carry the prefix [pr_].  The writer
    [output] is a buffer in memory, represented by the bytes written to
    it.  The file set only shapes the text of positions, which [VBasic]
    holds. *)
Record printer := {
  pr_output : bytes;
  pr_filter : option (bytes -> value -> bool);
  pr_ptrmap : gmap nat Z;   (* *T -> line number *)
  pr_indent : Z;            (* current indentation level *)
  pr_last : ascii;          (* the last byte processed by Write *)
  pr_line : Z               (* current line number *)
}.

Definition pr_write (s : bytes) (p : printer) : printer :=
  {| pr_output := pr_output p ++ s; pr_filter := pr_filter p; pr_ptrmap := pr_ptrmap p;
     pr_indent := pr_indent p; pr_last := pr_last p; pr_line := pr_line p |}.
Definition set_ptrmap (m : gmap nat Z) (p : printer) : printer :=
  {| pr_output := pr_output p; pr_filter := pr_filter p; pr_ptrmap := m;
     pr_indent := pr_indent p; pr_last := pr_last p; pr_line := pr_line p |}.
Definition set_indent (v : Z) (p : printer) : printer :=
  {| pr_output := pr_output p; pr_filter := pr_filter p; pr_ptrmap := pr_ptrmap p;
     pr_indent := v; pr_last := pr_last p; pr_line := pr_line p |}.
Definition set_last (v : ascii) (p : printer) : printer :=
  {| pr_output := pr_output p; pr_filter := pr_filter p; pr_ptrmap := pr_ptrmap p;
     pr_indent := pr_indent p; pr_last := v; pr_line := pr_line p |}.
Definition set_line (v : Z) (p : printer) : printer :=
  {| pr_output := pr_output p; pr_filter := pr_filter p; pr_ptrmap := pr_ptrmap p;
     pr_indent := pr_indent p; pr_last := pr_last p; pr_line := v |}.

(** [var indent]. *)
Definition indent : bytes := bs ".  ".

(** [fmt.Sprintf("%6d  ", line)]. *)
Definition lineLabel (line : Z) : bytes :=
  let s := itoa line in
  repeat " "%char (6 - length s) ++ s ++ bs "  ".

(** The loop [for j := self.indent; j > 0; j--] writing [indent]. *)
Definition writeIndent (p : printer) : printer :=
  pr_write (concat (repeat indent (Z.to_nat (pr_indent p)))) p.

(** The loop of [printer.Write] over [data[i:]] = [rest]; [n] bytes of
    [data] have been written. *)
Fixpoint Write_loop (data rest : bytes) (i n : nat) (p : printer) : printer * nat :=
  match rest with
  | [] => (p, n)
  | b :: rest' =>
      let '(p, n) :=
        if Ascii.eqb b Ch.nl then
          let p := pr_write (take (S i - n) (drop n data)) p in
          (set_line (int_add (pr_line p) 1) p, S i)
        else if Ascii.eqb (pr_last p) Ch.nl then
          (writeIndent (pr_write (lineLabel (pr_line p)) p), n)
        else (p, n) in
      Write_loop data rest' (S i) n (set_last b p)
  end.

(** [printer.Write]: every line of the output begins with its number
    and the indentation. *)
Definition Write (data : bytes) (p : printer) : printer :=
  let '(p, n) := Write_loop data data 0 0 p in
  if (n <? length data)%nat then pr_write (drop n data) p else p.

(** [printer.printf] of a format and arguments that fmt renders as
    [text]. *)
Definition printf (text : bytes) (p : printer) : printer := Write text p.

Section Print.

(** [ast.IsExported], which is not among the sources, and the heap. *)
Variable IsExported : bytes -> bool.
Variable heap : list value.

(** The loops of [print] over the entries of a map, the elements of an
    array or slice and the fields of a struct; [print] is the call of
    [print] for a value inside. *)
Section Loops.

Variable print : value -> printer -> option printer.

Fixpoint printEntries (l : list (value * value)) (p : printer) : option printer :=
  match l with
  | [] => Some p
  | (key, v) :: l' =>
      match print key p with
      | Some p =>
          match print v (printf (bs ": ") p) with
          | Some p => printEntries l' (printf [Ch.nl] p)
          | None => None
          end
      | None => None
      end
  end.

Fixpoint printElems (i : Z) (l : list value) (p : printer) : option printer :=
  match l with
  | [] => Some p
  | v :: l' =>
      match print v (printf (itoa i ++ bs ": ") p) with
      | Some p => printElems (i + 1) l' (printf [Ch.nl] p)
      | None => None
      end
  end.

Fixpoint printFields (l : list (bytes * value)) (first : bool) (p : printer)
  : option printer :=
  match l with
  | [] => Some p
  | (name, v) :: l' =>
      (* exclude non-exported fields because their values cannot be
         accessed via reflection *)
      if IsExported name
         && match pr_filter p with
            | None => true
            | Some f => f name v
            end
      then
        let p := if first then printf [Ch.nl] p else p in
        match print v (printf (name ++ bs ": ") p) with
        | Some p => printFields l' false (printf [Ch.nl] p)
        | None => None
        end
      else printFields l' first p
  end.

End Loops.

(** The body of a map, an array or a slice between its braces: nothing
    when it is empty, else its lines, indented. *)
Definition indented (n : Z) (body : printer -> option printer) (p : printer)
  : option printer :=
  if 0 <? n then
    let p := set_indent (int_add (pr_indent p) 1) p in
    match body (printf [Ch.nl] p) with
    | Some p => Some (set_indent (int_sub (pr_indent p) 1) p)
    | None => None
    end
  else Some p.

(** [printer.print], with at most [fuel] calls nested in one another;
    [None] when they do not suffice.  A pointer outside the heap has no
    pointee, and no result. *)
Fixpoint print (fuel : nat) (x : value) (p : printer) : option printer :=
  match fuel with
  | O => None
  | S fuel =>
      match x with
      | VNil => Some (printf (bs "nil") p)
      | VInterface elem => print fuel elem p
      | VMap type entries =>
          let p := printf (type ++ bs " (len = " ++ itoa (len entries) ++ bs ") {") p in
          match indented (len entries) (printEntries (print fuel) entries) p with
          | Some p => Some (printf (bs "}") p)
          | None => None
          end
      | VPtr ptr =>
          let p := printf (bs "*") p in
          (* type-checked ASTs may contain cycles - use ptrmap to keep
             track of objects that have been printed already and print
             the respective line number instead *)
          match pr_ptrmap p !! ptr with
          | Some line => Some (printf (bs "(obj @ " ++ itoa line ++ bs ")") p)
          | None =>
              let p := set_ptrmap (<[ptr := pr_line p]> (pr_ptrmap p)) p in
              match heap !! ptr with
              | Some elem => print fuel elem p
              | None => None
              end
          end
      | VArray type elems =>
          let p := printf (type ++ bs " {") p in
          match indented (len elems) (printElems (print fuel) 0 elems) p with
          | Some p => Some (printf (bs "}") p)
          | None => None
          end
      | VSlice type elems =>
          let p := printf (type ++ bs " (len = " ++ itoa (len elems) ++ bs ") {") p in
          match indented (len elems) (printElems (print fuel) 0 elems) p with
          | Some p => Some (printf (bs "}") p)
          | None => None
          end
      | VStruct type fields =>
          let p := printf (type ++ bs " {") p in
          let p := set_indent (int_add (pr_indent p) 1) p in
          match printFields (print fuel) fields true p with
          | Some p =>
              let p := set_indent (int_sub (pr_indent p) 1) p in
              Some (printf (bs "}") p)
          | None => None
          end
      | VBasic text => Some (printf text p)
      end
  end.

(** [Fprint] prints the (sub-)tree starting at AST node [x]; [x] is
    [None] for a nil interface. *)
Definition Fprint (fuel : nat) (x : option value) (f : option (bytes -> value -> bool))
  : option bytes :=
  (* setup printer *)
  let p := {| pr_output := []; pr_filter := f; pr_ptrmap := ∅; pr_indent := 0;
              pr_last := Ch.nl (* force printing of line number on first line *);
              pr_line := 0 |} in
  match x with
  | None => Some (pr_output (printf (bs "nil" ++ [Ch.nl]) p))
  | Some x =>
      match print fuel x p with
      | Some p => Some (pr_output (printf [Ch.nl] p))
      | None => None
      end
  end.

(** The number of nodes of a value. *)
Fixpoint vsize (v : value) : nat :=
  match v with
  | VNil | VPtr _ | VBasic _ => 1
  | VInterface elem => S (vsize elem)
  | VMap _ entries =>
      S (list_sum (map (fun kv => vsize (fst kv) + vsize (snd kv))%nat entries))
  | VArray _ elems | VSlice _ elems => S (list_sum (map vsize elems))
  | VStruct _ fields => S (list_sum (map (fun nv => vsize (snd nv)) fields))
  end.

(** Every pointer of [v] points into the heap. *)
Fixpoint closedValue (v : value) : bool :=
  match v with
  | VNil | VBasic _ => true
  | VPtr ptr => (ptr <? length heap)%nat
  | VInterface elem => closedValue elem
  | VMap _ entries =>
      forallb (fun kv => closedValue (fst kv) && closedValue (snd kv)) entries
  | VArray _ elems | VSlice _ elems => forallb closedValue elems
  | VStruct _ fields => forallb (fun nv => closedValue (snd nv)) fields
  end.

(** A heap is closed when the pointers of its values point into it. *)
Definition closedHeap : bool := forallb closedValue heap.

(** The nodes of the part [h] of the heap, which begins at the pointer
    [i], that [ptrmap] does not hold yet, counting one more for each
    pointer. *)
Fixpoint unprinted (i : nat) (h : list value) (ptrmap : gmap nat Z) : nat :=
  match h with
  | [] => 0
  | v :: h' =>
      (match ptrmap !! i with Some _ => 0 | None => S (vsize v) end
       + unprinted (S i) h' ptrmap)%nat
  end.

(** Calls nested in one another that are enough to print [x]. *)
Definition enoughFuel (x : value) (ptrmap : gmap nat Z) : nat :=
  (vsize x + unprinted 0 heap ptrmap)%nat.

End Print.

End AstPrint.

(** * Part II: properties *)

(** ** The command line (main.go) *)

Module CliFacts.
Import Cli.

(** An argument that names no command is kept as a path. *)
Lemma scanArgs_paths (args : list string) (command : Cmd) (paths : list string) :
  Forall (fun s => toCmd s = INVALID) args ->
  scanArgs args command paths = (command, paths ++ args).
Proof.
  intros Hall; revert paths.
  induction Hall as [|s args Hs _ IH]; intros paths; simpl.
  - now rewrite app_nil_r.
  - rewrite Hs; simpl. rewrite IH, <- app_assoc. reflexivity.
Qed.

(** C1, as the spec states it: [parse] would read the indented syntax
    and write the curly one, [compile] the reverse.  On a run of
    "igo parse a.go" the code starts the conversion the other way
    round. *)
Lemma C1_parse_direction_counterexample :
  ~ (direction (main ["parse"; "a.go"]%string) = Some (Indented, Curly)
     /\ direction (main ["compile"; "a.igo"]%string) = Some (Curly, Indented)).
Proof. vm_compute. intros [H _]. discriminate H. Qed.

(** C1, amended: [parse] hands the paths to [cmd.To] with the target
    IGO, which reads the curly syntax and writes the indented one;
    [compile] hands them over with the target GO, which reads the
    indented syntax and writes the curly one; [build] starts no
    conversion: it is answered by "Invalid command" and the usage, with
    exit code 2. *)
Theorem C1_subcommands (paths : list string) :
  Forall (fun s => toCmd s = INVALID) paths ->
  main ("parse"%string :: paths) = CallTo IGO paths
  /\ direction (main ("parse"%string :: paths)) = Some (Curly, Indented)
  /\ main ("compile"%string :: paths) = CallTo GO paths
  /\ direction (main ("compile"%string :: paths)) = Some (Indented, Curly)
  /\ main ("build"%string :: paths) = InvalidCommand
  /\ direction (main ("build"%string :: paths)) = None.
Proof.
  intros Hall. unfold main. cbn [scanArgs].
  change (toCmd "parse") with PARSE.
  change (toCmd "compile") with COMPILE.
  change (toCmd "build") with BUILD.
  cbn [Cmd_index Nat.ltb Nat.leb].
  rewrite !(scanArgs_paths _ _ _ Hall). cbn. repeat split; reflexivity.
Qed.

Lemma C1_subcommands_witness :
  main ["parse"; "a.go"; "lib"]%string = CallTo IGO ["a.go"; "lib"]%string
  /\ direction (main ["build"; "a.go"; "lib"]%string) = None.
Proof.
  assert (H : Forall (fun s => toCmd s = INVALID) ["a.go"; "lib"]%string)
    by (repeat constructor).
  destruct (C1_subcommands ["a.go"; "lib"]%string H) as (Hp & _ & _ & _ & _ & Hb).
  exact (conj Hp Hb).
Defined.

(** *** The arguments of [main] *)

(** An argument that names a command. *)
Definition isCommand (s : string) : bool := (0 <? Cmd_index (toCmd s))%nat.

(** What [main] does for a command and the paths. *)
Definition dispatch (command : Cmd) (paths : list string) : Outcome :=
  match command with
  | PARSE => CallTo IGO paths
  | COMPILE => CallTo GO paths
  | _ => InvalidCommand
  end.

Lemma toCmd_names (s : string) :
  isCommand s = true <-> s = "compile"%string \/ s = "parse"%string \/ s = "build"%string.
Proof.
  unfold isCommand, toCmd, commands. cbn [toCmd_from].
  destruct (String.eqb_spec s "") as [->|_]; [cbn; intuition discriminate|].
  destruct (String.eqb_spec s "compile") as [->|H1]; [cbn; intuition|].
  destruct (String.eqb_spec s "parse") as [->|H2]; [cbn; intuition|].
  destruct (String.eqb_spec s "build") as [->|H3]; [cbn; intuition|].
  cbn. intuition discriminate.
Qed.

Lemma scanArgs_filter (args : list string) (command : Cmd) (paths : list string) :
  snd (scanArgs args command paths)
  = paths ++ List.filter (fun s => negb (isCommand s)) args.
Proof.
  revert command paths. induction args as [|s args IH]; intros command paths; cbn [scanArgs List.filter].
  - now rewrite app_nil_r.
  - fold (isCommand s). destruct (isCommand s); cbn [negb].
    + apply IH.
    + rewrite IH, <- app_assoc. reflexivity.
Qed.

Lemma scanArgs_command_none (args : list string) (command : Cmd) (paths : list string) :
  Forall (fun s => isCommand s = false) args ->
  fst (scanArgs args command paths) = command.
Proof.
  intros Hall. revert paths. induction Hall as [|s args Hs _ IH]; intros paths; cbn [scanArgs].
  - reflexivity.
  - fold (isCommand s). rewrite Hs. apply IH.
Qed.

Lemma scanArgs_command_last (pre post : list string) (s : string) (command : Cmd)
    (paths : list string) :
  isCommand s = true ->
  Forall (fun s => isCommand s = false) post ->
  fst (scanArgs (pre ++ s :: post) command paths) = toCmd s.
Proof.
  intros Hs Hpost. revert command paths.
  induction pre as [|a pre IH]; intros command paths; cbn [app scanArgs].
  - fold (isCommand s). rewrite Hs. apply scanArgs_command_none, Hpost.
  - destruct (0 <? Cmd_index (toCmd a))%nat; apply IH.
Qed.

(** X1: the arguments of [main] are scanned in order: the last argument
    that names a command (compile, parse or build) decides what is done,
    every argument that names no command is a path, in the order given,
    and the command words themselves never are paths.  Without any
    command word the answer is "Invalid command" and the usage. *)
Theorem X1_main_last_command_wins (pre post : list string) (s : string) :
  isCommand s = true ->
  Forall (fun a => isCommand a = false) post ->
  main (pre ++ s :: post)
  = dispatch (toCmd s) (List.filter (fun a => negb (isCommand a)) pre ++ post)
  /\ main (List.filter (fun a => negb (isCommand a)) pre ++ post) = InvalidCommand.
Proof.
  intros Hs Hpost.
  assert (Hfpost : List.filter (fun a => negb (isCommand a)) post = post).
  { clear Hs. induction Hpost as [|a post Ha _ IH]; cbn [List.filter]; [reflexivity|].
    rewrite Ha, IH. reflexivity. }
  split.
  - unfold main.
    pose proof (scanArgs_command_last pre post s INVALID [] Hs Hpost) as Hc.
    pose proof (scanArgs_filter (pre ++ s :: post) INVALID []) as Hp.
    destruct (scanArgs (pre ++ s :: post) INVALID []) as [command paths].
    cbn [fst snd] in Hc, Hp. subst command paths. cbn [app].
    rewrite List.filter_app. cbn [List.filter]. rewrite Hs. cbn [negb]. rewrite Hfpost.
    reflexivity.
  - unfold main.
    assert (Hnone : Forall (fun a => isCommand a = false)
                      (List.filter (fun a => negb (isCommand a)) pre ++ post)).
    { apply List.Forall_app. split; [|exact Hpost].
      apply List.Forall_forall. intros a Ha. apply List.filter_In in Ha as [_ Ha].
      now apply negb_true_iff in Ha. }
    pose proof (scanArgs_command_none _ INVALID [] Hnone) as Hc.
    destruct (scanArgs _ INVALID []) as [command paths]. cbn [fst] in Hc. subst command.
    reflexivity.
Qed.

Lemma X1_main_last_command_wins_witness :
  main ["x.go"; "compile"; "y.go"; "parse"; "z.go"]%string
  = CallTo IGO ["x.go"; "y.go"; "z.go"]%string.
Proof.
  apply (X1_main_last_command_wins ["x.go"; "compile"; "y.go"]%string ["z.go"]%string
           "parse"%string).
  - reflexivity.
  - repeat constructor.
Defined.


End CliFacts.

(** ** The emitter (to_go.go) *)

Module ToGoFacts.
Import ToGo.

(** *** Go integers *)

Lemma wrap_small (z : Z) : - 2 ^ 63 <= z < 2 ^ 63 -> wrap z = z.
Proof.
  intros H. unfold wrap.
  rewrite Z.mod_small by lia. lia.
Qed.

(** Projections of assignments, computed. *)
Ltac fields :=
  cbn [p_Config p_fset p_output p_indent p_mode p_impliedSemi p_lastTok p_wsbuf
       p_pos p_out p_last p_comments p_cindex p_useNodeComments p_comment
       p_commentOffset p_commentNewline p_cachedPos p_cachedLine
       set_output set_indent set_mode set_impliedSemi set_lastTok set_wsbuf
       set_pos set_out set_last set_comments set_cindex set_comment
       set_commentOffset set_commentNewline set_cachedPos set_cachedLine emit
       Filename Offset Line Column with_Filename with_Offset with_Line with_Column] in *.

(** *** What the writing functions append *)

(** The bytes [atLineBegin] writes: a //line comment if necessary, and
    the indentation. *)
Definition lineBeginText (pos : Position) (p : printer) : bytes :=
  (if negb (Z.land (Mode (p_Config p)) SourcePos =? 0)
      && IsValid pos
      && (negb (Line (p_out p) =? Line pos)
          || negb (bytes_eqb (Filename (p_out p)) (Filename pos)))
   then [Ch.Escape] ++ (bs "//line " ++ Filename pos ++ bs ":" ++ itoa (Line pos) ++ [Ch.nl])
        ++ [Ch.Escape]
   else [])
  ++ repeat Ch.ht (Z.to_nat (int_add (Indent (p_Config p)) (p_indent p))).

Lemma atLineBegin_output (pos : Position) (p : printer) :
  p_output (atLineBegin pos p) = p_output p ++ lineBeginText pos p.
Proof.
  unfold atLineBegin, lineBeginText.
  destruct (negb (Z.land (Mode (p_Config p)) SourcePos =? 0) && IsValid pos
            && (negb (Line (p_out p) =? Line pos)
                || negb (bytes_eqb (Filename (p_out p)) (Filename pos)))); fields.
  - rewrite <- !app_assoc. reflexivity.
  - reflexivity.
Qed.

(** What stands before the bytes of a call of [writeByte] or
    [writeString]: nothing, or the line beginning when the output is in
    column 1. *)
Definition lineBeginIf (pos : Position) (p : printer) : bytes :=
  if Column (p_out p) =? 1 then lineBeginText pos p else [].

Lemma writeByte_output (ch : ascii) (n : Z) (p : printer) :
  p_output (writeByte ch n p)
  = p_output p ++ lineBeginIf (p_pos p) p ++ repeat ch (Z.to_nat n).
Proof.
  unfold writeByte, lineBeginIf.
  destruct (Column (p_out p) =? 1); destruct (Ascii.eqb ch Ch.nl || Ascii.eqb ch Ch.ff); fields;
    rewrite ?atLineBegin_output, <- ?app_assoc; reflexivity.
Qed.

(** The fields the comment cursor lives in, and the whitespace buffer,
    are not touched by writing. *)
Definition sameCursor (p p' : printer) : Prop :=
  p_comments p' = p_comments p /\ p_cindex p' = p_cindex p
  /\ p_comment p' = p_comment p /\ p_commentOffset p' = p_commentOffset p
  /\ p_commentNewline p' = p_commentNewline p
  /\ p_impliedSemi p' = p_impliedSemi p /\ p_mode p' = p_mode p
  /\ p_lastTok p' = p_lastTok p /\ p_Config p' = p_Config p /\ p_fset p' = p_fset p.

Lemma sameCursor_refl (p : printer) : sameCursor p p.
Proof. repeat split. Qed.

Lemma sameCursor_trans (p1 p2 p3 : printer) :
  sameCursor p1 p2 -> sameCursor p2 p3 -> sameCursor p1 p3.
Proof.
  unfold sameCursor. intros H1 H2.
  decompose [and] H1; decompose [and] H2; repeat split; congruence.
Qed.

Lemma atLineBegin_cursor (pos : Position) (p : printer) : sameCursor p (atLineBegin pos p).
Proof.
  unfold atLineBegin, sameCursor.
  destruct (negb (Z.land (Mode (p_Config p)) SourcePos =? 0) && IsValid pos
            && (negb (Line (p_out p) =? Line pos)
                || negb (bytes_eqb (Filename (p_out p)) (Filename pos))));
    fields; repeat split.
Qed.

Lemma writeByte_cursor (ch : ascii) (n : Z) (p : printer) : sameCursor p (writeByte ch n p).
Proof.
  unfold writeByte.
  assert (H : sameCursor p (if Column (p_out p) =? 1 then atLineBegin (p_pos p) p else p)).
  { destruct (Column (p_out p) =? 1); [apply atLineBegin_cursor|apply sameCursor_refl]. }
  revert H. generalize (if Column (p_out p) =? 1 then atLineBegin (p_pos p) p else p).
  intros q Hq. unfold sameCursor in *.
  destruct (Ascii.eqb ch Ch.nl || Ascii.eqb ch Ch.ff); fields; exact Hq.
Qed.

Lemma atLineBegin_wsbuf (pos : Position) (p : printer) :
  p_wsbuf (atLineBegin pos p) = p_wsbuf p.
Proof.
  unfold atLineBegin.
  destruct (negb (Z.land (Mode (p_Config p)) SourcePos =? 0) && IsValid pos
            && (negb (Line (p_out p) =? Line pos)
                || negb (bytes_eqb (Filename (p_out p)) (Filename pos))));
    fields; reflexivity.
Qed.

Lemma writeByte_wsbuf (ch : ascii) (n : Z) (p : printer) :
  p_wsbuf (writeByte ch n p) = p_wsbuf p.
Proof.
  unfold writeByte.
  assert (H : p_wsbuf (if Column (p_out p) =? 1 then atLineBegin (p_pos p) p else p)
              = p_wsbuf p).
  { destruct (Column (p_out p) =? 1); [apply atLineBegin_wsbuf|reflexivity]. }
  revert H. generalize (if Column (p_out p) =? 1 then atLineBegin (p_pos p) p else p).
  intros q Hq.
  destruct (Ascii.eqb ch Ch.nl || Ascii.eqb ch Ch.ff); fields; exact Hq.
Qed.

(** *** The whitespace buffer never panics *)

Lemma internalError_ok (msg : string) (p : printer) : internalError msg p = Ok (tt, p).
Proof. reflexivity. Qed.

(** The indentation an unindent leaves: the decrement, or 0 when that
    would be negative. *)
Definition unindented (p : printer) : printer :=
  if int_sub (p_indent p) 1 <? 0 then set_indent 0 p
  else set_indent (int_sub (p_indent p) 1) p.

Lemma applyUnindent_ok (p : printer) : applyUnindent p = Ok (tt, unindented p).
Proof.
  unfold applyUnindent, unindented, bind, step, get. cbn.
  destruct (int_sub (p_indent p) 1 <? 0); reflexivity.
Qed.

(** [writeEntries], unfolded one entry. *)
Lemma writeEntries_cons (ch : whiteSpace) (r : list whiteSpace) (p : printer) :
  writeEntries (ch :: r) p =
  match ch with
  | ignore => writeEntries r p
  | indent => writeEntries r (set_indent (int_add (p_indent p) 1) p)
  | unindent => writeEntries r (unindented p)
  | newline | formfeed =>
      match r with
      | unindent :: r' => writeEntries (unindent :: formfeed :: r') p
      | _ => writeEntries r (writeByte (whiteSpace_byte ch) 1 p)
      end
  | _ => writeEntries r (writeByte (whiteSpace_byte ch) 1 p)
  end.
Proof.
  rewrite writeEntries_unfold_eq.
  destruct ch; try destruct r as [|[] r']; cbn [writeEntries_unfold];
    rewrite ?applyUnindent_ok; reflexivity.
Qed.

Lemma unindented_output (p : printer) : p_output (unindented p) = p_output p.
Proof. unfold unindented. destruct (_ <? _); reflexivity. Qed.

Lemma unindented_cursor (p : printer) : sameCursor p (unindented p).
Proof. unfold unindented. destruct (_ <? _); repeat split. Qed.

Lemma unindented_wsbuf (p : printer) : p_wsbuf (unindented p) = p_wsbuf p.
Proof. unfold unindented. destruct (_ <? _); reflexivity. Qed.

(** A step that keeps the cursor and the buffer and only appends to
    the output. *)
Definition quiet (p p' : printer) : Prop :=
  sameCursor p p' /\ p_wsbuf p' = p_wsbuf p
  /\ exists s, p_output p' = p_output p ++ s.

Lemma quiet_refl (p : printer) : quiet p p.
Proof.
  split; [apply sameCursor_refl|]. split; [reflexivity|].
  exists []. now rewrite app_nil_r.
Qed.

Lemma quiet_trans (p1 p2 p3 : printer) : quiet p1 p2 -> quiet p2 p3 -> quiet p1 p3.
Proof.
  intros (Hc1 & Hw1 & s1 & Hs1) (Hc2 & Hw2 & s2 & Hs2).
  split; [eapply sameCursor_trans; eassumption|]. split; [congruence|].
  exists (s1 ++ s2). rewrite Hs2, Hs1, app_assoc. reflexivity.
Qed.

Lemma quiet_writeByte (ch : ascii) (n : Z) (p : printer) : quiet p (writeByte ch n p).
Proof.
  split; [apply writeByte_cursor|]. split; [apply writeByte_wsbuf|].
  rewrite writeByte_output. eexists. reflexivity.
Qed.

Lemma quiet_unindented (p : printer) : quiet p (unindented p).
Proof.
  split; [apply unindented_cursor|]. split; [apply unindented_wsbuf|].
  rewrite unindented_output. exists []. now rewrite app_nil_r.
Qed.

Lemma quiet_set_indent (v : Z) (p : printer) : quiet p (set_indent v p).
Proof.
  split; [repeat split|]. split; [reflexivity|].
  exists []. cbn. now rewrite app_nil_r.
Qed.

(** With [debug] off no entry makes the loop panic: it ends, keeps the
    cursor and the buffer, and only appends to the output. *)
Lemma writeEntries_ok (l : list whiteSpace) (p : printer) :
  exists p', writeEntries l p = Ok (tt, p') /\ quiet p p'.
Proof.
  remember (entriesMeasure l) as k eqn:Hk.
  revert l p Hk. induction k as [k IH] using lt_wf_ind. intros l p ->.
  destruct l as [|ch r].
  - exists p. rewrite writeEntries_unfold_eq. split; [reflexivity|apply quiet_refl].
  - rewrite writeEntries_cons.
    assert (Hpop : forall q, quiet p q ->
              exists p', writeEntries r q = Ok (tt, p') /\ quiet p p').
    { intros q Hq.
      destruct (IH (entriesMeasure r)) with (l := r) (p := q) as (p' & He & Hq');
        [|reflexivity|].
      - unfold entriesMeasure. pose proof (swapPending_le r). cbn [length]. lia.
      - exists p'. split; [exact He|eapply quiet_trans; eassumption]. }
    assert (Hswap : forall r', r = unindent :: r' -> isLinebreak ch = true ->
                exists p', writeEntries (unindent :: formfeed :: r') p = Ok (tt, p')
                  /\ quiet p p').
    { intros r' -> Hch.
      apply (IH (entriesMeasure (unindent :: formfeed :: r'))); [|reflexivity].
      unfold entriesMeasure. cbn [length swapPending isLinebreak]. rewrite Hch. lia. }
    destruct ch.
    + apply Hpop, quiet_refl.
    + apply Hpop, quiet_writeByte.
    + apply Hpop, quiet_writeByte.
    + destruct r as [|[] r']; try apply Hpop, quiet_writeByte. now apply Hswap.
    + destruct r as [|[] r']; try apply Hpop, quiet_writeByte. now apply Hswap.
    + apply Hpop, quiet_set_indent.
    + apply Hpop, quiet_unindented.
Qed.

Lemma writeWhitespace_ok (n : nat) (p : printer) :
  (n <= length (p_wsbuf p))%nat ->
  exists p', writeWhitespace n p = Ok (tt, p')
    /\ sameCursor p p' /\ p_wsbuf p' = drop n (p_wsbuf p)
    /\ exists s, p_output p' = p_output p ++ s.
Proof.
  intros Hn. unfold writeWhitespace.
  destruct (Nat.ltb_spec (length (p_wsbuf p)) n) as [Hlt|_]; [lia|].
  destruct (writeEntries_ok (take n (p_wsbuf p)) p) as (p' & He & Hc & Hw & s & Hs).
  rewrite He. eexists. split; [reflexivity|].
  split; [exact Hc|]. split; [reflexivity|]. exists s. exact Hs.
Qed.

(** *** Calls that return *)

Lemma bind_Ok {A B} (m : M A) (k : A -> M B) (p : printer) (b : B) (p' : printer) :
  bind m k p = Ok (b, p') ->
  exists a p1, m p = Ok (a, p1) /\ k a p1 = Ok (b, p').
Proof.
  unfold bind. destruct (m p) as [[a p1]|msg]; [|discriminate].
  intros H. exists a, p1. split; [reflexivity|exact H].
Qed.

(** A method grows the output when a call that returns has only
    appended to it. *)
Definition grows {A} (m : M A) : Prop :=
  forall p a p', m p = Ok (a, p') -> exists s, p_output p' = p_output p ++ s.

Lemma grows_ret {A} (a : A) : grows (ret a).
Proof.
  intros p a' p' H. injection H as _ <-. exists []. now rewrite app_nil_r.
Qed.

Lemma grows_get : grows get.
Proof.
  intros p a' p' H. injection H as _ <-. exists []. now rewrite app_nil_r.
Qed.

Lemma grows_panic {A} (msg : string) : grows (@panic A msg).
Proof. intros p a p' H. discriminate H. Qed.

Lemma grows_internalError (msg : string) : grows (internalError msg).
Proof.
  intros p a p' H. injection H as _ <-. exists []. now rewrite app_nil_r.
Qed.

Lemma grows_step (f : printer -> printer) :
  (forall p, exists s, p_output (f p) = p_output p ++ s) -> grows (step f).
Proof. intros Hf p a p' H. injection H as _ <-. apply Hf. Qed.

Lemma grows_bind {A B} (m : M A) (k : A -> M B) :
  grows m -> (forall a, grows (k a)) -> grows (bind m k).
Proof.
  intros Hm Hk p b p' H.
  apply bind_Ok in H as (a & p1 & H1 & H2).
  destruct (Hm _ _ _ H1) as [s1 E1]. destruct (Hk _ _ _ _ H2) as [s2 E2].
  exists (s1 ++ s2). rewrite E2, E1, app_assoc. reflexivity.
Qed.

(** A bind that reads the state first. *)
Lemma grows_get_bind {B} (k : printer -> M B) :
  (forall q, grows (k q)) -> grows (bind get k).
Proof. intros Hk. apply grows_bind; [apply grows_get|exact Hk]. Qed.

Lemma same_output_grows (f : printer -> printer) :
  (forall p, p_output (f p) = p_output p) -> grows (step f).
Proof.
  intros Hf. apply grows_step. intros p. exists []. now rewrite Hf, app_nil_r.
Qed.

Lemma grows_writeByte (ch : ascii) (n : Z) : grows (step (writeByte ch n)).
Proof. apply grows_step. intros p. rewrite writeByte_output. eauto. Qed.

Lemma grows_writeWhitespace (n : nat) : grows (writeWhitespace n).
Proof.
  intros p a p' H. unfold writeWhitespace in H.
  destruct (length (p_wsbuf p) <? n)%nat; [discriminate|].
  destruct (writeEntries_ok (take n (p_wsbuf p)) p) as (q & He & _ & _ & s & Hs).
  rewrite He in H. injection H as _ <-. exists s. exact Hs.
Qed.

Lemma writeString_output (pos : Position) (s : bytes) (isLit : bool) (p : printer) :
  p_output (writeString pos s isLit p)
  = p_output p ++ lineBeginIf pos p
      ++ (if isLit then [Ch.Escape] else []) ++ s ++ (if isLit then [Ch.Escape] else []).
Proof.
  unfold writeString, lineBeginIf, debug.
  destruct (scanNewlines 0 s 0 0) as [nlines li].
  destruct (Column (p_out p) =? 1), (IsValid pos), isLit, (0 <? nlines); fields;
    rewrite ?atLineBegin_output, <- ?app_assoc, ?app_nil_r; reflexivity.
Qed.

Lemma grows_writeString (pos : Position) (s : bytes) (isLit : bool) :
  grows (step (writeString pos s isLit)).
Proof. apply grows_step. intros p. rewrite writeString_output. eauto. Qed.

Lemma grows_writeCommentPrefix (pos next : Position) (prev : option Comment)
    (comment : Comment) (tok : Token) :
  grows (writeCommentPrefix pos next prev comment tok).
Proof.
  unfold writeCommentPrefix. apply grows_get_bind. intros q.
  destruct (len (p_output q) =? 0); [apply grows_ret|].
  destruct (IsValid pos && negb (bytes_eqb (Filename pos) (Filename (p_last q))));
    [apply grows_writeByte|].
  destruct ((Line pos =? Line (p_last q)) && isNil prev).
  - destruct (scanSameLine 0 (p_wsbuf q)) as [[ws hasSep] j].
    apply grows_bind; [now apply same_output_grows|intros _].
    apply grows_bind; [apply grows_writeWhitespace|intros _].
    destruct (negb hasSep); [apply grows_writeByte|apply grows_ret].
  - destruct (scanOtherLine _ _ 0 (p_wsbuf q)) as [[ws dropped] j].
    apply grows_bind; [now apply same_output_grows|intros _].
    apply grows_bind; [apply grows_writeWhitespace|intros _].
    apply grows_get_bind. intros q'.
    match goal with |- grows (if ?c then _ else _) => destruct c end;
      [apply grows_writeByte|apply grows_ret].
Qed.

(** What [writeComment] writes for a comment whose text is [b :: t]: the
    bytes [prefix], [t] trimmed on the right and the suffix, between two
    escapes. *)
Definition commentText (prefix t : bytes) : bytes :=
  [Ch.Escape] ++ prefix ++ trimRight t
    ++ (if bytes_eqb prefix (bs "//") then [] else bs " */ ") ++ [Ch.Escape].

Lemma writeComment_output (c : Comment) (prefix : bytes) (b : ascii) (t : bytes)
    (p : printer) (u : unit) (p' : printer) :
  Text c = b :: t ->
  writeComment c prefix p = Ok (u, p') ->
  exists s, p_output p' = p_output p ++ s ++ commentText prefix t.
Proof.
  intros Ht H. destruct u. unfold writeComment in H. rewrite Ht in H.
  apply bind_Ok in H as (q & p1 & Hg & H). injection Hg as <- <-.
  apply bind_Ok in H as ([] & p2 & H1 & H).
  assert (E1 : p_output p2 = p_output p).
  { destruct (isNil _); injection H1 as <-; reflexivity. }
  apply bind_Ok in H as ([] & p3 & H2 & H). injection H2 as <-.
  assert (E3 : p_output p' = p_output (writeString (posFor p (Slash c))
              (prefix ++ trimRight t
                 ++ (if bytes_eqb prefix (bs "//") then [] else bs " */ ")) true p2)).
  { destruct (lineDirective _ _) as [[filename line]|].
    - cbv beta iota delta [bind step] in H. injection H as <-. reflexivity.
    - unfold ret in H. injection H as <-. reflexivity. }
  rewrite E3, writeString_output, E1.
  exists (lineBeginIf (posFor p (Slash c)) p2). unfold commentText.
  cbn [app]. rewrite <- !app_assoc. reflexivity.
Qed.

Lemma grows_writeComment (c : Comment) (prefix : bytes) : grows (writeComment c prefix).
Proof.
  intros p u p' H. destruct (Text c) as [|b t] eqn:Ht.
  - unfold writeComment in H.
    apply bind_Ok in H as (q & p1 & Hg & H). injection Hg as <- <-.
    apply bind_Ok in H as ([] & p2 & H1 & H). rewrite Ht in H. discriminate H.
  - destruct (writeComment_output _ _ _ _ _ _ _ Ht H) as [s Hs]. eauto.
Qed.

Lemma nextComment_loop_output (cs : list CommentGroup) (p : printer) :
  p_output (nextComment_loop cs p) = p_output p.
Proof.
  revert p. induction cs as [|c cs IH]; intros p; cbn [nextComment_loop]; [reflexivity|].
  destruct (List c) as [|c0 l]; [now rewrite IH|].
  assert (Hl : forall x q, p_output (snd (lineFor x q)) = p_output q).
  { intros x q. unfold lineFor. destruct (negb (x =? p_cachedPos q)); reflexivity. }
  assert (Hf : forall l line i q,
             p_output (snd (commentsHaveNewline_from line i l q)) = p_output q).
  { clear. intros l line. induction l as [|c l IH]; intros i q; cbn [commentsHaveNewline_from];
      [reflexivity|].
    unfold lineFor.
    destruct (0 <? i)%nat; [destruct (negb (Slash c =? p_cachedPos q))|]; cbn [fst snd];
      repeat match goal with |- context [if ?b then _ else _] => destruct b end;
      cbn [snd]; rewrite ?IH; reflexivity. }
  unfold commentsHaveNewline.
  destruct (lineFor (Slash c0) _) as [line q] eqn:El.
  destruct (commentsHaveNewline_from line 0 (c0 :: l) q) as [b q'] eqn:Ef.
  fields.
  change q' with (snd (b, q')). rewrite <- Ef, Hf.
  change q with (snd (line, q)). rewrite <- El, Hl. reflexivity.
Qed.

Lemma grows_nextComment : grows (step nextComment).
Proof. apply same_output_grows. intros p. apply nextComment_loop_output. Qed.

Lemma grows_writeCommentSuffix (needs : bool) : grows (writeCommentSuffix needs).
Proof.
  unfold writeCommentSuffix. apply grows_get_bind. intros q.
  destruct (scanSuffix needs false false (p_wsbuf q)) as [[[ws n] w] d].
  apply grows_bind; [now apply same_output_grows|intros _].
  apply grows_bind; [apply grows_writeWhitespace|intros _].
  destruct n; [|apply grows_ret].
  apply grows_bind; [apply grows_writeByte|intros _; apply grows_ret].
Qed.

(** One comment of a group, as [intersperseComments] writes it. *)
Definition writeOne (c : Comment) (next : Position) (tok : Token)
    (last : option Comment) : M unit :=
  match tok with
  | LBRACE => writeComment c (bs " /*")
  | _ =>
      p <- get ;;
      writeCommentPrefix (posFor p (Slash c)) next last c tok ;;
      writeComment c (bs "//")
  end.

Lemma writeGroup_cons (c : Comment) (l : list Comment) (next : Position) (tok : Token)
    (last : option Comment) :
  writeGroup (c :: l) next tok last
  = (writeOne c next tok last ;; writeGroup l next tok (Some c)).
Proof. reflexivity. Qed.

Lemma grows_writeOne (c : Comment) (next : Position) (tok : Token) (last : option Comment) :
  grows (writeOne c next tok last).
Proof.
  assert (H : grows (p <- get ;;
                     writeCommentPrefix (posFor p (Slash c)) next last c tok ;;
                     writeComment c (bs "//"))).
  { apply grows_get_bind. intros q.
    apply grows_bind; [apply grows_writeCommentPrefix|intros _; apply grows_writeComment]. }
  unfold writeOne. destruct tok; try exact H. apply grows_writeComment.
Qed.

Lemma grows_writeGroup (l : list Comment) (next : Position) (tok : Token)
    (last : option Comment) :
  grows (writeGroup l next tok last).
Proof.
  revert last. induction l as [|c l IH]; intros last.
  - apply grows_ret.
  - rewrite writeGroup_cons. apply grows_bind; [apply grows_writeOne|intros _; apply IH].
Qed.

Lemma grows_writeGroups (fuel : nat) (next : Position) (tok : Token)
    (last : option Comment) :
  grows (writeGroups fuel next tok last).
Proof.
  revert last. induction fuel as [|fuel IH]; intros last; cbn [writeGroups];
    apply grows_get_bind; intros q; destruct (commentBefore q next);
    try apply grows_ret; try apply grows_panic.
  destruct (p_comment q) as [g|]; [|apply grows_panic].
  apply grows_bind; [apply grows_writeGroup|intros last'].
  apply grows_bind; [apply grows_nextComment|intros _; apply IH].
Qed.

Lemma grows_intersperseComments (next : Position) (tok : Token) :
  grows (intersperseComments next tok).
Proof.
  unfold intersperseComments. apply grows_get_bind. intros q.
  apply grows_bind; [apply grows_writeGroups|intros [c|]].
  - apply grows_get_bind. intros q'. apply grows_writeCommentSuffix.
  - apply grows_bind; [apply grows_internalError|intros _; apply grows_ret].
Qed.

Lemma grows_flush (next : Position) (tok : Token) : grows (flush next tok).
Proof.
  unfold flush. apply grows_get_bind. intros q.
  destruct (commentBefore q next); [apply grows_intersperseComments|].
  apply grows_bind; [apply grows_writeWhitespace|intros _; apply grows_ret].
Qed.

(** *** Sample inputs *)

(** A file set of one file, a.igo, with lines of 100 bytes: the handle
    [x] is the offset. *)
Definition fset100 (x : Z) : Position :=
  {| Filename := bs "a.igo"; Offset := x; Line := x / 100 + 1; Column := x mod 100 + 1 |}.

Definition rawConfig : Config := {| Mode := RawFormat; Tabwidth := 8; Indent := 0 |}.

(** *** C5: an unindent below zero *)

(** C5, as the spec states it: an unindent that would make the
    indentation negative aborts the conversion with a diagnostic.  The
    printer starts with indentation 0; an unindent item followed by an
    identifier is printed without any abort. *)
Lemma C5_negative_indent_counterexample :
  ~ (exists msg,
       fprint rawConfig fset100 [] [A_whiteSpace unindent; A_Ident (bs "x")] = Panic msg)
  /\ fprint rawConfig fset100 [] [A_whiteSpace unindent; A_Ident (bs "x")] = Ok (bs "x").
Proof.
  split; [intros [msg H]; vm_compute in H; discriminate H|vm_compute; reflexivity].
Qed.

(** C5, amended: when applying an unindent item would drive the
    indentation counter below zero, the counter is reset to zero and the
    conversion goes on: the call returns, nothing is written, and
    nothing but the counter and the buffer changes.  (The diagnostic and
    the abort are compiled in only when the constant [debug] is set.) *)
Theorem C5_negative_indent_reset (p : printer) (rest : list whiteSpace) :
  int_sub (p_indent p) 1 < 0 ->
  p_wsbuf p = unindent :: rest ->
  writeWhitespace 1 p = Ok (tt, set_wsbuf rest (set_indent 0 p)).
Proof.
  intros Hneg Hws. unfold writeWhitespace. rewrite Hws. cbn [length Nat.ltb Nat.leb take drop].
  rewrite writeEntries_cons. simp writeEntries.
  unfold unindented. apply Z.ltb_lt in Hneg. rewrite Hneg. reflexivity.
Qed.

Lemma C5_negative_indent_reset_witness :
  writeWhitespace 1 (set_wsbuf [unindent; newline] (init rawConfig fset100))
  = Ok (tt, set_wsbuf [newline] (set_indent 0 (set_wsbuf [unindent; newline] (init rawConfig fset100)))).
Proof.
  apply (C5_negative_indent_reset
           (set_wsbuf [unindent; newline] (init rawConfig fset100)) [newline]).
  - vm_compute. reflexivity.
  - reflexivity.
Defined.

(** *** C6: the line break after a comment *)









(** *** The comments of a group, as they are written *)



(** *** C3: newlines between items *)

(** A printer with an implied semicolon pending, in line 1. *)
Definition afterIdent : printer := set_impliedSemi true (init rawConfig fset100).

(** C3, as the spec states it: the number of separators is the smaller
    of the line gap and 2.  With an implied semicolon pending none is
    inserted for a gap of 1, and after a newline written by [flush] one
    is inserted for a gap of 2; and two identifiers whose positions are
    two lines apart are printed with nothing between them. *)
Lemma C3_newline_count_counterexample :
  newlineCount (fset100 101) false afterIdent
    <> Z.min (Line (fset100 101) - Line (p_pos afterIdent)) 2
  /\ newlineCount (fset100 201) true (init rawConfig fset100)
    <> Z.min (Line (fset100 201) - Line (p_pos (init rawConfig fset100))) 2
  /\ fprint rawConfig fset100 [] [A_Pos 1; A_Ident (bs "a"); A_Pos 201; A_Ident (bs "x")]
     = Ok (bs "ax").
Proof. vm_compute. repeat split; discriminate. Qed.

Lemma nlimit_min (n : Z) : nlimit n = Z.min n 2.
Proof. unfold nlimit, maxNewlines. destruct (Z.ltb_spec 2 n); lia. Qed.

(** C3, amended: before an item, after pending comments and whitespace
    are flushed, the emitter inserts line breaks only when no implied
    semicolon is pending; their number is then the smaller of 2 and the
    gap between the line of the item and the current line of the
    AST-space position, if that is positive, and 1 instead of 2 when the
    flush wrote a newline already.  They are written as formfeeds if a
    formfeed was dropped before, as newlines otherwise, after the line
    beginning if the output stands in column 1. *)
Theorem C3_newlines_inserted (p : printer) (next : Position)
    (wroteNewline droppedFF semi : bool) :
  - 2 ^ 63 <= Line next - Line (p_pos p) < 2 ^ 63 ->
  newlineCount next wroteNewline p
  = (if p_impliedSemi p then 0
     else if wroteNewline && (2 <=? Line next - Line (p_pos p)) then 1
          else Z.max 0 (Z.min (Line next - Line (p_pos p)) 2))
  /\ 0 <= newlineCount next wroteNewline p <= maxNewlines
  /\ exists p',
       intersperseNewlines next wroteNewline droppedFF semi p
       = Ok (if 0 <? newlineCount next wroteNewline p then false else semi, p')
       /\ p_output p'
          = p_output p
              ++ (if 0 <? newlineCount next wroteNewline p
                  then lineBeginIf (p_pos p) p else [])
              ++ repeat (if droppedFF then Ch.ff else Ch.nl)
                   (Z.to_nat (newlineCount next wroteNewline p)).
Proof.
  intros Hgap.
  assert (Hcount : newlineCount next wroteNewline p
                   = (if p_impliedSemi p then 0
                      else if wroteNewline && (2 <=? Line next - Line (p_pos p)) then 1
                           else Z.max 0 (Z.min (Line next - Line (p_pos p)) 2))).
  { unfold newlineCount, int_sub. rewrite (wrap_small _ Hgap), nlimit_min.
    unfold maxNewlines.
    destruct (p_impliedSemi p); cbn [negb]; [reflexivity|].
    destruct wroteNewline; cbn [andb];
      repeat match goal with
             | |- context [Z.eqb ?a ?b] => destruct (Z.eqb_spec a b)
             | |- context [Z.leb ?a ?b] => destruct (Z.leb_spec a b)
             | |- context [Z.ltb ?a ?b] => destruct (Z.ltb_spec a b)
             end; lia. }
  split; [exact Hcount|]. split.
  { rewrite Hcount. unfold maxNewlines.
    destruct (p_impliedSemi p); [lia|].
    destruct (wroteNewline && (2 <=? Line next - Line (p_pos p))); lia. }
  unfold intersperseNewlines, bind, get.
  destruct (0 <? newlineCount next wroteNewline p) eqn:Hpos.
  - eexists. split; [reflexivity|]. rewrite writeByte_output. reflexivity.
  - eexists. split; [reflexivity|].
    apply Z.ltb_ge in Hpos.
    replace (Z.to_nat (newlineCount next wroteNewline p)) with 0%nat by lia.
    cbn [repeat]. now rewrite !app_nil_r.
Qed.

Lemma C3_newlines_inserted_witness :
  newlineCount (fset100 301) false (init rawConfig fset100) = 2
  /\ newlineCount (fset100 301) true (init rawConfig fset100) = 1.
Proof.
  assert (H : - 2 ^ 63 <= Line (fset100 301) - Line (p_pos (init rawConfig fset100)) < 2 ^ 63)
    by (vm_compute; split; [discriminate|reflexivity]).
  split.
  - exact (proj1 (C3_newlines_inserted (init rawConfig fset100) (fset100 301)
                    false false false H)).
  - exact (proj1 (C3_newlines_inserted (init rawConfig fset100) (fset100 301)
                    true false false H)).
Defined.

(** *** C8: line directives *)

(** The comment "//line foo.src:42" in column 1 of line 2. *)
Definition lineDirectiveComment : Comment :=
  {| Slash := 100; Text := bs "//line foo.src:42" |}.

(** C8 on that comment, written before a token that is no opening
    brace: the AST-space position is set to foo.src, line 42, column 1,
    as the claim says, but the text is written with a third slash, the
    prefix "//" standing for the first byte of the text only: what the
    output holds is an ordinary comment and no line directive. *)
Lemma C8_line_directive_written_with_three_slashes :
  exists p',
    writeComment lineDirectiveComment (bs "//") (init rawConfig fset100) = Ok (tt, p')
    /\ p_output p' = [Ch.Escape] ++ bs "///line foo.src:42" ++ [Ch.Escape]
    /\ Filename (p_pos p') = bs "foo.src" /\ Line (p_pos p') = 42 /\ Column (p_pos p') = 1
    /\ fprint rawConfig fset100 [ {| List := [lineDirectiveComment] |} ] []
       = Ok (bs "///line foo.src:42" ++ [Ch.nl]).
Proof.
  eexists. split; [vm_compute; reflexivity|].
  vm_compute. repeat split; reflexivity.
Qed.

(** *** C9: a line break before an unindent *)




(** *** C4: tokens that would combine *)

Lemma Token_String_not_empty (x : Token) : Token_String x <> [].
Proof. destruct x; discriminate. Qed.

(** [mayCombine], as a table. *)
Lemma mayCombine_table (prev : Token) (next : ascii) :
  mayCombine prev next = true <->
  (prev = INT /\ next = "."%char) \/ (prev = ADD /\ next = "+"%char)
  \/ (prev = SUB /\ next = "-"%char) \/ (prev = QUO /\ next = "*"%char)
  \/ (prev = LSS /\ (next = "-"%char \/ next = "<"%char))
  \/ (prev = AND /\ (next = "&"%char \/ next = "^"%char)).
Proof.
  unfold mayCombine. split.
  - destruct prev; try discriminate; rewrite ?orb_true_iff, ?Ascii.eqb_eq; tauto.
  - intros [[-> ->]|[[-> ->]|[[-> ->]|[[-> ->]|[[-> [-> | ->]]|[-> [-> | ->]]]]]]];
      reflexivity.
Qed.

Lemma atLineBegin_fields (pos : Position) (p : printer) :
  Line (p_pos (atLineBegin pos p)) = Line (p_pos p)
  /\ Column (p_out (atLineBegin pos p))
     = int_add (Column (p_out p)) (int_add (Indent (p_Config p)) (p_indent p)).
Proof.
  unfold atLineBegin.
  destruct (negb (Z.land (Mode (p_Config p)) SourcePos =? 0) && IsValid pos
            && (negb (Line (p_out p) =? Line pos)
                || negb (bytes_eqb (Filename (p_out p)) (Filename pos))));
    fields; split; reflexivity.
Qed.

Lemma writeString_lastTok (pos : Position) (s : bytes) (isLit : bool) (p : printer) :
  p_lastTok (writeString pos s isLit p) = p_lastTok p.
Proof.
  unfold writeString, debug.
  assert (H : p_lastTok (if Column (p_out p) =? 1 then atLineBegin pos p else p)
              = p_lastTok p).
  { destruct (Column (p_out p) =? 1); [apply atLineBegin_cursor|reflexivity]. }
  revert H. generalize (if Column (p_out p) =? 1 then atLineBegin pos p else p).
  intros q Hq.
  destruct (scanNewlines 0 s 0 0) as [nlines li].
  destruct (IsValid pos), isLit, (0 <? nlines); fields; exact Hq.
Qed.

(** After a blank is written, the AST-space position is in the same
    line and the output is past column 1. *)
Lemma writeByte_blank_fields (p : printer) :
  1 <= Column (p_out p) < 2 ^ 62 ->
  0 <= Indent (p_Config p) + p_indent p < 2 ^ 62 ->
  Line (p_pos (writeByte Ch.sp 1 p)) = Line (p_pos p)
  /\ (Column (p_out (writeByte Ch.sp 1 p)) =? 1) = false.
Proof.
  intros Hcol Hind. unfold writeByte.
  assert (H : Line (p_pos (if Column (p_out p) =? 1 then atLineBegin (p_pos p) p else p))
              = Line (p_pos p)
              /\ 1 <= Column (p_out (if Column (p_out p) =? 1
                                     then atLineBegin (p_pos p) p else p)) < 2 ^ 63 - 1).
  { destruct (Z.eqb_spec (Column (p_out p)) 1) as [E|_]; [|lia].
    destruct (atLineBegin_fields (p_pos p) p) as [-> ->]. split; [reflexivity|].
    unfold int_add. rewrite (wrap_small (_ + p_indent p)) by lia.
    rewrite wrap_small by lia. lia. }
  revert H. generalize (if Column (p_out p) =? 1 then atLineBegin (p_pos p) p else p).
  intros q [Hline Hq].
  change (Ascii.eqb Ch.sp Ch.nl || Ascii.eqb Ch.sp Ch.ff) with false. fields.
  split; [exact Hline|].
  apply Z.eqb_neq. unfold int_add. rewrite wrap_small by lia. lia.
Qed.

(** What [print] does with a text when the buffer holds the blank that
    keeps two tokens apart and no comment is to be interleaved: the
    blank is written, then the text. *)
Lemma printData_after_blank (data : bytes) (semi : bool) (q : printer) :
  commentBefore q (p_pos q) = false ->
  p_wsbuf q = [blank] ->
  1 <= Column (p_out q) < 2 ^ 62 ->
  0 <= Indent (p_Config q) + p_indent q < 2 ^ 62 ->
  exists q',
    printData data false semi q = Ok (tt, q')
    /\ p_output q' = p_output q ++ lineBeginIf (p_pos q) q ++ [Ch.sp] ++ data.
Proof.
  intros Hcb Hws Hcol Hind.
  destruct (writeByte_blank_fields q Hcol Hind) as [Hline Hcol1].
  unfold printData, bind, get. unfold flush, bind, get. rewrite Hcb, Hws.
  unfold writeWhitespace. rewrite Hws. cbn [length Nat.ltb Nat.leb take drop].
  rewrite writeEntries_cons, (writeEntries_unfold_eq []).
  cbn [writeEntries_unfold whiteSpace_byte ret].
  set (q1 := set_wsbuf [] (writeByte Ch.sp 1 q)).
  assert (Hcount : newlineCount (p_pos q) false q1 = 0).
  { unfold newlineCount. subst q1. fields. rewrite Hline.
    unfold int_sub. rewrite Z.sub_diag.
    destruct (negb (p_impliedSemi (writeByte Ch.sp 1 q))); reflexivity. }
  unfold intersperseNewlines, bind, get. rewrite Hcount. cbn [Z.ltb Z.compare ret step].
  eexists. split; [reflexivity|].
  fields. rewrite writeString_output. unfold lineBeginIf at 1. subst q1. fields.
  rewrite Hcol1, writeByte_output. change (Z.to_nat 1) with 1%nat.
  cbn [app repeat]. rewrite <- !app_assoc, app_nil_r. reflexivity.
Qed.

(** The printer after "+" is printed in line 1 of a source whose
    comment "#c" follows on that line. *)
Definition plusThenComment : printer :=
  let p := nextComment
             (set_comments [ {| List := [ {| Slash := 3; Text := bs "#c" |} ] |} ]
                (init rawConfig fset100)) in
  match print [A_Pos 1; A_Token ADD; A_Pos 101] p with
  | Ok (_, p) => p
  | Panic _ => p
  end.

(** C4, as the spec states it, with a comment between the two tokens:
    the last printed token is ADD and the next token begins with "+",
    but what is written between them is a tab, the comment and a
    newline; the output holds no blank at all. *)
Lemma C4_blank_dropped_before_comment_counterexample :
  p_lastTok plusThenComment = ADD
  /\ mayCombine (p_lastTok plusThenComment) "+"%char = true
  /\ exists p',
       print1 (A_Token ADD) plusThenComment = Ok (tt, p')
       /\ p_output p'
          = bs "+" ++ [Ch.ht; Ch.Escape] ++ bs "//c" ++ [Ch.Escape; Ch.nl] ++ bs "+"
       /\ ~ In Ch.sp (p_output p').
Proof.
  split; [vm_compute; reflexivity|]. split; [vm_compute; reflexivity|].
  eexists. split; [vm_compute; reflexivity|].
  split; [vm_compute; reflexivity|].
  vm_compute. intuition discriminate.
Qed.

(** C4, amended: whenever the last printed token is one of INT, ADD, SUB,
    QUO, LSS, AND and the first byte of the next token is respectively
    ".", "+", "-", "*", "-" or "<", "&" or "^", the emitter puts a blank
    into the whitespace buffer, and when no comment is to be interleaved
    before the next token it writes that blank between the two tokens:
    the output grows by the blank and the token, after the line
    beginning if it stands in column 1. *)
Theorem C4_blank_between_tokens (p : printer) (x : Token) :
  mayCombine (p_lastTok p) (hd "000"%char (Token_String x)) = true ->
  commentBefore p (p_pos p) = false ->
  1 <= Column (p_out p) < 2 ^ 62 ->
  0 <= Indent (p_Config p) + p_indent p < 2 ^ 62 ->
  exists p',
    print1 (A_Token x) p = Ok (tt, p')
    /\ p_output p' = p_output p ++ lineBeginIf (p_pos p) p ++ bs " " ++ Token_String x
    /\ p_lastTok p' = x.
Proof.
  intros Hmc Hcb Hcol Hind.
  set (q0 := set_lastTok x (set_wsbuf [blank] p)).
  assert (Hcb0 : commentBefore q0 (p_pos q0) = false) by exact Hcb.
  destruct (printData_after_blank (Token_String x) (impliesSemi x) q0 Hcb0 eq_refl Hcol Hind)
    as (q' & Hq' & Hout).
  exists q'. split; [|split].
  - unfold print1. destruct (Token_String x) as [|s0 s'] eqn:Hs;
      [destruct (Token_String_not_empty x Hs)|].
    cbn [hd] in Hmc. unfold bind at 1. unfold get at 1. rewrite Hmc.
    destruct (negb (length (p_wsbuf p) =? 0)%nat); exact Hq'.
  - exact Hout.
  - unfold printData, bind, get in Hq'.
    destruct (flush _ _ _) as [[[w d] q1]|] eqn:Hf; [|discriminate Hq'].
    destruct (intersperseNewlines _ _ _ _ _) as [[s q2]|] eqn:Hn; [|discriminate Hq'].
    injection Hq' as <-.
    assert (Hl1 : p_lastTok q1 = x).
    { unfold flush, bind, get in Hf. rewrite Hcb0 in Hf.
      destruct (writeWhitespace_ok (length (p_wsbuf q0)) q0) as (q & Hq & Hc & _);
        [reflexivity|].
      rewrite Hq in Hf. injection Hf as _ _ <-. apply Hc. }
    assert (Hl2 : p_lastTok q2 = x).
    { unfold intersperseNewlines, bind, get in Hn.
      destruct (0 <? newlineCount _ _ _); injection Hn as _ <-; [|exact Hl1].
      rewrite <- Hl1. apply writeByte_cursor. }
    fields. rewrite writeString_lastTok. exact Hl2.
Qed.

(** The printer as [printNode] leaves it for a node without comments. *)
Definition ready : printer := nextComment (init rawConfig fset100).

(** INT(1) followed by "." is printed as "1 .". *)
Lemma C4_blank_between_tokens_witness :
  exists p1 p2,
    print [A_BasicLit INT (bs "1")] ready = Ok (tt, p1)
    /\ print1 (A_Token PERIOD) p1 = Ok (tt, p2)
    /\ p_output p2 = [Ch.Escape] ++ bs "1" ++ [Ch.Escape] ++ bs " .".
Proof.
  assert (H1 : exists p1, print [A_BasicLit INT (bs "1")] ready = Ok (tt, p1)
                 /\ p_output p1 = [Ch.Escape] ++ bs "1" ++ [Ch.Escape]
                 /\ mayCombine (p_lastTok p1) (hd "000"%char (Token_String PERIOD)) = true
                 /\ commentBefore p1 (p_pos p1) = false
                 /\ 1 <= Column (p_out p1) < 2 ^ 62
                 /\ 0 <= Indent (p_Config p1) + p_indent p1 < 2 ^ 62
                 /\ lineBeginIf (p_pos p1) p1 = []).
  { eexists. split; [vm_compute; reflexivity|].
    vm_compute. repeat split; try reflexivity; intros H; discriminate H. }
  destruct H1 as (p1 & Hp1 & Hout & Hmc & Hcb & Hcol & Hind & Hlb).
  destruct (C4_blank_between_tokens p1 PERIOD Hmc Hcb Hcol Hind) as (p2 & Hp2 & Hout2 & _).
  exists p1, p2. split; [exact Hp1|]. split; [exact Hp2|].
  rewrite Hout2, Hout, Hlb. reflexivity.
Defined.

(** *** C2: the trimmer *)

(** Blanks and tabs, the white space the trimmer holds back. *)
Definition isBlankTab (b : ascii) : bool := Ascii.eqb b Ch.ht || Ascii.eqb b Ch.sp.

(** No line of [s] ends in a blank or a tab: none of them stands before
    a newline or at the end of [s]. *)
Fixpoint noTrailingBlank (s : bytes) : bool :=
  match s with
  | [] => true
  | b :: r =>
      (negb (isBlankTab b)
       || match r with
          | [] => false
          | c :: _ => negb (Ascii.eqb c Ch.nl)
          end)
      && noTrailingBlank r
  end.

(** The bytes the trimmer treats as they stand: no blank, tab, vertical
    tab, newline, formfeed or escape. *)
Definition isTextByte (b : ascii) : bool :=
  negb (isBlankTab b || Ascii.eqb b Ch.vt || Ascii.eqb b Ch.nl || Ascii.eqb b Ch.ff
        || Ascii.eqb b Ch.Escape).

Definition noEscape (s : bytes) : bool := forallb (fun b => negb (Ascii.eqb b Ch.Escape)) s.

(** No formfeed and no vertical tab. *)
Definition noFFVT (s : bytes) : bool :=
  forallb (fun b => negb (Ascii.eqb b Ch.ff || Ascii.eqb b Ch.vt)) s.

(** The number of line breaks: newlines and formfeeds. *)
Fixpoint countBreaks (s : bytes) : nat :=
  match s with
  | [] => 0
  | b :: r => (if Ascii.eqb b Ch.nl || Ascii.eqb b Ch.ff then 1 else 0) + countBreaks r
  end%nat.

(** A text that can take a further byte: it is well trimmed and does not
    end in a blank or tab itself. *)
Definition good (s : bytes) : Prop := noTrailingBlank s = true /\ noFFVT s = true.

Lemma noTrailingBlank_snoc (s : bytes) (c : ascii) :
  noTrailingBlank s = true -> isBlankTab c = false ->
  noTrailingBlank (s ++ [c]) = true.
Proof.
  intros Hs Hc. induction s as [|b r IH]; cbn [app noTrailingBlank].
  - rewrite Hc. reflexivity.
  - cbn [noTrailingBlank] in Hs. apply andb_true_iff in Hs as [Hb Hr].
    rewrite (IH Hr), andb_true_r.
    destruct r as [|c' r']; cbn [app].
    + cbn in Hb. rewrite orb_false_r in Hb. rewrite Hb. reflexivity.
    + exact Hb.
Qed.

Lemma noTrailingBlank_blanks_snoc (s sp : bytes) (c : ascii) :
  noTrailingBlank s = true -> forallb isBlankTab sp = true ->
  isBlankTab c = false -> Ascii.eqb c Ch.nl = false ->
  noTrailingBlank (s ++ sp ++ [c]) = true.
Proof.
  intros Hs Hsp Hc Hnl.
  assert (Htail : noTrailingBlank (sp ++ [c]) = true
                  /\ match sp ++ [c] with
                     | [] => False
                     | x :: _ => Ascii.eqb x Ch.nl = false
                     end).
  { induction sp as [|x sp' IH]; cbn [app noTrailingBlank].
    - rewrite Hc. split; [reflexivity|exact Hnl].
    - cbn [forallb] in Hsp. apply andb_true_iff in Hsp as [Hx Hsp'].
      destruct (IH Hsp') as [IH1 IH2]. rewrite IH1, andb_true_r. split.
      + destruct (sp' ++ [c]) as [|y ?]; [contradiction|]. rewrite IH2. apply orb_true_r.
      + unfold isBlankTab in Hx. destruct (Ascii.eqb_spec x Ch.nl) as [->|]; [discriminate Hx|reflexivity]. }
  destruct Htail as [Ht1 Ht2].
  induction s as [|b r IH]; cbn [app noTrailingBlank]; [exact Ht1|].
  cbn [noTrailingBlank] in Hs. apply andb_true_iff in Hs as [Hb Hr].
  rewrite (IH Hr), andb_true_r.
  destruct r as [|c' r']; cbn [app].
  - cbn in Hb. rewrite orb_false_r in Hb. rewrite Hb. reflexivity.
  - exact Hb.
Qed.

Lemma noFFVT_app (a b : bytes) : noFFVT (a ++ b) = noFFVT a && noFFVT b.
Proof. apply forallb_app. Qed.

Lemma countBreaks_app (a b : bytes) : countBreaks (a ++ b) = (countBreaks a + countBreaks b)%nat.
Proof. induction a as [|x a IH]; cbn [app countBreaks]; [reflexivity|]. rewrite IH. lia. Qed.

Lemma blanks_facts (sp : bytes) :
  forallb isBlankTab sp = true -> noFFVT sp = true /\ countBreaks sp = 0%nat.
Proof.
  induction sp as [|x sp IH]; [split; reflexivity|].
  cbn [forallb]. intros H. apply andb_true_iff in H as [Hx Hsp].
  destruct (IH Hsp) as [IH1 IH2].
  unfold isBlankTab in Hx. apply orb_true_iff in Hx.
  rewrite !Ascii.eqb_eq in Hx.
  destruct Hx as [-> | ->]; split; cbn; auto.
Qed.

Lemma slice_snoc (pre rest : bytes) (b : ascii) (m : nat) :
  (m <= length pre)%nat ->
  slice (pre ++ b :: rest) m (S (length pre)) = slice (pre ++ b :: rest) m (length pre) ++ [b].
Proof.
  intros Hm. unfold slice.
  rewrite !drop_app_le by exact Hm.
  assert (E : length (drop m pre) = (length pre - m)%nat) by apply length_drop.
  replace (S (length pre) - m)%nat with (length (drop m pre) + 1)%nat by lia.
  replace (length pre - m)%nat with (length (drop m pre)) by lia.
  rewrite take_app_add, take_app_length. reflexivity.
Qed.

Lemma slice_empty (data : bytes) (n : nat) : slice data n n = [].
Proof. unfold slice. rewrite Nat.sub_diag. reflexivity. Qed.

(** What the trimmer has written and what it still holds as text. *)
Definition written (data : bytes) (m n : nat) (t : trimmer) : bytes :=
  t_output t ++ match t_state t with inText => slice data m n | _ => [] end.

(** The invariant of the loop of [Write] on input without escapes,
    started with an empty output: the trimmer is not inside an escape,
    [space] holds blanks and tabs only, and what is written together with
    the text held back is well trimmed, free of formfeeds and vertical
    tabs, and has one newline for each line break read. *)
Definition trimInv (data : bytes) (m n : nat) (t : trimmer) : Prop :=
  t_state t <> inEscape
  /\ forallb isBlankTab (t_space t) = true
  /\ (m <= n)%nat
  /\ good (written data m n t)
  /\ countBreaks (written data m n t) = countBreaks (take n data).

(** One pass keeps the invariant when what is written and held grows by
    [X], a text that keeps it well trimmed and has a newline if the byte
    read is a line break. *)
Lemma trimInv_grow (pre rest : bytes) (b0 : ascii) (m m' : nat) (t t' : trimmer) (X : bytes) :
  trimInv (pre ++ b0 :: rest) m (length pre) t ->
  t_state t' <> inEscape ->
  forallb isBlankTab (t_space t') = true ->
  (m' <= S (length pre))%nat ->
  written (pre ++ b0 :: rest) m' (S (length pre)) t'
  = written (pre ++ b0 :: rest) m (length pre) t ++ X ->
  noTrailingBlank (written (pre ++ b0 :: rest) m (length pre) t ++ X) = true ->
  noFFVT X = true ->
  countBreaks X = countBreaks [b0] ->
  trimInv (pre ++ b0 :: rest) m' (S (length pre)) t'.
Proof.
  intros (Hst & Hsp & Hm & [Hg1 Hg2] & Hcount) Hst' Hsp' Hm' HW HT HF HC.
  assert (Htake : take (S (length pre)) (pre ++ b0 :: rest)
                  = take (length pre) (pre ++ b0 :: rest) ++ [b0]).
  { rewrite take_app_length.
    replace (S (length pre)) with (length pre + 1)%nat by lia.
    rewrite take_app_add. reflexivity. }
  unfold trimInv, good. rewrite HW.
  split; [exact Hst'|]. split; [exact Hsp'|]. split; [exact Hm'|].
  split; [split; [exact HT|rewrite noFFVT_app, Hg2, HF; reflexivity]|].
  rewrite Htake, !countBreaks_app, Hcount, HC. reflexivity.
Qed.

Lemma Write_step_inv (pre rest : bytes) (b0 : ascii) (m : nat) (t : trimmer) :
  Ascii.eqb b0 Ch.Escape = false ->
  trimInv (pre ++ b0 :: rest) m (length pre) t ->
  let '(t', m') := Write_step (pre ++ b0 :: rest) (length pre) b0 m t in
  trimInv (pre ++ b0 :: rest) m' (S (length pre)) t'.
Proof.
  intros Hesc Hinv.
  pose proof Hinv as (Hst & Hsp & Hm & [Hg1 Hg2] & Hcount).
  assert (Hsnoc : slice (pre ++ b0 :: rest) m (S (length pre))
                  = slice (pre ++ b0 :: rest) m (length pre) ++ [b0])
    by (apply slice_snoc; exact Hm).
  (* the byte as the trimmer reads it *)
  set (b := if Ascii.eqb b0 Ch.vt then Ch.ht else b0).
  assert (Hblank : isBlankTab b = true ->
            countBreaks [b0] = 0%nat /\ forallb isBlankTab [b] = true).
  { intros Hb. split; [|cbn [forallb]; rewrite Hb; reflexivity].
    subst b. destruct (Ascii.eqb_spec b0 Ch.vt) as [->|_]; [reflexivity|].
    unfold isBlankTab in Hb. apply orb_true_iff in Hb. rewrite !Ascii.eqb_eq in Hb.
    destruct Hb as [-> | ->]; reflexivity. }
  assert (Hbreak : isBlankTab b = false -> Ascii.eqb b Ch.nl || Ascii.eqb b Ch.ff = true ->
            countBreaks [b0] = 1%nat).
  { intros _ Hb. subst b. destruct (Ascii.eqb_spec b0 Ch.vt) as [->|_]; [discriminate Hb|].
    cbn [countBreaks]. rewrite Hb. reflexivity. }
  assert (Htext : isBlankTab b = false -> Ascii.eqb b Ch.nl || Ascii.eqb b Ch.ff = false ->
            b = b0 /\ countBreaks [b0] = 0%nat /\ noFFVT [b0] = true
            /\ isBlankTab b0 = false /\ Ascii.eqb b0 Ch.nl = false).
  { intros Hb1 Hb2. subst b. destruct (Ascii.eqb_spec b0 Ch.vt) as [->|Hvt]; [discriminate Hb1|].
    apply orb_false_iff in Hb2 as [Hnl Hff].
    split; [reflexivity|]. cbn [countBreaks noFFVT forallb]. rewrite Hnl, Hff.
    destruct (Ascii.eqb_spec b0 Ch.vt); [contradiction|]. auto. }
  assert (Hescb : Ascii.eqb b Ch.Escape = false).
  { subst b. destruct (Ascii.eqb b0 Ch.vt); [reflexivity|exact Hesc]. }
  unfold Write_step. fold b.
  change (Ascii.eqb b Ch.ht || Ascii.eqb b Ch.sp) with (isBlankTab b).
  destruct (isBlankTab b) eqn:E1.
  - (* a blank or a tab is held back *)
    destruct (Hblank eq_refl) as [Hc Hb].
    destruct (t_state t) eqn:Est; [|contradiction|].
    + apply (trimInv_grow pre rest b0 m m t _ []).
      * exact Hinv.
      * cbn [t_addSpace t_state]. rewrite Est. discriminate.
      * cbn [t_addSpace t_space]. rewrite forallb_app, Hsp, Hb. reflexivity.
      * lia.
      * unfold written. cbn [t_addSpace t_state t_output]. rewrite Est, !app_nil_r. reflexivity.
      * rewrite app_nil_r. exact Hg1.
      * reflexivity.
      * rewrite Hc. reflexivity.
    + apply (trimInv_grow pre rest b0 m m t _ []).
      * exact Hinv.
      * cbn. discriminate.
      * cbn [t_addSpace resetSpace t_space app]. exact Hb.
      * lia.
      * unfold written. cbn [t_addSpace resetSpace t_write t_state t_output].
        rewrite Est, !app_nil_r. reflexivity.
      * rewrite app_nil_r. exact Hg1.
      * reflexivity.
      * rewrite Hc. reflexivity.
  - destruct (Ascii.eqb b Ch.nl || Ascii.eqb b Ch.ff) eqn:E2.
    + (* a line break is written as a newline *)
      pose proof (Hbreak eq_refl eq_refl) as Hc.
      destruct (t_state t) eqn:Est; [|contradiction|].
      * apply (trimInv_grow pre rest b0 m m t _ aNewline).
        -- exact Hinv.
        -- cbn. discriminate.
        -- reflexivity.
        -- lia.
        -- unfold written. cbn [resetSpace t_write t_state t_output].
           rewrite Est, !app_nil_r. reflexivity.
        -- apply noTrailingBlank_snoc; [exact Hg1|reflexivity].
        -- reflexivity.
        -- rewrite Hc. reflexivity.
      * apply (trimInv_grow pre rest b0 m m t _ aNewline).
        -- exact Hinv.
        -- cbn. discriminate.
        -- reflexivity.
        -- lia.
        -- unfold written. cbn [resetSpace t_write t_state t_output].
           rewrite Est, !app_nil_r. reflexivity.
        -- apply noTrailingBlank_snoc; [exact Hg1|reflexivity].
        -- reflexivity.
        -- rewrite Hc. reflexivity.
    + (* a byte of text *)
      destruct (Htext eq_refl eq_refl) as (Eb & Hc & Hfv & Hnb & Hnn).
      rewrite Hescb.
      destruct (t_state t) eqn:Est; [|contradiction|].
      * apply (trimInv_grow pre rest b0 m (length pre) t _ (t_space t ++ [b0])).
        -- exact Hinv.
        -- cbn. discriminate.
        -- exact Hsp.
        -- lia.
        -- unfold written. cbn [t_setState t_write t_state t_output].
           rewrite Est, app_nil_r, slice_snoc, slice_empty by lia.
           rewrite <- app_assoc. reflexivity.
        -- unfold written in *. rewrite Est, app_nil_r in *.
           apply noTrailingBlank_blanks_snoc; assumption.
        -- destruct (blanks_facts _ Hsp) as [Hs1 _]. rewrite noFFVT_app, Hs1, Hfv. reflexivity.
        -- destruct (blanks_facts _ Hsp) as [_ Hs2]. rewrite countBreaks_app, Hs2. reflexivity.
      * apply (trimInv_grow pre rest b0 m m t _ [b0]).
        -- exact Hinv.
        -- rewrite Est. discriminate.
        -- exact Hsp.
        -- lia.
        -- unfold written. rewrite Est, Hsnoc, app_assoc. reflexivity.
        -- apply noTrailingBlank_snoc; assumption.
        -- exact Hfv.
        -- reflexivity.
Qed.

Lemma Write_loop_inv (rest pre : bytes) (m : nat) (t : trimmer) :
  noEscape rest = true ->
  trimInv (pre ++ rest) m (length pre) t ->
  let '(t', m') := Write_loop (pre ++ rest) rest (length pre) m t in
  trimInv (pre ++ rest) m' (length (pre ++ rest)) t'.
Proof.
  revert pre m t. induction rest as [|b0 rest IH]; intros pre m t Hne Hinv.
  - cbn [Write_loop]. rewrite app_nil_r in *. exact Hinv.
  - cbn [Write_loop]. cbn [noEscape forallb] in Hne.
    apply andb_true_iff in Hne as [Hb Hrest]. apply negb_true_iff in Hb.
    pose proof (Write_step_inv pre rest b0 m t Hb Hinv) as Hstep.
    destruct (Write_step (pre ++ b0 :: rest) (length pre) b0 m t) as [t1 m1].
    specialize (IH (pre ++ [b0]) m1 t1 Hrest).
    rewrite <- app_assoc in IH. cbn [app] in IH.
    rewrite length_app in IH. cbn [length] in IH. rewrite Nat.add_1_r in IH.
    apply IH. exact Hstep.
Qed.







(** *** The indentation the whitespace buffer leaves *)

(** The indentation after the entries [l], from the indentation [i]: an
    indent adds one, an unindent takes one away and stops at 0; no other
    entry counts. *)
Definition indentAfter (i : Z) (l : list whiteSpace) : Z :=
  fold_left (fun i ch =>
               match ch with
               | indent => int_add i 1
               | unindent => if int_sub i 1 <? 0 then 0 else int_sub i 1
               | _ => i
               end) l i.

Lemma atLineBegin_indent (pos : Position) (p : printer) :
  p_indent (atLineBegin pos p) = p_indent p.
Proof.
  unfold atLineBegin.
  destruct (negb (Z.land (Mode (p_Config p)) SourcePos =? 0) && IsValid pos
            && (negb (Line (p_out p) =? Line pos)
                || negb (bytes_eqb (Filename (p_out p)) (Filename pos))));
    fields; reflexivity.
Qed.

Lemma writeByte_indent (ch : ascii) (n : Z) (p : printer) :
  p_indent (writeByte ch n p) = p_indent p.
Proof.
  unfold writeByte.
  assert (H : p_indent (if Column (p_out p) =? 1 then atLineBegin (p_pos p) p else p)
              = p_indent p).
  { destruct (Column (p_out p) =? 1); [apply atLineBegin_indent|reflexivity]. }
  revert H. generalize (if Column (p_out p) =? 1 then atLineBegin (p_pos p) p else p).
  intros q Hq.
  destruct (Ascii.eqb ch Ch.nl || Ascii.eqb ch Ch.ff); fields; exact Hq.
Qed.

Lemma unindented_indent (p : printer) :
  p_indent (unindented p) = if int_sub (p_indent p) 1 <? 0 then 0 else int_sub (p_indent p) 1.
Proof. unfold unindented. destruct (_ <? _); reflexivity. Qed.

Lemma writeEntries_indent (l : list whiteSpace) (p p' : printer) :
  writeEntries l p = Ok (tt, p') -> p_indent p' = indentAfter (p_indent p) l.
Proof.
  remember (entriesMeasure l) as k eqn:Hk.
  revert l p Hk. induction k as [k IH] using lt_wf_ind. intros l p -> He.
  destruct l as [|ch r].
  - rewrite writeEntries_unfold_eq in He. cbn in He. now inversion He.
  - rewrite writeEntries_cons in He.
    assert (Hpop : forall q, writeEntries r q = Ok (tt, p') ->
              p_indent p' = indentAfter (p_indent q) r).
    { intros q Hq. apply (IH (entriesMeasure r)) with (l := r) (p := q);
        [|reflexivity|exact Hq].
      unfold entriesMeasure. pose proof (swapPending_le r). cbn [length]. lia. }
    assert (Hswap : forall r', r = unindent :: r' -> isLinebreak ch = true ->
                writeEntries (unindent :: formfeed :: r') p = Ok (tt, p') ->
                p_indent p' = indentAfter (p_indent p) (unindent :: formfeed :: r')).
    { intros r' -> Hch Hq.
      apply (IH (entriesMeasure (unindent :: formfeed :: r'))); [|reflexivity|exact Hq].
      unfold entriesMeasure. cbn [length swapPending isLinebreak]. rewrite Hch. lia. }
    unfold indentAfter in *. cbn [fold_left].
    destruct ch.
    + now apply Hpop.
    + rewrite (Hpop _ He), writeByte_indent. reflexivity.
    + rewrite (Hpop _ He), writeByte_indent. reflexivity.
    + destruct r as [|[] r']; try (rewrite (Hpop _ He), writeByte_indent; reflexivity).
      rewrite (Hswap r' eq_refl eq_refl He). reflexivity.
    + destruct r as [|[] r']; try (rewrite (Hpop _ He), writeByte_indent; reflexivity).
      rewrite (Hswap r' eq_refl eq_refl He). reflexivity.
    + rewrite (Hpop _ He). reflexivity.
    + rewrite (Hpop _ He), unindented_indent. reflexivity.
Qed.

Lemma indentAfter_range (l : list whiteSpace) (i : Z) :
  0 <= i -> i + len l < 2 ^ 63 ->
  0 <= indentAfter i l <= i + len l.
Proof.
  unfold indentAfter, len. revert i. induction l as [|ch l IH]; intros i Hi Hr; cbn [fold_left length] in *.
  - lia.
  - rewrite Nat2Z.inj_succ in *.
    assert (H63 : 0 < 2 ^ 63) by reflexivity.
    assert (Hadd : int_add i 1 = i + 1) by (unfold int_add; apply wrap_small; lia).
    assert (Hsub : int_sub i 1 = i - 1) by (unfold int_sub; apply wrap_small; lia).
    destruct ch; try (specialize (IH i Hi); lia).
    + rewrite Hadd. specialize (IH (i + 1)). lia.
    + rewrite Hsub. destruct (Z.ltb_spec (i - 1) 0).
      * specialize (IH 0). lia.
      * specialize (IH (i - 1)). lia.
Qed.

(** X2: [writeWhitespace(n)] with [n] within the buffer always returns
    (also when the unindents outnumber the indents), removes exactly the
    first [n] entries, and leaves the indentation that the indents and
    unindents among them give in their order, an unindent stopping at 0;
    the swap of a line break with the unindent after it changes nothing
    of that.  An indentation that was not negative is not negative
    afterwards. *)
Theorem X2_writeWhitespace_indentation (n : nat) (p : printer) :
  (n <= length (p_wsbuf p))%nat ->
  0 <= p_indent p ->
  p_indent p + Z.of_nat n < 2 ^ 63 ->
  exists p', writeWhitespace n p = Ok (tt, p')
    /\ p_wsbuf p' = drop n (p_wsbuf p)
    /\ p_indent p' = indentAfter (p_indent p) (take n (p_wsbuf p))
    /\ 0 <= p_indent p' <= p_indent p + Z.of_nat n.
Proof.
  intros Hn Hi Hr. unfold writeWhitespace.
  destruct (Nat.ltb_spec (length (p_wsbuf p)) n) as [Hlt|_]; [lia|].
  destruct (writeEntries_ok (take n (p_wsbuf p)) p) as (p' & He & _).
  rewrite He. eexists. split; [reflexivity|].
  split; [reflexivity|].
  pose proof (writeEntries_indent _ _ _ He) as Hind.
  assert (Hlen : len (take n (p_wsbuf p)) = Z.of_nat n).
  { unfold len. rewrite length_take. lia. }
  pose proof (indentAfter_range (take n (p_wsbuf p)) (p_indent p) Hi) as Hrange.
  rewrite Hlen in Hrange. specialize (Hrange Hr).
  change (p_indent (set_wsbuf (drop n (p_wsbuf p)) p')) with (p_indent p').
  rewrite Hind. split; [reflexivity|exact Hrange].
Qed.

Lemma X2_writeWhitespace_indentation_witness :
  exists p', writeWhitespace 3
               (set_wsbuf [newline; unindent; unindent; indent] (init rawConfig fset100))
             = Ok (tt, p')
    /\ p_wsbuf p' = [indent] /\ p_indent p' = 0.
Proof.
  destruct (X2_writeWhitespace_indentation 3
              (set_wsbuf [newline; unindent; unindent; indent] (init rawConfig fset100)))
    as (p' & He & Hw & Hi & _).
  - cbn. lia.
  - cbn. lia.
  - cbn. lia.
  - exists p'. split; [exact He|]. split; [exact Hw|]. exact Hi.
Defined.

(** *** The position after a string *)

(** The number of newlines of a string. *)
Fixpoint countNl (s : bytes) : Z :=
  match s with
  | [] => 0
  | c :: s' => (if Ascii.eqb c Ch.nl then 1 else 0) + countNl s'
  end.

Lemma scanNewlines_none (s : bytes) (i : nat) (n : Z) (li : nat) :
  containsNewline s = false -> scanNewlines i s n li = (n, li).
Proof.
  unfold containsNewline. revert i. induction s as [|c s IH]; intros i H; cbn [scanNewlines existsb] in *.
  - reflexivity.
  - apply orb_false_iff in H as [Hc Hs]. rewrite Ascii.eqb_sym in Hc. rewrite Hc. now apply IH.
Qed.

Lemma countNl_none (s : bytes) : containsNewline s = false -> countNl s = 0.
Proof.
  unfold containsNewline. induction s as [|c s IH]; intros H; cbn [countNl existsb] in *.
  - reflexivity.
  - apply orb_false_iff in H as [Hc Hs]. rewrite Ascii.eqb_sym in Hc. rewrite Hc, IH by exact Hs.
    reflexivity.
Qed.

Lemma countNl_app (a b : bytes) : countNl (a ++ b) = countNl a + countNl b.
Proof. induction a as [|c a IH]; cbn [countNl app]; [reflexivity|rewrite IH; lia]. Qed.

Lemma countNl_nonneg (s : bytes) : 0 <= countNl s.
Proof. induction s as [|c s IH]; cbn [countNl]; [lia|destruct (Ascii.eqb c Ch.nl); lia]. Qed.

Lemma scanNewlines_last (before after : bytes) (i : nat) (n : Z) (li : nat) :
  containsNewline after = false ->
  scanNewlines i (before ++ Ch.nl :: after) n li
  = (n + countNl before + 1, (i + length before)%nat).
Proof.
  intros Hafter. revert i n li.
  induction before as [|c before IH]; intros i n li; cbn [app scanNewlines countNl length].
  - rewrite Ascii.eqb_refl, scanNewlines_none by exact Hafter. f_equal; lia.
  - destruct (Ascii.eqb c Ch.nl); rewrite IH; f_equal; lia.
Qed.

(** X3: [writeString] with a valid position leaves [p.pos] at the end of
    the string: the offset is advanced by its length; without a newline
    in it the line is kept and the column advanced by the length; with
    newlines the line is advanced by their number and the column is one
    more than the number of bytes after the last newline; [p.last] is
    that position. *)
Theorem X3_writeString_position (pos : Position) (s : bytes) (isLit : bool) (p : printer) :
  IsValid pos = true ->
  let p' := writeString pos s isLit p in
  p_last p' = p_pos p'
  /\ Filename (p_pos p') = Filename pos
  /\ Offset (p_pos p') = int_add (Offset pos) (len s)
  /\ (containsNewline s = false ->
      Line (p_pos p') = Line pos /\ Column (p_pos p') = int_add (Column pos) (len s))
  /\ (forall before after, s = before ++ Ch.nl :: after -> containsNewline after = false ->
      Line (p_pos p') = int_add (Line pos) (countNl s)
      /\ Column (p_pos p') = len after + 1).
Proof.
  intros Hv p'. subst p'. unfold writeString. rewrite Hv.
  generalize (if Column (p_out p) =? 1 then atLineBegin pos p else p). intros q.
  change debug with false. cbv iota.
  destruct (scanNewlines 0 s 0 0) as [nlines li] eqn:Hscan.
  split; [reflexivity|].
  split; [destruct isLit, (0 <? nlines); reflexivity|].
  split; [destruct isLit, (0 <? nlines); reflexivity|].
  split.
  - intros Hnone. rewrite scanNewlines_none in Hscan by exact Hnone.
    inversion Hscan; subst. destruct isLit; cbn; split; reflexivity.
  - intros before after -> Hafter.
    rewrite scanNewlines_last in Hscan by exact Hafter.
    inversion Hscan; subst. clear Hscan.
    pose proof (countNl_nonneg before) as Hb.
    destruct (Z.ltb_spec 0 (0 + countNl before + 1)) as [_|Hc]; [|lia].
    rewrite countNl_app. cbn [countNl]. rewrite Ascii.eqb_refl, (countNl_none after Hafter).
    replace (countNl before + (1 + 0)) with (0 + countNl before + 1) by lia.
    destruct isLit; fields; (split; [reflexivity|]);
      unfold len; rewrite length_app; cbn [length]; lia.
Qed.

Lemma X3_writeString_position_witness :
  Line (p_pos (writeString (fset100 7) (bs "/* a" ++ Ch.nl :: bs "b */") false
                 (init rawConfig fset100))) = 2
  /\ Column (p_pos (writeString (fset100 7) (bs "/* a" ++ Ch.nl :: bs "b */") false
                      (init rawConfig fset100))) = 5.
Proof.
  pose proof (X3_writeString_position (fset100 7) (bs "/* a" ++ Ch.nl :: bs "b */") false
                (init rawConfig fset100) eq_refl) as H.
  cbv zeta in H. destruct H as (_ & _ & _ & _ & H).
  apply (H (bs "/* a") (bs "b */")); reflexivity.
Defined.

(** *** The line cache and the comment cursor *)

(** The printer without what its line cache holds. *)
Definition forgetCache (p : printer) : printer :=
  set_cachedLine 0 (set_cachedPos 0 p).

(** The cache answers for no position, or for [p.cachedPos] with the
    line the file set gives it.  (-1 is the position the cache starts
    with; it is the position of no item.) *)
Definition cacheOk (p : printer) : Prop :=
  p_cachedPos p = -1 \/ p_cachedLine p = Line (p_fset p (p_cachedPos p)).

Lemma lineFor_spec (pos : Z) (p : printer) :
  cacheOk p -> pos <> -1 ->
  fst (lineFor pos p) = Line (p_fset p pos)
  /\ cacheOk (snd (lineFor pos p))
  /\ forgetCache (snd (lineFor pos p)) = forgetCache p.
Proof.
  intros Hc Hpos. unfold lineFor.
  destruct (Z.eqb_spec pos (p_cachedPos p)) as [->|Hne]; cbn [negb fst snd].
  - destruct Hc as [Hc|Hc]; [contradiction|]. repeat split; [exact Hc|now right].
  - repeat split. right. reflexivity.
Qed.

(** What makes a group of comments one with a newline: a comment on
    another line than the first, a //-style comment, or a comment with a
    newline in its text. *)
Definition breaksLine (fset : Z -> Position) (c0 c : Comment) : bool :=
  negb (Line (fset (Slash c)) =? Line (fset (Slash c0)))
  || ((2 <=? len (Text c))
      && (match Text c with
          | _ :: t1 :: _ => Ascii.eqb t1 "/"%char
          | _ => false
          end || containsNewline (Text c))).

Lemma commentsHaveNewline_from_spec (c0 : Comment) (list : list Comment) (i : nat)
    (p : printer) :
  cacheOk p ->
  Forall (fun c => Slash c <> -1) list ->
  (i = 0%nat -> exists l, list = c0 :: l) ->
  fst (commentsHaveNewline_from (Line (p_fset p (Slash c0))) i list p)
    = existsb (breaksLine (p_fset p) c0) list
  /\ cacheOk (snd (commentsHaveNewline_from (Line (p_fset p (Slash c0))) i list p))
  /\ forgetCache (snd (commentsHaveNewline_from (Line (p_fset p (Slash c0))) i list p))
     = forgetCache p.
Proof.
  intros Hc Hall. revert i p Hc.
  induction Hall as [|c list Hs _ IH]; intros i p Hc Hi; cbn [commentsHaveNewline_from existsb].
  - repeat split. exact Hc.
  - unfold breaksLine at 1.
    set (textual := (2 <=? len (Text c))
                    && (match Text c with
                        | _ :: t1 :: _ => Ascii.eqb t1 "/"%char
                        | _ => false
                        end || containsNewline (Text c))).
    destruct (0 <? i)%nat eqn:Ei.
    + destruct (lineFor_spec (Slash c) p Hc Hs) as (Hl & Hc' & Hf).
      destruct (lineFor (Slash c) p) as [l q]. cbn [fst snd] in Hl, Hc', Hf. subst l.
      destruct (negb (Line (p_fset p (Slash c)) =? Line (p_fset p (Slash c0)))); cbn [orb].
      * repeat split; [exact Hc'|exact Hf].
      * destruct textual; cbn [fst snd].
        -- repeat split; [exact Hc'|exact Hf].
        -- assert (Efs : p_fset q = p_fset p) by (apply (f_equal p_fset) in Hf; exact Hf).
           rewrite <- Efs.
           destruct (IH (S i) q Hc') as (H1 & H2 & H3); [intros H; discriminate H|].
           rewrite Hf in H3. repeat split; assumption.
    + apply Nat.ltb_ge in Ei. assert (i = 0%nat) as -> by lia.
      destruct (Hi eq_refl) as [l Hl]. injection Hl as -> ->.
      rewrite Z.eqb_refl. cbn [negb orb].
      destruct textual; cbn [fst snd].
      * repeat split. exact Hc.
      * destruct (IH 1%nat p Hc) as (H1 & H2 & H3); [intros H; discriminate H|].
        repeat split; assumption.
Qed.

(** X5: [commentsHaveNewline] on a group answers whether a comment of
    it stands on another line than the first one, is a //-style comment
    or holds a newline; the one-entry line cache it reads the lines
    through changes nothing of the answer, and nothing but the cache
    changes. *)
Theorem X5_commentsHaveNewline_cache (c0 : Comment) (l : list Comment) (p : printer) :
  cacheOk p ->
  Forall (fun c => Slash c <> -1) (c0 :: l) ->
  fst (commentsHaveNewline (c0 :: l) p) = existsb (breaksLine (p_fset p) c0) (c0 :: l)
  /\ cacheOk (snd (commentsHaveNewline (c0 :: l) p))
  /\ forgetCache (snd (commentsHaveNewline (c0 :: l) p)) = forgetCache p.
Proof.
  intros Hc Hall. unfold commentsHaveNewline.
  destruct (lineFor_spec (Slash c0) p Hc) as (Hl & Hc' & Hf).
  { now inversion Hall. }
  destruct (lineFor (Slash c0) p) as [line q]. cbn [fst snd] in Hl, Hc', Hf. subst line.
  assert (Efs : p_fset q = p_fset p) by (apply (f_equal p_fset) in Hf; exact Hf).
  rewrite <- Efs.
  destruct (commentsHaveNewline_from_spec c0 (c0 :: l) 0 q Hc' Hall) as (H1 & H2 & H3).
  { intros _. now exists l. }
  rewrite Hf in H3. repeat split; assumption.
Qed.

Lemma X5_commentsHaveNewline_cache_witness :
  fst (commentsHaveNewline [ {| Slash := 5; Text := bs "/* a */" |};
                             {| Slash := 105; Text := bs "/* b */" |} ]
         (init rawConfig fset100)) = true.
Proof.
  apply (X5_commentsHaveNewline_cache {| Slash := 5; Text := bs "/* a */" |}
           [ {| Slash := 105; Text := bs "/* b */" |} ] (init rawConfig fset100)).
  - left. reflexivity.
  - repeat constructor; cbn; lia.
Defined.

(** A group without comments. *)
Definition emptyGroup (g : CommentGroup) : Prop := List g = [].

Lemma commentsHaveNewline_forget (list : list Comment) (p : printer) :
  forgetCache (snd (commentsHaveNewline list p)) = forgetCache p.
Proof.
  assert (Hl : forall x q, forgetCache (snd (lineFor x q)) = forgetCache q).
  { intros x q. unfold lineFor. destruct (negb (x =? p_cachedPos q)); reflexivity. }
  assert (Hf : forall l line i q,
             forgetCache (snd (commentsHaveNewline_from line i l q)) = forgetCache q).
  { clear -Hl. intros l line. induction l as [|c l IH]; intros i q; cbn [commentsHaveNewline_from];
      [reflexivity|].
    destruct (0 <? i)%nat.
    - specialize (Hl (Slash c) q). destruct (lineFor (Slash c) q) as [l0 q0]. cbn [snd] in Hl.
      destruct (negb (l0 =? line)); [exact Hl|].
      destruct (_ && _); [exact Hl|]. rewrite IH. exact Hl.
    - destruct (_ && _); [reflexivity|]. apply IH. }
  unfold commentsHaveNewline. destruct list as [|c0 l]; [reflexivity|].
  specialize (Hl (Slash c0) p). destruct (lineFor (Slash c0) p) as [line q]. cbn [snd] in Hl.
  rewrite Hf. exact Hl.
Qed.

Lemma nextComment_loop_spec (cs : list CommentGroup) (p : printer) :
  let p' := nextComment_loop cs p in
  p_comments p' = p_comments p /\ p_output p' = p_output p /\ p_wsbuf p' = p_wsbuf p
  /\ ((Forall emptyGroup cs /\ p_cindex p' = (p_cindex p + length cs)%nat
       /\ p_commentOffset p' = infinity /\ p_comment p' = p_comment p)
      \/ (exists k g c l,
            Forall emptyGroup (take k cs) /\ cs !! k = Some g /\ List g = c :: l
            /\ p_cindex p' = S (p_cindex p + k)
            /\ p_comment p' = Some g
            /\ p_commentOffset p' = Offset (p_fset p (Slash c)))).
Proof.
  cbv zeta. revert p. induction cs as [|g cs IH]; intros p; cbn [nextComment_loop].
  - repeat split. left. repeat split; [constructor|cbn; lia].
  - destruct (List g) as [|c l] eqn:Eg.
    + destruct (IH (set_cindex (S (p_cindex p)) p)) as (H1 & H2 & H3 & H).
      repeat split; [exact H1|exact H2|exact H3|].
      destruct H as [(Ha & Hb & Hc & Hd)|(k & g' & c' & l' & Ha & Hb & Hc & Hd & He & Hf)].
      * left. repeat split; [constructor; assumption|rewrite Hb; cbn; lia|exact Hc|exact Hd].
      * right. exists (S k), g', c', l'.
        repeat split; [cbn [take]; constructor; assumption|exact Hb|exact Hc
                       |rewrite Hd; cbn; lia|exact He|exact Hf].
    + pose proof (commentsHaveNewline_forget (c :: l)
                    (set_commentOffset (Offset (posFor (set_comment (Some g)
                         (set_cindex (S (p_cindex p)) p)) (Slash c)))
                       (set_comment (Some g) (set_cindex (S (p_cindex p)) p)))) as Hf.
      destruct (commentsHaveNewline (c :: l) _) as [b q]. cbn [snd] in Hf.
      assert (E : forall {A} (f : printer -> A),
                (forall x, f (forgetCache x) = f x) ->
                f q = f (set_commentOffset (Offset (posFor (set_comment (Some g)
                         (set_cindex (S (p_cindex p)) p)) (Slash c)))
                       (set_comment (Some g) (set_cindex (S (p_cindex p)) p)))).
      { intros A f Hff. rewrite <- (Hff q), Hf, Hff. reflexivity. }
      cbn [p_comments p_output p_wsbuf p_cindex p_comment p_commentOffset set_commentNewline].
      repeat split.
      * rewrite (E _ p_comments) by reflexivity. reflexivity.
      * rewrite (E _ p_output) by reflexivity. reflexivity.
      * rewrite (E _ p_wsbuf) by reflexivity. reflexivity.
      * right. exists 0%nat, g, c, l.
        repeat split; [constructor|exact Eg| | |].
        -- change (p_cindex q = S (p_cindex p + 0)).
           rewrite (E _ p_cindex) by reflexivity. cbn. lia.
        -- change (p_comment q = Some g).
           rewrite (E _ p_comment) by reflexivity. reflexivity.
        -- change (p_commentOffset q = Offset (p_fset p (Slash c))).
           rewrite (E _ p_commentOffset) by reflexivity. reflexivity.
Qed.

(** X4: [nextComment] moves the cursor to the next group that holds a
    comment, over the groups without one: then [p.comment] is that
    group, [p.cindex] the index after it and [p.commentOffset] the offset
    of its first comment.  When no group with a comment is left,
    [p.cindex] is the number of groups and [p.commentOffset] is
    [infinity], while [p.comment] stays what it was.  The groups, the
    output and the whitespace buffer are not touched, and [p.cindex]
    never passes the number of groups. *)
Theorem X4_nextComment_cursor (p : printer) :
  (p_cindex p <= length (p_comments p))%nat ->
  let p' := nextComment p in
  p_comments p' = p_comments p /\ p_output p' = p_output p /\ p_wsbuf p' = p_wsbuf p
  /\ (p_cindex p' <= length (p_comments p))%nat
  /\ ((Forall emptyGroup (drop (p_cindex p) (p_comments p))
       /\ p_cindex p' = length (p_comments p)
       /\ p_commentOffset p' = infinity /\ p_comment p' = p_comment p)
      \/ (exists k g c l,
            Forall emptyGroup (take k (drop (p_cindex p) (p_comments p)))
            /\ p_comments p !! (p_cindex p + k)%nat = Some g /\ List g = c :: l
            /\ p_cindex p' = S (p_cindex p + k)
            /\ p_comment p' = Some g
            /\ p_commentOffset p' = Offset (p_fset p (Slash c)))).
Proof.
  intros Hi. cbv zeta. unfold nextComment.
  destruct (nextComment_loop_spec (drop (p_cindex p) (p_comments p)) p)
    as (H1 & H2 & H3 & H).
  cbv zeta in H.
  repeat split; [exact H1|exact H2|exact H3| |].
  - destruct H as [(Ha & Hb & Hc & Hd)|(k & g & c & l & Ha & Hb & Hc & Hd & He & Hf)].
    + rewrite Hb, length_drop. lia.
    + rewrite Hd. apply lookup_lt_Some in Hb. rewrite length_drop in Hb. lia.
  - destruct H as [(Ha & Hb & Hc & Hd)|(k & g & c & l & Ha & Hb & Hc & Hd & He & Hf)].
    + left. repeat split; [exact Ha|rewrite Hb, length_drop; lia|exact Hc|exact Hd].
    + right. exists k, g, c, l. rewrite lookup_drop in Hb.
      repeat split; assumption.
Qed.

Lemma X4_nextComment_cursor_witness :
  (p_cindex (nextComment
               (set_comments [ {| List := [] |};
                               {| List := [ {| Slash := 5; Text := bs "/* a */" |} ] |} ]
                  (init rawConfig fset100))) <= 2)%nat.
Proof.
  pose proof (X4_nextComment_cursor
                (set_comments [ {| List := [] |};
                                {| List := [ {| Slash := 5; Text := bs "/* a */" |} ] |} ]
                   (init rawConfig fset100))) as H.
  cbv zeta in H. destruct H as (_ & _ & _ & H & _).
  - cbn. lia.
  - exact H.
Defined.

(** *** Calls of [print] that return *)

Lemma atLineBegin_quiet (pos : Position) (p : printer) : quiet p (atLineBegin pos p).
Proof.
  split; [apply atLineBegin_cursor|]. split; [apply atLineBegin_wsbuf|].
  rewrite atLineBegin_output. eexists. reflexivity.
Qed.

Lemma writeString_quiet (pos : Position) (s : bytes) (isLit : bool) (p : printer) :
  quiet p (writeString pos s isLit p).
Proof.
  unfold writeString, debug.
  assert (H : quiet p (if Column (p_out p) =? 1 then atLineBegin pos p else p)).
  { destruct (Column (p_out p) =? 1); [apply atLineBegin_quiet|apply quiet_refl]. }
  revert H. generalize (if Column (p_out p) =? 1 then atLineBegin pos p else p).
  intros q Hq. apply (quiet_trans _ q _ Hq). clear Hq.
  destruct (scanNewlines 0 s 0 0) as [nlines li].
  unfold quiet, sameCursor.
  destruct (IsValid pos), isLit, (0 <? nlines); fields;
    (split; [repeat split|]; split; [reflexivity|]);
    rewrite <- ?app_assoc; eexists; reflexivity.
Qed.

(** A step that keeps the cursor and does not lengthen the buffer. *)
Definition calm (p p' : printer) : Prop :=
  sameCursor p p' /\ (length (p_wsbuf p') <= length (p_wsbuf p))%nat.

Lemma calm_refl (p : printer) : calm p p.
Proof. split; [apply sameCursor_refl|lia]. Qed.

Lemma calm_trans (p1 p2 p3 : printer) : calm p1 p2 -> calm p2 p3 -> calm p1 p3.
Proof.
  intros [Hc1 Hw1] [Hc2 Hw2]. split; [eapply sameCursor_trans; eassumption|lia].
Qed.

Lemma quiet_calm (p p' : printer) : quiet p p' -> calm p p'.
Proof. intros (Hc & Hw & _). split; [exact Hc|rewrite Hw; lia]. Qed.

(** A call that returns, calmly. *)
Definition returnsAt {A} (m : M A) (p : printer) : Prop :=
  exists a p', m p = Ok (a, p') /\ calm p p'.

Lemma returnsAt_ret {A} (a : A) (p : printer) : returnsAt (ret a) p.
Proof. exists a, p. split; [reflexivity|apply calm_refl]. Qed.

Lemma returnsAt_step (f : printer -> printer) (p : printer) :
  calm p (f p) -> returnsAt (step f) p.
Proof. intros H. exists tt, (f p). split; [reflexivity|exact H]. Qed.

Lemma returnsAt_bind {A B} (m : M A) (k : A -> M B) (p : printer) :
  returnsAt m p ->
  (forall a p1, m p = Ok (a, p1) -> calm p p1 -> returnsAt (k a) p1) ->
  returnsAt (bind m k) p.
Proof.
  intros (a & p1 & Hm & Hc1) Hk.
  destruct (Hk a p1 Hm Hc1) as (b & p2 & Hk2 & Hc2).
  exists b, p2. split; [unfold bind; rewrite Hm; exact Hk2|].
  eapply calm_trans; eassumption.
Qed.

Lemma returnsAt_get_bind {B} (k : printer -> M B) (p : printer) :
  returnsAt (k p) p -> returnsAt (bind get k) p.
Proof. intros H. exact H. Qed.

Lemma returnsAt_internalError (msg : string) (p : printer) : returnsAt (internalError msg) p.
Proof. exists tt, p. split; [reflexivity|apply calm_refl]. Qed.

Lemma returnsAt_writeByte (ch : ascii) (n : Z) (p : printer) :
  returnsAt (step (writeByte ch n)) p.
Proof. apply returnsAt_step, quiet_calm, quiet_writeByte. Qed.

Lemma returnsAt_writeWhitespace (n : nat) (p : printer) :
  (n <= length (p_wsbuf p))%nat -> returnsAt (writeWhitespace n) p.
Proof.
  intros Hn. destruct (writeWhitespace_ok n p Hn) as (p' & He & Hc & Hw & _).
  exists tt, p'. split; [exact He|]. split; [exact Hc|].
  rewrite Hw, length_drop. lia.
Qed.



Lemma scanSuffix_length (ws : list whiteSpace) (n w d : bool) :
  length (fst (fst (fst (scanSuffix n w d ws)))) = length ws.
Proof.
  revert n w d. induction ws as [|ch ws IH]; intros n w d; cbn [scanSuffix].
  - reflexivity.
  - destruct ch;
      try (specialize (IH n w d); destruct (scanSuffix n w d ws) as [[[ws' n'] w'] d'];
           cbn [fst length] in *; lia).
    + destruct n.
      * specialize (IH false true d). destruct (scanSuffix false true d ws) as [[[ws' n'] w'] d'].
        cbn [fst length] in *; lia.
      * specialize (IH false w d). destruct (scanSuffix false w d ws) as [[[ws' n'] w'] d'].
        cbn [fst length] in *; lia.
    + destruct n.
      * specialize (IH false true d). destruct (scanSuffix false true d ws) as [[[ws' n'] w'] d'].
        cbn [fst length] in *; lia.
      * specialize (IH false w true). destruct (scanSuffix false w true ws) as [[[ws' n'] w'] d'].
        cbn [fst length] in *; lia.
Qed.

Lemma calm_set_wsbuf (ws : list whiteSpace) (p : printer) :
  (length ws <= length (p_wsbuf p))%nat -> calm p (set_wsbuf ws p).
Proof. intros H. split; [repeat split|exact H]. Qed.






Lemma returnsAt_writeCommentSuffix (needs : bool) (p : printer) :
  returnsAt (writeCommentSuffix needs) p.
Proof.
  unfold writeCommentSuffix. apply returnsAt_get_bind.
  pose proof (scanSuffix_length (p_wsbuf p) needs false false) as Hl.
  destruct (scanSuffix needs false false (p_wsbuf p)) as [[[ws n] w] d]. cbn [fst] in Hl.
  apply returnsAt_bind; [apply returnsAt_step, calm_set_wsbuf; lia|].
  intros [] p1 E _. injection E as <-.
  apply returnsAt_bind; [apply returnsAt_writeWhitespace; cbn; lia|].
  intros [] p2 _ _.
  destruct n; [|apply returnsAt_ret].
  apply returnsAt_bind; [apply returnsAt_writeByte|intros; apply returnsAt_ret].
Qed.








Lemma whiteSpace_eq_ignore (x : whiteSpace) : {x = ignore} + {x <> ignore}.
Proof. destruct x; (left; reflexivity) || (right; discriminate). Qed.







(** *** C7: when a comment group is interleaved *)







(** *** What [print] writes *)

Lemma grows_intersperseNewlines (next : Position) (w d semi : bool) :
  grows (intersperseNewlines next w d semi).
Proof.
  unfold intersperseNewlines. apply grows_get_bind. intros q.
  destruct (0 <? newlineCount next w q); [|apply grows_ret].
  apply grows_bind; [apply grows_writeByte|intros _; apply grows_ret].
Qed.

(** The bytes of an item as [writeString] writes them: a literal stands
    between two [tabwriter.Escape] bytes. *)
Definition escaped (data : bytes) (isLit : bool) : bytes :=
  (if isLit then [Ch.Escape] else []) ++ data ++ (if isLit then [Ch.Escape] else []).

Lemma printData_output (data : bytes) (isLit semi : bool) (p p' : printer) :
  printData data isLit semi p = Ok (tt, p') ->
  exists s, p_output p' = p_output p ++ s ++ escaped data isLit.
Proof.
  intros H. unfold printData in H.
  apply bind_Ok in H as (q & p0 & Hg & H). injection Hg as <- <-.
  apply bind_Ok in H as ([w d] & p1 & H1 & H).
  apply bind_Ok in H as (semi' & p2 & H2 & H).
  apply bind_Ok in H as ([] & p3 & H3 & H).
  injection H3 as <-. injection H as <-.
  destruct (grows_flush _ _ _ _ _ H1) as [s1 E1].
  destruct (grows_intersperseNewlines _ _ _ _ _ _ _ H2) as [s2 E2].
  change (p_output (set_impliedSemi semi' (writeString (p_pos p) data isLit p2)))
    with (p_output (writeString (p_pos p) data isLit p2)).
  rewrite writeString_output, E2, E1.
  exists (s1 ++ s2 ++ lineBeginIf (p_pos p) p2). unfold escaped.
  rewrite <- !app_assoc. reflexivity.
Qed.

(** The text an argument of [print] carries. *)
Definition itemText (a : arg) : bytes :=
  match a with
  | A_Ident Name => escaped Name false
  | A_BasicLit _ Value => escaped Value true
  | A_Token x => escaped (Token_String x) false
  | A_string x => escaped x true
  | _ => []
  end.

Lemma print1_output (a : arg) (p p' : printer) :
  print1 a p = Ok (tt, p') ->
  exists s, p_output p' = p_output p ++ s ++ itemText a.
Proof.
  intros H. destruct a as [x|x|Name|Kind Value|x|x|x|]; cbn [print1 itemText] in *.
  - injection H as <-. exists []. cbn. now rewrite app_nil_r.
  - exists (drop (length (p_output p)) (p_output p')). rewrite app_nil_r.
    assert (G : grows (print1 (A_whiteSpace x))).
    { cbn [print1]. destruct x; try apply grows_ret;
        (apply grows_get_bind; intros q;
         apply grows_bind;
         [destruct (_ =? _)%nat; [apply grows_writeWhitespace|apply grows_ret]|intros _];
         apply grows_bind; [now apply same_output_grows|intros _];
         apply grows_bind; [cbn [isLinebreak]; try apply grows_ret; now apply same_output_grows
                           |intros _];
         now apply same_output_grows). }
    destruct (G _ _ _ H) as [s E]. rewrite E, drop_app_length. reflexivity.
  - apply bind_Ok in H as ([] & p1 & H1 & H). injection H1 as <-.
    apply (printData_output _ _ _ _ _ H).
  - apply bind_Ok in H as ([] & p1 & H1 & H). injection H1 as <-.
    apply (printData_output _ _ _ _ _ H).
  - destruct (Token_String x) as [|s0 s'] eqn:Es; [discriminate H|].
    apply bind_Ok in H as (q & p0 & Hg & H). injection Hg as <- <-.
    apply bind_Ok in H as ([] & p1 & H1 & H).
    apply bind_Ok in H as ([] & p2 & H2 & H). injection H2 as <-.
    assert (E1 : p_output p1 = p_output p).
    { destruct (mayCombine (p_lastTok p) s0); [|injection H1 as <-; reflexivity].
      apply bind_Ok in H1 as ([] & p1' & H1 & H1').
      injection H1' as <-.
      destruct (negb _); injection H1 as <-; reflexivity. }
    destruct (printData_output _ _ _ _ _ H) as [s E].
    exists s. rewrite E. cbn. rewrite E1. reflexivity.
  - exists []. destruct (Pos_IsValid x); injection H as <-; cbn; now rewrite app_nil_r.
  - apply bind_Ok in H as ([] & p1 & H1 & H). injection H1 as <-.
    apply (printData_output _ _ _ _ _ H).
  - discriminate H.
Qed.

(** X7: a call of [print] that returns has only appended to the output,
    and what it appended is the texts of its arguments, unchanged and in
    their order (identifiers and tokens as they are, literals and
    strings between two [tabwriter.Escape] bytes), each after the
    whitespace and comments written before it. *)
Theorem X7_print_items_in_order (args : list arg) (p p' : printer) :
  print args p = Ok (tt, p') ->
  exists seps : list bytes,
    length seps = length args
    /\ p_output p' = p_output p ++ concat (zip_with app seps (map itemText args)).
Proof.
  revert p. induction args as [|a args IH]; intros p H; cbn [print] in H.
  - injection H as <-. exists []. split; [reflexivity|]. cbn. now rewrite app_nil_r.
  - apply bind_Ok in H as ([] & p1 & H1 & H).
    destruct (print1_output _ _ _ H1) as [s1 E1].
    destruct (IH _ H) as (seps & Hlen & E2).
    exists (s1 :: seps). split; [cbn; now rewrite Hlen|].
    rewrite E2, E1. cbn [map zip_with concat]. rewrite <- !app_assoc. reflexivity.
Qed.

Lemma X7_print_items_in_order_witness :
  exists p' seps,
    print [A_Ident (bs "x"); A_whiteSpace blank; A_BasicLit STRING (bs "'a b'")] ready
    = Ok (tt, p')
    /\ length seps = 3%nat
    /\ p_output p'
       = p_output ready
         ++ concat (zip_with app seps [bs "x"; []; [Ch.Escape] ++ bs "'a b'" ++ [Ch.Escape]]).
Proof.
  assert (H : {p' | print [A_Ident (bs "x"); A_whiteSpace blank;
                           A_BasicLit STRING (bs "'a b'")] ready = Ok (tt, p')}).
  { eexists. vm_compute. reflexivity. }
  destruct H as [p' E].
  destruct (X7_print_items_in_order _ _ _ E) as (seps & Hlen & Hs).
  exists p', seps. split; [exact E|]. split; [exact Hlen|exact Hs].
Defined.

(** *** Line directives *)

Lemma LastIndexColon_app (f ds : bytes) :
  LastIndexColon ds = None ->
  LastIndexColon (f ++ ":"%char :: ds) = Some (length f).
Proof.
  intros Hds. induction f as [|b f IH]; cbn [app LastIndexColon length].
  - rewrite Hds. reflexivity.
  - rewrite IH. reflexivity.
Qed.

Lemma HasPrefix_app (pre rest : bytes) : HasPrefix (pre ++ rest) pre = true.
Proof.
  induction pre as [|b pre IH]; cbn [app HasPrefix].
  - destruct rest; reflexivity.
  - rewrite Ascii.eqb_refl. exact IH.
Qed.

Lemma lineDirective_parsed (rem f ds : bytes) (n : Z) (pos : Position) :
  TrimSpace rem = f ++ ":"%char :: ds ->
  LastIndexColon ds = None ->
  Atoi ds = Some n ->
  0 < n ->
  IsValid pos = false \/ Column pos = 1 ->
  lineDirective (linePrefix ++ rem) pos = Some (f, n).
Proof.
  intros Hrem Hds Hn Hpos Hcol. unfold lineDirective.
  rewrite HasPrefix_app.
  change (drop (length linePrefix) (linePrefix ++ rem)) with rem.
  assert (Hc : negb (IsValid pos) || (Column pos =? 1) = true).
  { destruct Hcol as [->| ->]; [reflexivity|apply orb_true_r]. }
  rewrite Hc. cbn [andb]. rewrite Hrem, (LastIndexColon_app f ds Hds).
  replace (drop (S (length f)) (f ++ ":"%char :: ds)) with ds.
  2:{ change (S (length f)) with (1 + length f)%nat.
      rewrite Nat.add_comm, <- drop_drop, drop_app_length. reflexivity. }
  rewrite Hn. destruct (Z.ltb_spec 0 n); [|lia].
  rewrite take_app_length. reflexivity.
Qed.

(** X8: a comment whose text is "//line " and a remainder that, without
    the white space around it, is a file name, a colon and a positive
    number, and that stands in column 1 (or has no valid position), is
    written with the indentation suspended and restored; afterwards the
    position of the printer is that file, that line and column 1.  What
    is written is the prefix and the text without its first byte: with
    the prefix "//" a third slash stands before "line". *)
Theorem X8_line_directive (c : Comment) (prefix rem f ds : bytes) (n : Z) (p : printer) :
  Text c = linePrefix ++ rem ->
  TrimSpace rem = f ++ ":"%char :: ds ->
  LastIndexColon ds = None ->
  Atoi ds = Some n ->
  0 < n ->
  IsValid (posFor p (Slash c)) = false \/ Column (posFor p (Slash c)) = 1 ->
  exists p',
    writeComment c prefix p = Ok (tt, p')
    /\ Filename (p_pos p') = f /\ Line (p_pos p') = n /\ Column (p_pos p') = 1
    /\ p_indent p' = p_indent p
    /\ p_output p'
       = p_output p ++ lineBeginIf (posFor p (Slash c)) (set_indent 0 p)
           ++ [Ch.Escape] ++ prefix ++ trimRight (bs "/line " ++ rem)
           ++ (if bytes_eqb prefix (bs "//") then [] else bs " */ ") ++ [Ch.Escape].
Proof.
  intros Ht Hrem Hds Hn Hpos Hcol.
  pose proof (lineDirective_parsed rem f ds n (posFor p (Slash c)) Hrem Hds Hn Hpos Hcol) as Hd.
  unfold writeComment. unfold bind at 1, get. rewrite Ht, Hd.
  change (linePrefix ++ rem) with ("/"%char :: bs "/line " ++ rem).
  cbv beta iota delta [bind step ret isNil].
  eexists. split; [reflexivity|]. fields.
  repeat split.
  rewrite writeString_output. fields. rewrite <- !app_assoc. reflexivity.
Qed.

Lemma X8_line_directive_witness :
  exists p',
    writeComment {| Slash := 200; Text := bs "//line  lib/a.src:7 " |} (bs "//")
      (set_indent 2 (init rawConfig fset100)) = Ok (tt, p')
    /\ Filename (p_pos p') = bs "lib/a.src" /\ Line (p_pos p') = 7 /\ Column (p_pos p') = 1
    /\ p_indent p' = 2
    /\ p_output p' = [Ch.Escape] ++ bs "///line  lib/a.src:7" ++ [Ch.Escape].
Proof.
  apply (X8_line_directive {| Slash := 200; Text := bs "//line  lib/a.src:7 " |} (bs "//")
           (bs " lib/a.src:7 ") (bs "lib/a.src") (bs "7") 7
           (set_indent 2 (init rawConfig fset100))); try reflexivity.
  right. reflexivity.
Defined.

(** *** The trimmer, byte by byte *)

(** What the trimmer does with one byte of text without escapes, on
    what is written ([out]) and the white space held back ([space]): a
    blank or tab (a vertical tab is read as a tab) is held back; a
    newline or formfeed is written as a newline and what is held back is
    dropped; any other byte is written after what is held back. *)
Definition trimStep (os : bytes * bytes) (b0 : ascii) : bytes * bytes :=
  let b := if Ascii.eqb b0 Ch.vt then Ch.ht else b0 in
  if Ascii.eqb b Ch.ht || Ascii.eqb b Ch.sp then (fst os, snd os ++ [b])
  else if Ascii.eqb b Ch.nl || Ascii.eqb b Ch.ff then (fst os ++ aNewline, [])
  else (fst os ++ snd os ++ [b], []).

Definition trimBytes (data : bytes) (os : bytes * bytes) : bytes * bytes :=
  fold_left trimStep data os.

(** The trimmer at index [n] stands for [os]. *)
Definition standsFor (data : bytes) (m n : nat) (t : trimmer) (os : bytes * bytes) : Prop :=
  t_state t <> inEscape
  /\ (m <= n)%nat
  /\ written data m n t = fst os
  /\ (t_state t = inSpace -> t_space t = snd os)
  /\ (t_state t = inText -> snd os = []).

Lemma Write_step_standsFor (pre rest : bytes) (b0 : ascii) (m : nat) (t : trimmer)
    (os : bytes * bytes) :
  Ascii.eqb b0 Ch.Escape = false ->
  standsFor (pre ++ b0 :: rest) m (length pre) t os ->
  standsFor (pre ++ b0 :: rest)
    (snd (Write_step (pre ++ b0 :: rest) (length pre) b0 m t)) (S (length pre))
    (fst (Write_step (pre ++ b0 :: rest) (length pre) b0 m t)) (trimStep os b0).
Proof.
  intros Hesc (Hst & Hm & Hw & Hsp & Htx).
  assert (Hsnoc : slice (pre ++ b0 :: rest) m (S (length pre))
                  = slice (pre ++ b0 :: rest) m (length pre) ++ [b0])
    by (apply slice_snoc; exact Hm).
  assert (Hone : slice (pre ++ b0 :: rest) (length pre) (S (length pre)) = [b0]).
  { rewrite slice_snoc by lia. rewrite slice_empty. reflexivity. }
  unfold Write_step, trimStep, written in *.
  set (b := if Ascii.eqb b0 Ch.vt then Ch.ht else b0).
  assert (Hb : Ascii.eqb b Ch.Escape = false).
  { subst b. destruct (Ascii.eqb b0 Ch.vt); [reflexivity|exact Hesc]. }
  assert (Hbt : Ascii.eqb b Ch.ht || Ascii.eqb b Ch.sp = false -> b = b0).
  { subst b. destruct (Ascii.eqb b0 Ch.vt); [discriminate|reflexivity]. }
  rewrite Hb.
  destruct (t_state t) eqn:Est; [|contradiction|].
  - (* inSpace *)
    specialize (Hsp eq_refl). rewrite app_nil_r in Hw.
    destruct (Ascii.eqb b Ch.ht || Ascii.eqb b Ch.sp) eqn:E1; cbn [fst snd].
    + unfold standsFor, written. cbn [t_addSpace t_state t_output t_space]. rewrite Est.
      split; [discriminate|]. split; [lia|]. split; [rewrite app_nil_r; exact Hw|].
      split; [intros _; now rewrite Hsp|discriminate].
    + destruct (Ascii.eqb b Ch.nl || Ascii.eqb b Ch.ff) eqn:E2; cbn [fst snd].
      * unfold standsFor, written. cbn [t_write resetSpace t_state t_output t_space].
        split; [discriminate|]. split; [lia|].
        split; [rewrite app_nil_r, Hw; reflexivity|].
        split; [reflexivity|discriminate].
      * unfold standsFor, written. cbn [t_write t_setState t_state t_output t_space].
        rewrite Hone, (Hbt eq_refl), Hw, Hsp, <- app_assoc.
        split; [discriminate|]. split; [lia|]. split; [reflexivity|].
        split; [discriminate|reflexivity].
  - (* inText *)
    specialize (Htx eq_refl).
    destruct (Ascii.eqb b Ch.ht || Ascii.eqb b Ch.sp) eqn:E1; cbn [fst snd].
    + unfold standsFor, written.
      cbn [t_addSpace t_write resetSpace t_state t_output t_space].
      rewrite Htx, app_nil_r, Hw.
      split; [discriminate|]. split; [lia|]. split; [reflexivity|].
      split; [reflexivity|discriminate].
    + destruct (Ascii.eqb b Ch.nl || Ascii.eqb b Ch.ff) eqn:E2; cbn [fst snd].
      * unfold standsFor, written. cbn [t_write resetSpace t_state t_output t_space].
        rewrite app_nil_r, Hw.
        split; [discriminate|]. split; [lia|]. split; [reflexivity|].
        split; [reflexivity|discriminate].
      * unfold standsFor, written. rewrite Est, Hsnoc, app_assoc, Hw, Htx, (Hbt eq_refl).
        cbn [app].
        split; [discriminate|]. split; [lia|]. split; [reflexivity|].
        split; [discriminate|reflexivity].
Qed.

Lemma Write_loop_standsFor (rest pre : bytes) (m : nat) (t : trimmer) (os : bytes * bytes) :
  noEscape rest = true ->
  standsFor (pre ++ rest) m (length pre) t os ->
  standsFor (pre ++ rest)
    (snd (Write_loop (pre ++ rest) rest (length pre) m t)) (length (pre ++ rest))
    (fst (Write_loop (pre ++ rest) rest (length pre) m t)) (trimBytes rest os).
Proof.
  revert pre m t os. induction rest as [|b0 rest IH]; intros pre m t os Hne Hs.
  - cbn [Write_loop trimBytes fold_left fst snd]. rewrite app_nil_r in *. exact Hs.
  - cbn [Write_loop]. cbn [noEscape forallb] in Hne.
    apply andb_true_iff in Hne as [Hb Hrest]. apply negb_true_iff in Hb.
    pose proof (Write_step_standsFor pre rest b0 m t os Hb Hs) as Hstep.
    destruct (Write_step (pre ++ b0 :: rest) (length pre) b0 m t) as [t1 m1].
    cbn [fst snd] in Hstep.
    specialize (IH (pre ++ [b0]) m1 t1 (trimStep os b0) Hrest).
    rewrite <- !app_assoc in IH. cbn [app] in IH.
    rewrite length_app in IH. cbn [length] in IH. rewrite Nat.add_1_r in IH.
    apply IH. exact Hstep.
Qed.

(** [Write] on data without escapes, from a trimmer outside text and
    escapes, is the byte-wise function. *)
Lemma Write_trimBytes (data : bytes) (t : trimmer) :
  noEscape data = true -> t_state t = inSpace ->
  Write data t
  = {| t_output := fst (trimBytes data (t_output t, t_space t));
       t_state := inSpace;
       t_space := snd (trimBytes data (t_output t, t_space t)) |}.
Proof.
  intros Hne Hst.
  assert (Hinit : standsFor ([] ++ data) 0 (length (@nil ascii)) t (t_output t, t_space t)).
  { unfold standsFor, written. rewrite Hst. cbn [fst snd length].
    split; [discriminate|]. split; [lia|]. split; [apply app_nil_r|].
    split; [reflexivity|discriminate]. }
  pose proof (Write_loop_standsFor data [] 0 t _ Hne Hinit) as Hloop.
  cbn [app length] in Hloop. unfold Write.
  destruct (Write_loop data data 0 0 t) as [t' m]. cbn [fst snd] in Hloop.
  destruct Hloop as (Hst' & Hm & Hw & Hsp & Htx). unfold written in Hw.
  destruct t' as [o st sp]. cbn [t_state t_output t_space] in *.
  destruct st; [|contradiction|].
  - rewrite app_nil_r in Hw. rewrite <- Hw, <- (Hsp eq_refl). reflexivity.
  - unfold resetSpace, t_write. cbn [t_output t_state t_space].
    rewrite Hw, (Htx eq_refl). reflexivity.
Qed.

(** X9: on data without escapes the trimmer does not depend on how the
    data is cut into calls of [Write]: writing [a] and then [b] leaves
    the trimmer (its output, and the white space it holds back) as
    writing [a ++ b] at once does. *)
Theorem X9_trimmer_chunks (a b : bytes) (t : trimmer) :
  noEscape a = true -> noEscape b = true -> t_state t = inSpace ->
  Write b (Write a t) = Write (a ++ b) t.
Proof.
  intros Ha Hb Hst.
  assert (Hab : noEscape (a ++ b) = true).
  { unfold noEscape in *. rewrite forallb_app, Ha, Hb. reflexivity. }
  rewrite (Write_trimBytes (a ++ b) t Hab Hst), (Write_trimBytes a t Ha Hst).
  rewrite Write_trimBytes by (exact Hb || reflexivity).
  cbn [t_output t_space]. unfold trimBytes. rewrite fold_left_app.
  rewrite <- surjective_pairing. reflexivity.
Qed.

Lemma X9_trimmer_chunks_witness :
  Write (bs " " ++ [Ch.nl] ++ bs "b") (Write (bs "a ") trimmer_new)
  = Write (bs "a " ++ bs " " ++ [Ch.nl] ++ bs "b") trimmer_new.
Proof.
  apply (X9_trimmer_chunks (bs "a ") (bs " " ++ [Ch.nl] ++ bs "b") trimmer_new);
    reflexivity.
Defined.

(** A byte that is no blank and no tab, as the trimmer reads it. *)
Definition keptByte (b : ascii) : bool :=
  negb (Ascii.eqb b Ch.ht || Ascii.eqb b Ch.sp || Ascii.eqb b Ch.vt).

(** A formfeed is written as a newline. *)
Definition asNewline (b : ascii) : ascii := if Ascii.eqb b Ch.ff then Ch.nl else b.

Lemma filter_blanks (sp : bytes) :
  forallb isBlankTab sp = true -> List.filter keptByte sp = [].
Proof.
  induction sp as [|b sp IH]; intros H; cbn [forallb List.filter] in *; [reflexivity|].
  apply andb_true_iff in H as [Hb Hsp]. unfold keptByte. unfold isBlankTab in Hb.
  rewrite Hb. cbn [orb negb]. exact (IH Hsp).
Qed.

Lemma trimStep_kept (os : bytes * bytes) (b0 : ascii) :
  forallb isBlankTab (snd os) = true ->
  forallb isBlankTab (snd (trimStep os b0)) = true
  /\ List.filter keptByte (fst (trimStep os b0))
     = List.filter keptByte (fst os) ++ map asNewline (List.filter keptByte [b0]).
Proof.
  intros Hsp. unfold trimStep.
  destruct (Ascii.eqb b0 Ch.vt) eqn:Evt.
  - apply Ascii.eqb_eq in Evt. subst b0.
    change (Ascii.eqb Ch.ht Ch.ht || Ascii.eqb Ch.ht Ch.sp) with true. cbn [fst snd].
    rewrite forallb_app, Hsp. split; [reflexivity|].
    change (List.filter keptByte [Ch.vt]) with (@nil ascii). cbn [map].
    now rewrite app_nil_r.
  - assert (Hk : keptByte b0 = negb (Ascii.eqb b0 Ch.ht || Ascii.eqb b0 Ch.sp)).
    { unfold keptByte. rewrite Evt, orb_false_r. reflexivity. }
    cbn [List.filter]. rewrite Hk.
    destruct (Ascii.eqb b0 Ch.ht || Ascii.eqb b0 Ch.sp) eqn:E1; cbn [fst snd negb map].
    + rewrite forallb_app, Hsp. cbn [forallb]. unfold isBlankTab. rewrite E1.
      split; [reflexivity|now rewrite app_nil_r].
    + split; [destruct (Ascii.eqb b0 Ch.nl || Ascii.eqb b0 Ch.ff); reflexivity|].
      unfold asNewline.
      destruct (Ascii.eqb b0 Ch.nl) eqn:Enl; cbn [orb fst].
      * apply Ascii.eqb_eq in Enl. subst b0. rewrite List.filter_app. reflexivity.
      * destruct (Ascii.eqb b0 Ch.ff) eqn:Eff; cbn [fst].
        -- rewrite List.filter_app. reflexivity.
        -- rewrite !List.filter_app, (filter_blanks _ Hsp). cbn [List.filter app].
           rewrite Hk. reflexivity.
Qed.

Lemma trimBytes_kept (data : bytes) (os : bytes * bytes) :
  forallb isBlankTab (snd os) = true ->
  forallb isBlankTab (snd (trimBytes data os)) = true
  /\ List.filter keptByte (fst (trimBytes data os))
     = List.filter keptByte (fst os) ++ map asNewline (List.filter keptByte data).
Proof.
  revert os. induction data as [|b data IH]; intros os Hsp; cbn [trimBytes fold_left].
  - cbn. rewrite app_nil_r. split; [exact Hsp|reflexivity].
  - destruct (trimStep_kept os b Hsp) as [H1 H2].
    destruct (IH (trimStep os b) H1) as [H3 H4]. split; [exact H3|].
    unfold trimBytes in H4. rewrite H4, H2, <- app_assoc.
    change (b :: data) with ([b] ++ data).
    rewrite (List.filter_app _ [b] data), map_app. reflexivity.
Qed.

(** X10: on data without escapes the trimmer takes away blanks and tabs
    (and vertical tabs) only: every other byte of the data is in the
    output, in the order of the data, a formfeed as a newline, and the
    output holds no other byte that is no blank and no tab. *)
Theorem X10_trimmer_keeps_text (data : bytes) :
  noEscape data = true ->
  List.filter keptByte (t_output (Write data trimmer_new))
  = map asNewline (List.filter keptByte data).
Proof.
  intros Hne. rewrite (Write_trimBytes data trimmer_new Hne eq_refl).
  cbn [t_output trimmer_new t_space].
  destruct (trimBytes_kept data ([], []) eq_refl) as [_ H]. exact H.
Qed.

Lemma X10_trimmer_keeps_text_witness :
  List.filter keptByte (t_output (Write (bs "a  b " ++ [Ch.ff] ++ bs " c") trimmer_new))
  = bs "ab" ++ [Ch.nl] ++ bs "c".
Proof.
  apply (X10_trimmer_keeps_text (bs "a  b " ++ [Ch.ff] ++ bs " c")). reflexivity.
Defined.

(** *** The trimmer on its own output *)

Lemma blanks_not_trailing (sp : bytes) :
  forallb isBlankTab sp = true -> noTrailingBlank sp = true -> sp = [].
Proof.
  intros Hsp. induction sp as [|b sp IH]; [reflexivity|].
  cbn [forallb] in Hsp. apply andb_true_iff in Hsp as [Hb Hsp'].
  cbn [noTrailingBlank]. intros H. apply andb_true_iff in H as [H1 H2].
  specialize (IH Hsp' H2). subst sp. rewrite Hb in H1. discriminate H1.
Qed.

Lemma noTrailingBlank_suffix (a b : bytes) :
  noTrailingBlank (a ++ b) = true -> noTrailingBlank b = true.
Proof.
  induction a as [|x a IH]; cbn [app noTrailingBlank]; [auto|].
  intros H. apply andb_true_iff in H as [_ H]. exact (IH H).
Qed.

Lemma blanks_before_newline (sp r : bytes) :
  forallb isBlankTab sp = true ->
  noTrailingBlank (sp ++ Ch.nl :: r) = true -> sp = [].
Proof.
  intros Hsp. induction sp as [|b sp IH]; [reflexivity|].
  cbn [forallb] in Hsp. apply andb_true_iff in Hsp as [Hb Hsp'].
  cbn [app noTrailingBlank]. intros H. apply andb_true_iff in H as [H1 H2].
  specialize (IH Hsp' H2). subst sp. cbn [app] in H1. rewrite Hb in H1.
  discriminate H1.
Qed.

Lemma trimBytes_clean (s o sp : bytes) :
  forallb isBlankTab sp = true ->
  noTrailingBlank (sp ++ s) = true ->
  noFFVT s = true ->
  trimBytes s (o, sp) = (o ++ sp ++ s, []).
Proof.
  revert o sp. induction s as [|b s IH]; intros o sp Hsp Hnt Hff.
  - rewrite app_nil_r in Hnt. rewrite (blanks_not_trailing sp Hsp Hnt).
    cbn. rewrite app_nil_r. reflexivity.
  - cbn [noFFVT forallb] in Hff. apply andb_true_iff in Hff as [Hb Hff].
    apply negb_true_iff, orb_false_iff in Hb as [Hbff Hbvt].
    cbn [trimBytes fold_left]. unfold trimStep at 2. rewrite Hbvt. cbn [fst snd].
    destruct (Ascii.eqb b Ch.ht || Ascii.eqb b Ch.sp) eqn:E1.
    + fold (trimBytes s (o, sp ++ [b])). rewrite IH.
      * rewrite <- !app_assoc. reflexivity.
      * rewrite forallb_app, Hsp. cbn [forallb]. unfold isBlankTab. rewrite E1. reflexivity.
      * rewrite <- app_assoc. exact Hnt.
      * exact Hff.
    + rewrite Hbff, orb_false_r.
      destruct (Ascii.eqb_spec b Ch.nl) as [->|Hnl].
      * assert (sp = []) as -> by apply (blanks_before_newline sp s Hsp Hnt).
        fold (trimBytes s (o ++ aNewline, [])). rewrite IH; [|reflexivity| |exact Hff].
        -- unfold aNewline. rewrite <- !app_assoc. reflexivity.
        -- apply (noTrailingBlank_suffix [Ch.nl]). exact Hnt.
      * fold (trimBytes s (o ++ sp ++ [b], [])). rewrite IH; [|reflexivity| |exact Hff].
        -- rewrite <- !app_assoc. reflexivity.
        -- apply (noTrailingBlank_suffix (sp ++ [b])). rewrite <- app_assoc. exact Hnt.
Qed.

Lemma trimBytes_noEscape (data : bytes) (os : bytes * bytes) :
  noEscape data = true -> noEscape (fst os) = true -> noEscape (snd os) = true ->
  noEscape (fst (trimBytes data os)) = true /\ noEscape (snd (trimBytes data os)) = true.
Proof.
  revert os. induction data as [|b data IH]; intros os Hd Ho Hs; cbn [trimBytes fold_left].
  - split; assumption.
  - cbn [noEscape forallb] in Hd. apply andb_true_iff in Hd as [Hb Hd].
    apply IH; [exact Hd| |]; unfold trimStep, noEscape in *;
      destruct (Ascii.eqb b Ch.vt);
      repeat match goal with |- context [if ?c then _ else _] => destruct c end;
      cbn [fst snd]; rewrite ?forallb_app, ?Ho, ?Hs; cbn [forallb andb];
      rewrite ?Hb; reflexivity.
Qed.

Lemma Write_good (data : bytes) :
  noEscape data = true -> good (t_output (Write data trimmer_new)).
Proof.
  intros Hne.
  assert (Hinit : trimInv ([] ++ data) 0 (length (@nil ascii)) trimmer_new).
  { unfold trimInv, written, good. cbn. repeat split; try discriminate; lia. }
  pose proof (Write_loop_inv data [] 0 trimmer_new Hne Hinit) as Hloop.
  cbn [app length] in Hloop. unfold Write.
  destruct (Write_loop data data 0 0 trimmer_new) as [t m].
  destruct Hloop as (Hst & Hsp & Hm & Hg & Hcount).
  unfold written in *.
  destruct (t_state t) eqn:Est; [|contradiction|];
    cbn [resetSpace t_write t_output t_state]; rewrite ?app_nil_r in *; exact Hg.
Qed.

(** X11: the trimmer changes nothing of what it has trimmed: the output
    for data without escapes, written to a new trimmer, is its output
    again. *)
Theorem X11_trimmer_idempotent (data : bytes) :
  noEscape data = true ->
  t_output (Write (t_output (Write data trimmer_new)) trimmer_new)
  = t_output (Write data trimmer_new).
Proof.
  intros Hne.
  destruct (Write_good data Hne) as [Hg1 Hg2].
  assert (Hne' : noEscape (t_output (Write data trimmer_new)) = true).
  { rewrite (Write_trimBytes data trimmer_new Hne eq_refl). cbn [t_output].
    apply (trimBytes_noEscape data ([], []) Hne); reflexivity. }
  rewrite (Write_trimBytes _ trimmer_new Hne' eq_refl). cbn [t_output trimmer_new t_space].
  rewrite trimBytes_clean; [reflexivity|reflexivity|exact Hg1|exact Hg2].
Qed.

Lemma X11_trimmer_idempotent_witness :
  t_output (Write (t_output (Write (bs "a  " ++ [Ch.ff] ++ bs " b ") trimmer_new)) trimmer_new)
  = bs "a" ++ [Ch.nl] ++ bs " b".
Proof.
  rewrite (X11_trimmer_idempotent (bs "a  " ++ [Ch.ff] ++ bs " b ")); reflexivity.
Defined.

(** *** The common prefix *)

(** X12: [commonPrefix a b] is the longest string of bytes not above
    [' '] that both [a] and [b] begin with: it is a prefix of both, it is
    blank in the sense of [isBlank], and every blank prefix of both is a
    prefix of it.  (Equal bytes above [' '] end it: it is not the common
    prefix of [a] and [b] in general.) *)
Theorem X12_commonPrefix_longest_blank (a b : bytes) :
  (exists ra, a = commonPrefix a b ++ ra)
  /\ (exists rb, b = commonPrefix a b ++ rb)
  /\ isBlank (commonPrefix a b) = true
  /\ (forall q ra rb, a = q ++ ra -> b = q ++ rb -> isBlank q = true ->
      exists r, commonPrefix a b = q ++ r)
  /\ (isBlank a = true -> commonPrefix a a = a).
Proof.
  split; [|split; [|split; [|split]]].
  - revert b. induction a as [|x a IH]; intros b; [now exists []|].
    destruct b as [|y b]; [now exists (x :: a)|]. cbn [commonPrefix].
    destruct (Ascii.eqb x y && (N_of_ascii x <=? 32)%N); [|now exists (x :: a)].
    destruct (IH b) as [ra E]. exists ra. cbn [app]. now rewrite <- E.
  - revert b. induction a as [|x a IH]; intros b; [now exists b|].
    destruct b as [|y b]; [now exists []|]. cbn [commonPrefix].
    destruct (Ascii.eqb_spec x y) as [->|Hxy]; cbn [andb]; [|now exists (y :: b)].
    destruct (N_of_ascii y <=? 32)%N; [|now exists (y :: b)].
    destruct (IH b) as [rb E]. exists rb. cbn [app]. now rewrite <- E.
  - revert b. induction a as [|x a IH]; intros b; [reflexivity|].
    destruct b as [|y b]; [reflexivity|]. cbn [commonPrefix].
    destruct (Ascii.eqb x y); cbn [andb]; [|reflexivity].
    destruct (N.leb_spec (N_of_ascii x) 32) as [Hle|Hgt]; [|reflexivity].
    cbn [isBlank forallb]. fold (isBlank (commonPrefix a b)). rewrite IH.
    destruct (N.ltb_spec 32 (N_of_ascii x)); [lia|reflexivity].
  - intros q. revert a b. induction q as [|c q IH]; intros a b ra rb Ha Hb Hq.
    + now exists (commonPrefix a b).
    + subst a b. cbn [app commonPrefix]. rewrite Ascii.eqb_refl. cbn [andb].
      cbn [isBlank forallb] in Hq. apply andb_true_iff in Hq as [Hc Hq].
      apply negb_true_iff, N.ltb_ge in Hc.
      destruct (N.leb_spec (N_of_ascii c) 32) as [_|Hgt]; [|lia].
      destruct (IH (q ++ ra) (q ++ rb) ra rb eq_refl eq_refl Hq) as [r E].
      exists r. cbn [app]. now rewrite E.
  - induction a as [|x a IH]; intros Ha; [reflexivity|].
    cbn [isBlank forallb] in Ha. apply andb_true_iff in Ha as [Hx Ha].
    apply negb_true_iff, N.ltb_ge in Hx.
    cbn [commonPrefix]. rewrite Ascii.eqb_refl. cbn [andb].
    destruct (N.leb_spec (N_of_ascii x) 32) as [_|Hgt]; [|lia].
    rewrite (IH Ha). reflexivity.
Qed.

(** *** Code without comments and literals, end to end *)

(** The printer has written no escape, stands on no comment group, and
    writes no //line comments. *)
Definition plain (p : printer) : Prop :=
  noEscape (p_output p) = true /\ p_comment p = None
  /\ Z.land (Mode (p_Config p)) SourcePos = 0.

Lemma noEscape_app (a b : bytes) : noEscape (a ++ b) = noEscape a && noEscape b.
Proof. apply forallb_app. Qed.

Lemma noEscape_repeat (c : ascii) (n : nat) :
  Ascii.eqb c Ch.Escape = false -> noEscape (repeat c n) = true.
Proof.
  intros Hc. induction n as [|n IH]; [reflexivity|].
  cbn [repeat noEscape forallb]. rewrite Hc. exact IH.
Qed.

Lemma plain_lineBeginIf (pos : Position) (p : printer) :
  plain p -> noEscape (lineBeginIf pos p) = true.
Proof.
  intros (_ & _ & Hm). unfold lineBeginIf, lineBeginText. rewrite Hm.
  destruct (Column (p_out p) =? 1); [|reflexivity].
  cbn [Z.eqb negb andb app]. apply noEscape_repeat. reflexivity.
Qed.

Lemma plain_writeByte (ch : ascii) (n : Z) (p : printer) :
  Ascii.eqb ch Ch.Escape = false -> plain p -> plain (writeByte ch n p).
Proof.
  intros Hch Hp. pose proof Hp as (Ho & Hc & Hm).
  pose proof (writeByte_cursor ch n p) as Hs.
  assert (E1 : p_comment (writeByte ch n p) = p_comment p) by apply Hs.
  assert (E2 : p_Config (writeByte ch n p) = p_Config p) by apply Hs.
  split; [|split; [congruence|rewrite E2; exact Hm]].
  rewrite writeByte_output, !noEscape_app, Ho, (plain_lineBeginIf _ _ Hp),
    (noEscape_repeat _ _ Hch). reflexivity.
Qed.

Lemma plain_writeString (pos : Position) (s : bytes) (p : printer) :
  noEscape s = true -> plain p -> plain (writeString pos s false p).
Proof.
  intros Hs Hp. pose proof Hp as (Ho & Hc & Hm).
  pose proof (writeString_quiet pos s false p) as (Hq & _ & _).
  assert (E1 : p_comment (writeString pos s false p) = p_comment p) by apply Hq.
  assert (E2 : p_Config (writeString pos s false p) = p_Config p) by apply Hq.
  split; [|split; [congruence|rewrite E2; exact Hm]].
  rewrite writeString_output, !noEscape_app, Ho, (plain_lineBeginIf _ _ Hp), Hs. reflexivity.
Qed.

Lemma plain_same (p q : printer) :
  p_output q = p_output p -> p_comment q = p_comment p -> p_Config q = p_Config p ->
  plain p -> plain q.
Proof. intros E1 E2 E3 (Ho & Hc & Hm). unfold plain. rewrite E1, E2, E3. auto. Qed.

Lemma whiteSpace_byte_noEscape (ch : whiteSpace) :
  Ascii.eqb (whiteSpace_byte ch) Ch.Escape = false.
Proof. destruct ch; reflexivity. Qed.

Lemma plain_writeEntries (l : list whiteSpace) (p p' : printer) :
  writeEntries l p = Ok (tt, p') -> plain p -> plain p'.
Proof.
  remember (entriesMeasure l) as k eqn:Hk.
  revert l p Hk. induction k as [k IH] using lt_wf_ind. intros l p -> He Hp.
  destruct l as [|ch r].
  - rewrite writeEntries_unfold_eq in He. cbn in He. inversion He; subst. exact Hp.
  - rewrite writeEntries_cons in He.
    assert (Hpop : forall q, writeEntries r q = Ok (tt, p') -> plain q -> plain p').
    { intros q Hq. apply (IH (entriesMeasure r)) with (l := r) (p := q);
        [|reflexivity|exact Hq].
      unfold entriesMeasure. pose proof (swapPending_le r). cbn [length]. lia. }
    assert (Hswap : forall r', r = unindent :: r' -> isLinebreak ch = true ->
                writeEntries (unindent :: formfeed :: r') p = Ok (tt, p') -> plain p').
    { intros r' -> Hch Hq.
      apply (IH (entriesMeasure (unindent :: formfeed :: r')))
        with (l := unindent :: formfeed :: r') (p := p); [|reflexivity|exact Hq|exact Hp].
      unfold entriesMeasure. cbn [length swapPending isLinebreak]. rewrite Hch. lia. }
    assert (Hwb : forall c, plain (writeByte (whiteSpace_byte c) 1 p)).
    { intros c. apply plain_writeByte; [apply whiteSpace_byte_noEscape|exact Hp]. }
    destruct ch.
    + apply (Hpop _ He Hp).
    + apply (Hpop _ He (Hwb _)).
    + apply (Hpop _ He (Hwb _)).
    + destruct r as [|[] r']; try apply (Hpop _ He (Hwb _)). apply (Hswap r' eq_refl eq_refl He).
    + destruct r as [|[] r']; try apply (Hpop _ He (Hwb _)). apply (Hswap r' eq_refl eq_refl He).
    + apply (Hpop _ He). revert Hp. apply plain_same; reflexivity.
    + apply (Hpop _ He). revert Hp. apply plain_same;
        [apply unindented_output|apply unindented_cursor|apply unindented_cursor].
Qed.

Lemma plain_writeWhitespace (n : nat) (p p' : printer) :
  writeWhitespace n p = Ok (tt, p') -> plain p -> plain p'.
Proof.
  unfold writeWhitespace. intros H Hp.
  destruct (length (p_wsbuf p) <? n)%nat; [discriminate H|].
  destruct (writeEntries (take n (p_wsbuf p)) p) as [[[] q]|] eqn:E; [|discriminate H].
  injection H as <-. pose proof (plain_writeEntries _ _ _ E Hp) as Hq.
  revert Hq. apply plain_same; reflexivity.
Qed.

(** Without a comment group to stand on, a flush that returns has
    written whitespace only. *)
Lemma plain_flush (next : Position) (tok : Token) (p p' : printer) (flags : bool * bool) :
  flush next tok p = Ok (flags, p') -> plain p -> plain p'.
Proof.
  unfold flush. intros H Hp. unfold bind at 1, get in H.
  destruct (commentBefore p next) eqn:Hcb.
  - exfalso. unfold intersperseComments in H. unfold bind at 1, get in H.
    cbn [writeGroups] in H. unfold bind at 1 in H. unfold bind at 1, get in H.
    rewrite Hcb in H. destruct Hp as (_ & Hc & _). rewrite Hc in H. discriminate H.
  - apply bind_Ok in H as ([] & p1 & H1 & H). injection H as _ <-.
    apply (plain_writeWhitespace _ _ _ H1 Hp).
Qed.

Lemma plain_printData (data : bytes) (semi : bool) (p p' : printer) :
  noEscape data = true ->
  printData data false semi p = Ok (tt, p') -> plain p -> plain p'.
Proof.
  intros Hd H Hp. unfold printData in H.
  apply bind_Ok in H as (q & p0 & Hg & H). injection Hg as <- <-.
  apply bind_Ok in H as ([w d] & p1 & H1 & H).
  apply bind_Ok in H as (semi' & p2 & H2 & H).
  apply bind_Ok in H as ([] & p3 & H3 & H).
  injection H3 as <-. injection H as <-.
  pose proof (plain_flush _ _ _ _ _ H1 Hp) as Hp1.
  assert (Hp2 : plain p2).
  { unfold intersperseNewlines in H2.
    apply bind_Ok in H2 as (q & p1' & Hg & H2). injection Hg as <- <-.
    destruct (0 <? newlineCount (p_pos p) w p1).
    - apply bind_Ok in H2 as ([] & p2' & H2 & H2'). injection H2 as <-. injection H2' as _ <-.
      apply plain_writeByte; [destruct d; reflexivity|exact Hp1].
    - injection H2 as _ <-. exact Hp1. }
  pose proof (plain_writeString (p_pos p) data p2 Hd Hp2) as Hp3.
  revert Hp3. apply plain_same; reflexivity.
Qed.

(** An argument of [print] without a literal: a mode, white space, an
    identifier without the escape byte, a token or a position. *)
Definition plainItem (a : arg) : Prop :=
  match a with
  | A_pmode _ | A_whiteSpace _ | A_Token _ | A_Pos _ => True
  | A_Ident Name => noEscape Name = true
  | _ => False
  end.

Lemma Token_String_noEscape (x : Token) : noEscape (Token_String x) = true.
Proof. destruct x; reflexivity. Qed.

Lemma plain_print1 (a : arg) (p p' : printer) :
  plainItem a -> print1 a p = Ok (tt, p') -> plain p -> plain p'.
Proof.
  intros Ha H Hp. destruct a as [x|x|Name|Kind Value|x|x|x|]; cbn [print1 plainItem] in *;
    try contradiction.
  - injection H as <-. revert Hp. apply plain_same; reflexivity.
  - destruct (whiteSpace_eq_ignore x) as [->|Hx]; [injection H as <-; exact Hp|].
    assert (E : print1 (A_whiteSpace x) p
                = (q <- get ;;
                   (if (length (p_wsbuf q) =? wsbuf_cap)%nat
                    then writeWhitespace (length (p_wsbuf q)) else ret tt) ;;
                   step (fun p => set_wsbuf (p_wsbuf p ++ [x]) p) ;;
                   (if isLinebreak x then step (set_impliedSemi false) else ret tt) ;;
                   step (set_lastTok ILLEGAL)) p).
    { destruct x; try reflexivity. contradiction. }
    cbn [print1] in E. rewrite E in H. clear E.
    apply bind_Ok in H as (q & p0 & Hg & H). injection Hg as <- <-.
    apply bind_Ok in H as ([] & p1 & H1 & H).
    assert (Hp1 : plain p1).
    { destruct (_ =? _)%nat; [apply (plain_writeWhitespace _ _ _ H1 Hp)|].
      injection H1 as <-. exact Hp. }
    apply bind_Ok in H as ([] & p2 & H2 & H). injection H2 as <-.
    apply bind_Ok in H as ([] & p3 & H3 & H). injection H as <-.
    destruct (isLinebreak x); injection H3 as <-; revert Hp1; apply plain_same; reflexivity.
  - apply bind_Ok in H as ([] & p1 & H1 & H). injection H1 as <-.
    apply (plain_printData _ _ _ _ Ha H). revert Hp. apply plain_same; reflexivity.
  - pose proof (Token_String_noEscape x) as Hts.
    destruct (Token_String x) as [|s0 s'] eqn:Es; [discriminate H|].
    apply bind_Ok in H as (q & p0 & Hg & H). injection Hg as <- <-.
    apply bind_Ok in H as ([] & p1 & H1 & H).
    apply bind_Ok in H as ([] & p2 & H2 & H). injection H2 as <-.
    assert (Hp1 : plain p1).
    { destruct (mayCombine (p_lastTok p) s0); [|injection H1 as <-; exact Hp].
      apply bind_Ok in H1 as ([] & p1' & H1 & H1'). injection H1' as <-.
      destruct (negb _); injection H1 as <-; revert Hp; apply plain_same; reflexivity. }
    apply (plain_printData _ _ _ _ Hts H). revert Hp1. apply plain_same; reflexivity.
  - destruct (Pos_IsValid x); injection H as <-; [|exact Hp].
    revert Hp. apply plain_same; reflexivity.
Qed.

Lemma plain_print (args : list arg) (p p' : printer) :
  Forall plainItem args -> print args p = Ok (tt, p') -> plain p -> plain p'.
Proof.
  intros Hall. revert p. induction Hall as [|a args Ha _ IH]; intros p H Hp; cbn [print] in H.
  - injection H as <-. exact Hp.
  - apply bind_Ok in H as ([] & p1 & H1 & H).
    apply (IH _ H). apply (plain_print1 _ _ _ Ha H1 Hp).
Qed.

(** X15: code without comments and literals, end to end: when [fprint]
    with [SourcePos] off returns for items that are modes, white space,
    identifiers, tokens and positions, no line of its output ends in a
    blank or a tab, and the output holds no formfeed, no vertical tab and
    no escape byte. *)
Theorem X15_fprint_plain_trimmed (cfg : Config) (fset : Z -> Position) (items : list arg)
    (out : bytes) :
  Z.land (Mode cfg) SourcePos = 0 ->
  Forall plainItem items ->
  fprint cfg fset [] items = Ok out ->
  noTrailingBlank out = true /\ noFFVT out = true /\ noEscape out = true.
Proof.
  intros Hm Hall H. unfold fprint in H.
  set (p0 := nextComment (set_comments [] (init cfg fset))) in H.
  assert (Hp0 : plain p0).
  { subst p0. unfold plain. cbn. repeat split. exact Hm. }
  destruct ((print items ;; step (set_impliedSemi false) ;;
             flush {| Filename := []; Offset := infinity; Line := infinity; Column := 0 |} EOF)
              p0) as [[flags p3]|msg] eqn:E; [|discriminate H].
  injection H as <-.
  apply bind_Ok in E as ([] & p1 & H1 & E).
  apply bind_Ok in E as ([] & p2 & H2 & E). injection H2 as <-.
  pose proof (plain_print _ _ _ Hall H1 Hp0) as Hp1.
  assert (Hp3 : plain p3).
  { apply (plain_flush _ _ _ _ _ E). revert Hp1. apply plain_same; reflexivity. }
  destruct Hp3 as (Hne & _ & _).
  destruct (Write_good _ Hne) as [Hg1 Hg2].
  split; [exact Hg1|]. split; [exact Hg2|].
  rewrite (Write_trimBytes _ trimmer_new Hne eq_refl). cbn [t_output].
  apply (trimBytes_noEscape _ ([], []) Hne); reflexivity.
Qed.

Lemma X15_fprint_plain_trimmed_witness :
  exists out,
    fprint rawConfig fset100 []
      [A_Token FUNC; A_whiteSpace blank; A_Ident (bs "f"); A_Token LPAREN; A_Token RPAREN;
       A_whiteSpace blank; A_whiteSpace newline] = Ok out
    /\ noTrailingBlank out = true /\ noFFVT out = true /\ noEscape out = true.
Proof.
  assert (H : {out | fprint rawConfig fset100 []
                       [A_Token FUNC; A_whiteSpace blank; A_Ident (bs "f"); A_Token LPAREN;
                        A_Token RPAREN; A_whiteSpace blank; A_whiteSpace newline] = Ok out}).
  { eexists. vm_compute. reflexivity. }
  destruct H as [out E]. exists out. split; [exact E|].
  eapply (X15_fprint_plain_trimmed rawConfig fset100); [reflexivity| |exact E].
  repeat constructor.
Defined.

(** *** What a flush leaves pending *)

Lemma commentBefore_sameCursor (p p' : printer) (next : Position) :
  sameCursor p p' -> commentBefore p' next = commentBefore p next.
Proof.
  intros Hs. unfold commentBefore.
  assert (E1 : p_commentOffset p' = p_commentOffset p) by apply Hs.
  assert (E2 : p_impliedSemi p' = p_impliedSemi p) by apply Hs.
  assert (E3 : p_commentNewline p' = p_commentNewline p) by apply Hs.
  rewrite E1, E2, E3. reflexivity.
Qed.

(** A result that is known is the one a call that returns calmly has. *)
Lemma returnsAt_Ok {A} (m : M A) (p p' : printer) (a : A) :
  returnsAt m p -> m p = Ok (a, p') -> calm p p'.
Proof.
  intros (a0 & p0 & E & Hc) H. rewrite E in H. injection H as _ <-. exact Hc.
Qed.

Lemma writeGroup_last (l : list Comment) (next : Position) (tok : Token)
    (last r : option Comment) (p p' : printer) :
  writeGroup l next tok last p = Ok (r, p') ->
  l <> [] \/ last <> None -> r <> None.
Proof.
  revert last p. induction l as [|c l IH]; intros last p H Hne; cbn [writeGroup] in H.
  - injection H as <- _. destruct Hne as [Hne|Hne]; [contradiction|exact Hne].
  - apply bind_Ok in H as ([] & p1 & _ & H).
    apply (IH _ _ H). right. discriminate.
Qed.

Lemma writeGroups_done (fuel : nat) (next : Position) (tok : Token)
    (last r : option Comment) (p p' : printer) :
  writeGroups fuel next tok last p = Ok (r, p') ->
  commentBefore p' next = false
  /\ (last <> None -> r <> None)
  /\ (commentBefore p next = true ->
      (forall g, p_comment p = Some g -> List g <> []) -> r <> None).
Proof.
  revert last p. induction fuel as [|fuel IH]; intros last p H; cbn [writeGroups] in H;
    unfold bind at 1, get in H.
  - destruct (commentBefore p next) eqn:Hcb; [discriminate H|].
    injection H as <- <-. split; [exact Hcb|]. split; [auto|discriminate].
  - destruct (commentBefore p next) eqn:Hcb.
    + destruct (p_comment p) as [g|] eqn:Eg; [|discriminate H].
      apply bind_Ok in H as (last1 & p1 & H1 & H).
      apply bind_Ok in H as ([] & p2 & H2 & H). injection H2 as <-.
      destruct (IH _ _ H) as (Hd & Hl & _).
      split; [exact Hd|]. split.
      * intros Hne. apply Hl. apply (writeGroup_last _ _ _ _ _ _ _ H1). right. exact Hne.
      * intros _ Hg. apply Hl. apply (writeGroup_last _ _ _ _ _ _ _ H1).
        left. apply (Hg g eq_refl).
    + injection H as <- <-. split; [exact Hcb|]. split; [auto|discriminate].
Qed.

Lemma writeCommentSuffix_wsbuf (needs : bool) (p p' : printer) (flags : bool * bool) :
  writeCommentSuffix needs p = Ok (flags, p') -> p_wsbuf p' = [].
Proof.
  unfold writeCommentSuffix. intros H.
  apply bind_Ok in H as (q & p0 & Hg & H). injection Hg as <- <-.
  destruct (scanSuffix needs false false (p_wsbuf p)) as [[[ws n] w] d].
  apply bind_Ok in H as ([] & p1 & H1 & H). injection H1 as <-.
  apply bind_Ok in H as ([] & p2 & H2 & H).
  assert (E2 : p_wsbuf p2 = []).
  { destruct (writeWhitespace_ok (length ws) (set_wsbuf ws p) (Nat.le_refl _))
      as (q & Eq & _ & Hw & _).
    cbn [p_wsbuf set_wsbuf] in Eq, Hw. rewrite Eq in H2. injection H2 as <-.
    rewrite Hw. apply drop_all. }
  destruct n.
  - apply bind_Ok in H as ([] & p3 & H3 & H). injection H3 as <-. injection H as _ <-.
    rewrite writeByte_wsbuf. exact E2.
  - injection H as _ <-. exact E2.
Qed.

(** X16: a flush that returns leaves nothing pending: no comment is left
    that belongs before the next item, and the whitespace buffer is
    empty (the group the cursor stands on holding a comment, as every
    group [nextComment] stops at does). *)
Theorem X16_flush_leaves_nothing (next : Position) (tok : Token) (p p' : printer)
    (flags : bool * bool) :
  (forall g, p_comment p = Some g -> List g <> []) ->
  flush next tok p = Ok (flags, p') ->
  commentBefore p' next = false /\ p_wsbuf p' = [].
Proof.
  intros Hg H. unfold flush in H. unfold bind at 1, get in H.
  destruct (commentBefore p next) eqn:Hcb.
  - unfold intersperseComments in H. unfold bind at 1, get in H.
    apply bind_Ok in H as (last & p1 & H1 & H).
    destruct (writeGroups_done _ _ _ _ _ _ _ H1) as (Hd & _ & Hl).
    specialize (Hl Hcb Hg).
    destruct last as [c|]; [|contradiction].
    unfold bind at 1, get in H.
    pose proof (returnsAt_Ok _ _ _ _ (returnsAt_writeCommentSuffix _ p1) H) as [Hs _].
    split; [|apply (writeCommentSuffix_wsbuf _ _ _ _ H)].
    rewrite (commentBefore_sameCursor _ _ next Hs). exact Hd.
  - apply bind_Ok in H as ([] & p1 & H1 & H). injection H as _ <-.
    destruct (writeWhitespace_ok (length (p_wsbuf p)) p (Nat.le_refl _))
      as (q & Eq & Hs & Hw & _).
    rewrite Eq in H1. injection H1 as <-.
    split; [|rewrite Hw; apply drop_all].
    rewrite (commentBefore_sameCursor _ _ next Hs). exact Hcb.
Qed.

Lemma X16_flush_leaves_nothing_witness :
  exists flags p',
    flush (fset100 250) FUNC
      (set_wsbuf [newline]
         (nextComment
            (set_comments [ {| List := [ {| Slash := 100; Text := bs "#c" |} ] |} ]
               (init rawConfig fset100)))) = Ok (flags, p')
    /\ commentBefore p' (fset100 250) = false /\ p_wsbuf p' = [].
Proof.
  assert (H : {r | flush (fset100 250) FUNC
                     (set_wsbuf [newline]
                        (nextComment
                           (set_comments [ {| List := [ {| Slash := 100; Text := bs "#c" |} ] |} ]
                              (init rawConfig fset100)))) = Ok r}).
  { eexists. vm_compute. reflexivity. }
  destruct H as [[flags p'] E]. exists flags, p'. split; [exact E|].
  eapply X16_flush_leaves_nothing; [|exact E].
  intros g Eg. vm_compute in Eg. injection Eg as <-. discriminate.
Defined.


End ToGoFacts.

(** ** The debug printer (ast/print.igo) *)

Module AstPrintFacts.
Import AstPrint.

(** What [Write] leaves alone. *)
Lemma Write_loop_ptrmap (data rest : bytes) (i n : nat) (p : printer) :
  pr_ptrmap (fst (Write_loop data rest i n p)) = pr_ptrmap p
  /\ pr_filter (fst (Write_loop data rest i n p)) = pr_filter p
  /\ pr_indent (fst (Write_loop data rest i n p)) = pr_indent p.
Proof.
  revert i n p. induction rest as [|b rest IH]; intros i n p; [repeat split|].
  cbn [Write_loop].
  destruct (Ascii.eqb b Ch.nl); [|destruct (Ascii.eqb (pr_last p) Ch.nl)];
    match goal with
    | |- context [Write_loop data rest ?i ?n ?q] => destruct (IH i n q) as (-> & -> & ->)
    end; repeat split.
Qed.

Lemma printf_ptrmap (text : bytes) (p : printer) :
  pr_ptrmap (printf text p) = pr_ptrmap p.
Proof.
  unfold printf, Write.
  pose proof (Write_loop_ptrmap text text 0 0 p) as (H & _ & _).
  destruct (Write_loop text text 0 0 p) as [q n]. cbn [fst] in H.
  destruct (n <? length text)%nat; exact H.
Qed.

Lemma printf_filter (text : bytes) (p : printer) :
  pr_filter (printf text p) = pr_filter p.
Proof.
  unfold printf, Write.
  pose proof (Write_loop_ptrmap text text 0 0 p) as (_ & H & _).
  destruct (Write_loop text text 0 0 p) as [q n]. cbn [fst] in H.
  destruct (n <? length text)%nat; exact H.
Qed.

(** A star is written into the current line. *)
Lemma printf_star_line (p : printer) : pr_line (printf (bs "*") p) = pr_line p.
Proof.
  unfold printf, Write. cbn [bs list_ascii_of_string Write_loop].
  change (Ascii.eqb "*" Ch.nl) with false. cbn iota.
  destruct (Ascii.eqb (pr_last p) Ch.nl); reflexivity.
Qed.

(** What is recorded stays recorded, with its line. *)
Definition keeps (p q : printer) : Prop :=
  forall a line, pr_ptrmap p !! a = Some line -> pr_ptrmap q !! a = Some line.

Lemma keeps_refl (p : printer) : keeps p p.
Proof. intros a line H. exact H. Qed.

Lemma keeps_trans (p q r : printer) : keeps p q -> keeps q r -> keeps p r.
Proof. intros H1 H2 a line H. apply H2, H1, H. Qed.

Lemma keeps_same (p q : printer) : pr_ptrmap q = pr_ptrmap p -> keeps p q.
Proof. intros E a line H. rewrite E. exact H. Qed.

Lemma keeps_printf (text : bytes) (p : printer) : keeps p (printf text p).
Proof. apply keeps_same, printf_ptrmap. Qed.

Section Termination.

Variable IsExported : bytes -> bool.
Variable heap : list value.

Lemma unprinted_mono (h : list value) (i : nat) (m m' : gmap nat Z) :
  (forall a line, m !! a = Some line -> m' !! a = Some line) ->
  (unprinted i h m' <= unprinted i h m)%nat.
Proof.
  intros Hk. revert i. induction h as [|v h IH]; intros i; cbn [unprinted]; [lia|].
  specialize (IH (S i)).
  destruct (m !! i) as [line|] eqn:E.
  - rewrite (Hk _ _ E). lia.
  - destruct (m' !! i); lia.
Qed.

Lemma unprinted_insert (h : list value) (i a : nat) (m : gmap nat Z) (line : Z) (v : value) :
  m !! a = None -> (i <= a)%nat -> h !! (a - i)%nat = Some v ->
  (unprinted i h (<[a := line]> m) + S (vsize v) <= unprinted i h m)%nat.
Proof.
  revert i. induction h as [|v0 h IH]; intros i Hm Hi Hv; [discriminate Hv|].
  cbn [unprinted].
  destruct (decide (a = i)) as [->|Hne].
  - rewrite Nat.sub_diag in Hv. injection Hv as ->.
    rewrite lookup_insert_eq, Hm.
    assert (Hmono : (unprinted (S i) h (<[i := line]> m) <= unprinted (S i) h m)%nat).
    { apply unprinted_mono. intros b l Hb.
      destruct (decide (i = b)) as [->|Hib]; [congruence|].
      rewrite lookup_insert_ne by exact Hib. exact Hb. }
    lia.
  - rewrite lookup_insert_ne by exact Hne.
    assert (Hv' : h !! (a - S i)%nat = Some v).
    { replace (a - i)%nat with (S (a - S i)) in Hv by lia. exact Hv. }
    specialize (IH (S i) Hm ltac:(lia) Hv').
    destruct (m !! i); lia.
Qed.

(** The loops succeed when the call for every value inside does, in
    every state that keeps what is recorded. *)
Definition callOk (print : value -> printer -> option printer) (p : printer) (v : value)
  : Prop :=
  forall q, keeps p q -> exists q', print v q = Some q' /\ keeps q q'.

Lemma printElems_ok (print : value -> printer -> option printer) (l : list value)
    (i : Z) (p : printer) :
  Forall (callOk print p) l ->
  exists p', printElems print i l p = Some p' /\ keeps p p'.
Proof.
  revert i p. induction l as [|v l IH]; intros i p Hall; cbn [printElems].
  - exists p. split; [reflexivity|apply keeps_refl].
  - inversion Hall as [|v' l' Hv Hl]; subst.
    destruct (Hv (printf (itoa i ++ bs ": ") p) (keeps_printf _ _)) as (q & Hq & Hk).
    rewrite Hq.
    assert (Hpq : keeps p (printf [Ch.nl] q)).
    { eapply keeps_trans; [apply keeps_printf|].
      eapply keeps_trans; [exact Hk|apply keeps_printf]. }
    destruct (IH (i + 1) (printf [Ch.nl] q)) as (p' & Hp' & Hk').
    { eapply Forall_impl; [exact Hl|]. intros w Hw r Hr.
      apply Hw. eapply keeps_trans; eassumption. }
    exists p'. split; [exact Hp'|eapply keeps_trans; eassumption].
Qed.

Lemma printEntries_ok (print : value -> printer -> option printer)
    (l : list (value * value)) (p : printer) :
  Forall (fun kv => callOk print p (fst kv) /\ callOk print p (snd kv)) l ->
  exists p', printEntries print l p = Some p' /\ keeps p p'.
Proof.
  revert p. induction l as [|[key v] l IH]; intros p Hall; cbn [printEntries].
  - exists p. split; [reflexivity|apply keeps_refl].
  - inversion Hall as [|kv l' [Hkey Hv] Hl]; subst. cbn [fst snd] in *.
    destruct (Hkey p (keeps_refl p)) as (q1 & Hq1 & Hk1). rewrite Hq1.
    assert (Hp1 : keeps p (printf (bs ": ") q1)).
    { eapply keeps_trans; [exact Hk1|apply keeps_printf]. }
    destruct (Hv _ Hp1) as (q2 & Hq2 & Hk2). rewrite Hq2.
    assert (Hp2 : keeps p (printf [Ch.nl] q2)).
    { eapply keeps_trans; [exact Hp1|]. eapply keeps_trans; [exact Hk2|apply keeps_printf]. }
    destruct (IH (printf [Ch.nl] q2)) as (p' & Hp' & Hk').
    { eapply Forall_impl; [exact Hl|]. intros w [Hw1 Hw2].
      split; intros r Hr; [apply Hw1|apply Hw2]; eapply keeps_trans; eassumption. }
    exists p'. split; [exact Hp'|eapply keeps_trans; eassumption].
Qed.

Lemma printFields_ok (print : value -> printer -> option printer)
    (l : list (bytes * value)) (first : bool) (p : printer) :
  Forall (fun nv => callOk print p (snd nv)) l ->
  exists p', printFields IsExported print l first p = Some p' /\ keeps p p'.
Proof.
  revert first p. induction l as [|[name v] l IH]; intros first p Hall; cbn [printFields].
  - exists p. split; [reflexivity|apply keeps_refl].
  - inversion Hall as [|nv l' Hv Hl]; subst. cbn [snd] in *.
    destruct (IsExported name && match pr_filter p with
                                  | Some f => f name v
                                  | None => true
                                  end).
    + set (p0 := if first then printf [Ch.nl] p else p).
      assert (Hp0 : keeps p p0) by (subst p0; destruct first; [apply keeps_printf|apply keeps_refl]).
      assert (Hp1 : keeps p (printf (name ++ bs ": ") p0)).
      { eapply keeps_trans; [exact Hp0|apply keeps_printf]. }
      destruct (Hv _ Hp1) as (q & Hq & Hk). rewrite Hq.
      assert (Hp2 : keeps p (printf [Ch.nl] q)).
      { eapply keeps_trans; [exact Hp1|]. eapply keeps_trans; [exact Hk|apply keeps_printf]. }
      destruct (IH false (printf [Ch.nl] q)) as (p' & Hp' & Hk').
      { eapply Forall_impl; [exact Hl|]. intros w Hw r Hr.
        apply Hw. eapply keeps_trans; eassumption. }
      exists p'. split; [exact Hp'|eapply keeps_trans; eassumption].
    + apply IH. exact Hl.
Qed.

Lemma indented_ok (n : Z) (body : printer -> option printer) (p : printer) :
  (forall q, keeps p q -> exists q', body q = Some q' /\ keeps q q') ->
  exists p', indented n body p = Some p' /\ keeps p p'.
Proof.
  intros Hbody. unfold indented. destruct (0 <? n).
  - set (p1 := printf [Ch.nl] (set_indent (int_add (pr_indent p) 1) p)).
    assert (Hp1 : keeps p p1).
    { subst p1. eapply keeps_trans; [|apply keeps_printf]. apply keeps_same. reflexivity. }
    destruct (Hbody p1 Hp1) as (q & Hq & Hk). rewrite Hq.
    eexists. split; [reflexivity|].
    eapply keeps_trans; [exact Hp1|]. eapply keeps_trans; [exact Hk|].
    apply keeps_same. reflexivity.
  - exists p. split; [reflexivity|apply keeps_refl].
Qed.

Lemma list_sum_In (l : list nat) (x : nat) : In x l -> (x <= list_sum l)%nat.
Proof.
  induction l as [|y l IH]; [intros []|]. simpl.
  intros [->|H]; [lia|]. specialize (IH H). lia.
Qed.

Lemma closedHeap_lookup (a : nat) (v : value) :
  closedHeap heap = true -> heap !! a = Some v -> closedValue heap v = true.
Proof.
  unfold closedHeap. intros Hc Hv.
  rewrite forallb_forall in Hc. apply Hc.
  apply list_elem_of_In, list_elem_of_lookup. eauto.
Qed.

(** With fuel for the nodes of [x] and of what the heap holds that is
    not printed yet, [print] returns, and keeps what is recorded. *)
Lemma print_ok (fuel : nat) :
  closedHeap heap = true ->
  forall (x : value) (p : printer),
    closedValue heap x = true ->
    (enoughFuel heap x (pr_ptrmap p) <= fuel)%nat ->
    exists p', print IsExported heap fuel x p = Some p' /\ keeps p p'.
Proof.
  intros Hheap. unfold enoughFuel.
  induction fuel as [|fuel IH]; intros x p Hx Hfuel.
  { destruct x; cbn [vsize] in Hfuel; lia. }
  (* a value inside, in a state that keeps what is recorded *)
  assert (Hin : forall v q, closedValue heap v = true -> (vsize v < vsize x)%nat ->
            keeps p q -> exists q', print IsExported heap fuel v q = Some q' /\ keeps q q').
  { intros v q Hv Hlt Hk. apply IH; [exact Hv|].
    pose proof (unprinted_mono heap 0 _ _ Hk). lia. }
  destruct x as [|elem|type entries|ptr|type elems|type elems|type fields|text];
    cbn [print].
  - eexists. split; [reflexivity|apply keeps_printf].
  - cbn [closedValue vsize] in *. apply Hin; [exact Hx|lia|apply keeps_refl].
  - (* a map *)
    cbn [closedValue vsize] in *.
    set (p0 := printf (type ++ bs " (len = " ++ itoa (len entries) ++ bs ") {") p).
    assert (Hp0 : keeps p p0) by apply keeps_printf.
    destruct (indented_ok (len entries) (printEntries (print IsExported heap fuel) entries) p0)
      as (q & Hq & Hk).
    { intros q Hk. apply printEntries_ok. apply List.Forall_forall. intros [key v] Hkv.
      rewrite forallb_forall in Hx. specialize (Hx _ Hkv). cbn [fst snd] in *.
      apply andb_true_iff in Hx as [Hx1 Hx2].
      assert (Hsz : (vsize key + vsize v <= list_sum (map (fun kv => vsize (fst kv) + vsize (snd kv)) entries))%nat).
      { apply list_sum_In. apply in_map_iff. exists (key, v). split; [reflexivity|exact Hkv]. }
      split; intros r Hr; apply Hin; try assumption; try lia;
        (eapply keeps_trans; [exact Hp0|]; eapply keeps_trans; eassumption). }
    rewrite Hq. eexists. split; [reflexivity|].
    eapply keeps_trans; [exact Hp0|]. eapply keeps_trans; [exact Hk|apply keeps_printf].
  - (* a pointer *)
    cbn [closedValue vsize] in *.
    rewrite printf_ptrmap.
    destruct (pr_ptrmap p !! ptr) as [line|] eqn:Eptr.
    + eexists. split; [reflexivity|].
      eapply keeps_trans; apply keeps_printf.
    + apply Nat.ltb_lt in Hx.
      destruct (lookup_lt_is_Some_2 heap ptr Hx) as [elem Helem]. rewrite Helem.
      set (p1 := set_ptrmap _ _).
      assert (Hp1 : keeps p p1).
      { intros a l Ha. subst p1. cbn [set_ptrmap pr_ptrmap].
        destruct (decide (ptr = a)) as [->|Hne]; [congruence|].
        rewrite lookup_insert_ne by exact Hne. exact Ha. }
      destruct (IH elem p1) as (q & Hq & Hk).
      * eapply closedHeap_lookup; eassumption.
      * subst p1. cbn [set_ptrmap pr_ptrmap].
        pose proof (unprinted_insert heap 0 ptr (pr_ptrmap p) (pr_line (printf (bs "*") p))
                      elem Eptr ltac:(lia)) as Hins.
        rewrite Nat.sub_0_r in Hins. specialize (Hins Helem). lia.
      * exists q. split; [exact Hq|eapply keeps_trans; eassumption].
  - (* an array *)
    cbn [closedValue vsize] in *.
    set (p0 := printf (type ++ bs " {") p).
    assert (Hp0 : keeps p p0) by apply keeps_printf.
    destruct (indented_ok (len elems) (printElems (print IsExported heap fuel) 0 elems) p0)
      as (q & Hq & Hk).
    { intros q Hk. apply printElems_ok. apply List.Forall_forall. intros v Hv.
      rewrite forallb_forall in Hx. specialize (Hx _ Hv).
      assert (Hsz : (vsize v <= list_sum (map vsize elems))%nat)
        by (apply list_sum_In, in_map, Hv).
      intros r Hr. apply Hin; try assumption; try lia.
      eapply keeps_trans; [exact Hp0|]. eapply keeps_trans; eassumption. }
    rewrite Hq. eexists. split; [reflexivity|].
    eapply keeps_trans; [exact Hp0|]. eapply keeps_trans; [exact Hk|apply keeps_printf].
  - (* a slice *)
    cbn [closedValue vsize] in *.
    set (p0 := printf (type ++ bs " (len = " ++ itoa (len elems) ++ bs ") {") p).
    assert (Hp0 : keeps p p0) by apply keeps_printf.
    destruct (indented_ok (len elems) (printElems (print IsExported heap fuel) 0 elems) p0)
      as (q & Hq & Hk).
    { intros q Hk. apply printElems_ok. apply List.Forall_forall. intros v Hv.
      rewrite forallb_forall in Hx. specialize (Hx _ Hv).
      assert (Hsz : (vsize v <= list_sum (map vsize elems))%nat)
        by (apply list_sum_In, in_map, Hv).
      intros r Hr. apply Hin; try assumption; try lia.
      eapply keeps_trans; [exact Hp0|]. eapply keeps_trans; eassumption. }
    rewrite Hq. eexists. split; [reflexivity|].
    eapply keeps_trans; [exact Hp0|]. eapply keeps_trans; [exact Hk|apply keeps_printf].
  - (* a struct *)
    cbn [closedValue vsize] in *.
    set (p0 := set_indent _ (printf (type ++ bs " {") p)).
    assert (Hp0 : keeps p p0).
    { subst p0. eapply keeps_trans; [apply keeps_printf|]. apply keeps_same. reflexivity. }
    destruct (printFields_ok (print IsExported heap fuel) fields true p0) as (q & Hq & Hk).
    { apply List.Forall_forall. intros [name v] Hv.
      rewrite forallb_forall in Hx. specialize (Hx _ Hv). cbn [snd] in *.
      assert (Hsz : (vsize v <= list_sum (map (fun nv => vsize (snd nv)) fields))%nat).
      { apply list_sum_In. apply in_map_iff. exists (name, v). split; [reflexivity|exact Hv]. }
      intros r Hr. apply Hin; try assumption; try lia.
      eapply keeps_trans; eassumption. }
    rewrite Hq. eexists. split; [reflexivity|].
    eapply keeps_trans; [exact Hp0|]. eapply keeps_trans; [exact Hk|].
    eapply keeps_trans; [|apply keeps_printf]. apply keeps_same. reflexivity.
  - eexists. split; [reflexivity|apply keeps_printf].
Qed.

End Termination.

(** A list whose only node points to itself: the pointer 0 is a
    [*Node], and the field Next of the node holds that pointer again. *)
Definition selfLoop : list value :=
  [VStruct (bs "ast.Node") [(bs "Next", VPtr 0); (bs "Val", VBasic (bs "1"))]].

Definition allExported (name : bytes) : bool := true.

(** C10: the debug printer terminates on every AST value whose pointers
    all point into the heap, however its sub-trees are shared or closed
    into cycles through pointers: with fuel for the nodes of the value
    and of the heap, [Fprint] and [print] return.  The first time a
    pointer is printed, the current line is recorded under it in
    [ptrmap] and the pointee is printed; what is recorded stays, so any
    later visit of the pointer finds its line and prints "(obj @ line)"
    after the star, with no further call of [print]. *)
Theorem C10_print_terminates (IsExported : bytes -> bool) (heap : list value)
    (x : value) (f : option (bytes -> value -> bool)) (fuel : nat) :
  closedHeap heap = true ->
  closedValue heap x = true ->
  (enoughFuel heap x ∅ <= fuel)%nat ->
  (exists out, Fprint IsExported heap fuel (Some x) f = Some out)
  /\ (forall p, (enoughFuel heap x (pr_ptrmap p) <= fuel)%nat ->
        exists p', print IsExported heap fuel x p = Some p' /\ keeps p p')
  /\ (forall k p ptr line, pr_ptrmap p !! ptr = Some line ->
        print IsExported heap (S k) (VPtr ptr) p
        = Some (printf (bs "(obj @ " ++ itoa line ++ bs ")") (printf (bs "*") p)))
  /\ (forall k p ptr elem, pr_ptrmap p !! ptr = None -> heap !! ptr = Some elem ->
        print IsExported heap (S k) (VPtr ptr) p
        = print IsExported heap k elem
            (set_ptrmap (<[ptr := pr_line p]> (pr_ptrmap p)) (printf (bs "*") p))).
Proof.
  intros Hheap Hx Hfuel. split; [|split; [|split]].
  - unfold Fprint.
    destruct (print_ok IsExported heap fuel Hheap x
                {| pr_output := []; pr_filter := f; pr_ptrmap := ∅; pr_indent := 0;
                   pr_last := Ch.nl; pr_line := 0 |} Hx Hfuel) as (p' & Hp' & _).
    rewrite Hp'. eexists. reflexivity.
  - intros p Hp. apply print_ok; assumption.
  - intros k p ptr line Hptr. cbn [print]. rewrite printf_ptrmap, Hptr. reflexivity.
  - intros k p ptr elem Hptr Helem. cbn [print].
    rewrite printf_ptrmap, Hptr, Helem, printf_star_line. reflexivity.
Qed.

(** The node that points to itself is printed, with a back-reference to
    line 0 in the place of the pointer inside. *)
Lemma C10_print_terminates_witness :
  (exists out, Fprint allExported selfLoop 5 (Some (VPtr 0)) None = Some out)
  /\ Fprint allExported selfLoop 5 (Some (VPtr 0)) None
     = Some (bs "     0  *ast.Node {" ++ [Ch.nl]
             ++ bs "     1  .  Next: *(obj @ 0)" ++ [Ch.nl]
             ++ bs "     2  .  Val: 1" ++ [Ch.nl]
             ++ bs "     3  }" ++ [Ch.nl]).
Proof.
  split.
  - apply (C10_print_terminates allExported selfLoop (VPtr 0) None 5);
      [reflexivity|reflexivity|vm_compute; lia].
  - vm_compute. reflexivity.
Defined.

(** *** The lines [Write] numbers *)

(** What [Write] puts out for [data], byte by byte: a newline is written
    as it is and ends the line; any other byte is written after the
    number of the line and the indentation, when the byte before it (of
    this call or of the last one) was a newline. *)
Fixpoint labelled (data : bytes) (last : ascii) (line level : Z) : bytes :=
  match data with
  | [] => []
  | b :: r =>
      if Ascii.eqb b Ch.nl then b :: labelled r b (int_add line 1) level
      else (if Ascii.eqb last Ch.nl
            then lineLabel line ++ concat (repeat indent (Z.to_nat level))
            else [])
           ++ b :: labelled r b line level
  end.

(** The line number after [data]. *)
Fixpoint lineAfter (data : bytes) (line : Z) : Z :=
  match data with
  | [] => line
  | b :: r => lineAfter r (if Ascii.eqb b Ch.nl then int_add line 1 else line)
  end.

Lemma Write_loop_labelled (rest pre : bytes) (n : nat) (p : printer) :
  (n <= length pre)%nat ->
  (pr_last p = Ch.nl -> n = length pre) ->
  let r := Write_loop (pre ++ rest) rest (length pre) n p in
  (snd r <= length (pre ++ rest))%nat
  /\ pr_output (fst r) ++ drop (snd r) (pre ++ rest)
     = pr_output p ++ drop n pre ++ labelled rest (pr_last p) (pr_line p) (pr_indent p)
  /\ pr_line (fst r) = lineAfter rest (pr_line p)
  /\ pr_last (fst r) = List.last rest (pr_last p).
Proof.
  cbv zeta. revert pre n p. induction rest as [|b rest IH]; intros pre n p Hn Hlast.
  - cbn [Write_loop fst snd labelled lineAfter List.last]. rewrite !app_nil_r.
    split; [exact Hn|]. split; [reflexivity|]. split; reflexivity.
  - cbn [Write_loop labelled lineAfter].
    assert (Edata : pre ++ b :: rest = (pre ++ [b]) ++ rest)
      by (rewrite <- app_assoc; reflexivity).
    assert (Elen : S (length pre) = length (pre ++ [b]))
      by (rewrite length_app; cbn; lia).
    assert (Elast : forall d, List.last (b :: rest) d = List.last rest b).
    { intros d. clear. revert b d. induction rest as [|c rest IH]; intros b d; [reflexivity|].
      change (List.last (b :: c :: rest) d) with (List.last (c :: rest) d).
      rewrite IH. symmetry. apply (IH c b). }
    rewrite Elast.
    destruct (Ascii.eqb b Ch.nl) eqn:Eb.
    + set (p1 := set_last b (set_line (int_add (pr_line (pr_write _ p)) 1) (pr_write _ p))).
      rewrite Edata, Elen.
      destruct (IH (pre ++ [b]) (length (pre ++ [b])) p1) as (H1 & H2 & H3 & H4);
        [lia|reflexivity|].
      split; [exact H1|]. split; [|split; [exact H3|exact H4]].
      rewrite H2. subst p1. cbn [pr_output set_last set_line pr_write pr_last pr_line pr_indent].
      rewrite drop_all. cbn [app].
      rewrite <- ?Elen, <- ?Edata.
      assert (Etake : take (S (length pre) - n) (drop n (pre ++ b :: rest)) = drop n pre ++ [b]).
      { rewrite drop_app_le by exact Hn.
        replace (S (length pre) - n)%nat with (length (drop n pre) + 1)%nat
          by (rewrite length_drop; lia).
        rewrite take_app_add. reflexivity. }
      rewrite Etake, <- !app_assoc. reflexivity.
    + destruct (Ascii.eqb (pr_last p) Ch.nl) eqn:El.
      * apply Ascii.eqb_eq in El. specialize (Hlast El). subst n.
        set (p1 := set_last b (writeIndent (pr_write (lineLabel (pr_line p)) p))).
        rewrite Edata, Elen.
        destruct (IH (pre ++ [b]) (length pre) p1) as (H1 & H2 & H3 & H4).
        { rewrite <- Elen. lia. }
        { subst p1. cbn [pr_last set_last]. intros E. rewrite E, Ascii.eqb_refl in Eb.
          discriminate Eb. }
        rewrite <- Elen in *.
        split; [exact H1|]. split; [|split; [exact H3|exact H4]].
        rewrite H2. subst p1. unfold writeIndent.
        cbn [pr_output set_last pr_write pr_last pr_line pr_indent].
        rewrite drop_all, drop_app_length. cbn [app]. rewrite <- !app_assoc. reflexivity.
      * set (p1 := set_last b p).
        rewrite Edata, Elen.
        destruct (IH (pre ++ [b]) n p1) as (H1 & H2 & H3 & H4).
        { rewrite <- Elen. lia. }
        { subst p1. cbn [pr_last set_last]. intros E. rewrite E, Ascii.eqb_refl in Eb.
          discriminate Eb. }
        rewrite <- Elen in *.
        split; [exact H1|]. split; [|split; [exact H3|exact H4]].
        rewrite H2. subst p1. cbn [pr_output set_last pr_last pr_line pr_indent].
        rewrite drop_app_le by exact Hn. rewrite <- !app_assoc. reflexivity.
Qed.

Lemma Write_labelled (data : bytes) (p : printer) :
  pr_output (Write data p)
  = pr_output p ++ labelled data (pr_last p) (pr_line p) (pr_indent p)
  /\ pr_line (Write data p) = lineAfter data (pr_line p)
  /\ pr_last (Write data p) = List.last data (pr_last p)
  /\ pr_indent (Write data p) = pr_indent p
  /\ pr_ptrmap (Write data p) = pr_ptrmap p.
Proof.
  unfold Write.
  pose proof (Write_loop_labelled data [] 0 p (Nat.le_refl _) (fun _ => eq_refl)) as H.
  pose proof (Write_loop_ptrmap data data 0 0 p) as (Hm & _ & Hi).
  cbv zeta in H. cbn [app length] in H.
  destruct (Write_loop data data 0 0 p) as [q n]. cbn [fst snd] in *.
  destruct H as (H1 & H2 & H3 & H4). rewrite drop_nil in H2. cbn [app] in H2.
  destruct (Nat.ltb_spec n (length data)) as [Hlt|Hge].
  - cbn [pr_write pr_output pr_line pr_last pr_indent pr_ptrmap]. repeat split; assumption.
  - rewrite drop_ge, app_nil_r in H2 by exact Hge. repeat split; assumption.
Qed.

(** X13: [printer.Write] writes every byte of [data], in order, and
    before the first byte of every line that is not empty the number of
    the line ("%6d  ") and the indentation; an empty line gets no
    number.  The line number grows by one with each newline, and the
    last byte is remembered for the next call. *)
Theorem X13_Write_numbers_lines (data : bytes) (p : printer) :
  pr_output (Write data p)
  = pr_output p ++ labelled data (pr_last p) (pr_line p) (pr_indent p)
  /\ pr_line (Write data p) = lineAfter data (pr_line p)
  /\ pr_last (Write data p) = List.last data (pr_last p)
  /\ pr_indent (Write data p) = pr_indent p
  /\ pr_ptrmap (Write data p) = pr_ptrmap p.
Proof. exact (Write_labelled data p). Qed.

(** *** What [print] leaves as it was *)

(** The range of a Go [int]. *)
Definition inRange (z : Z) : Prop := - 2 ^ 63 <= z < 2 ^ 63.

Lemma wrap_inRange (z : Z) : inRange (wrap z).
Proof.
  unfold inRange, wrap.
  pose proof (Z.mod_pos_bound (z + 2 ^ 63) (2 ^ 64) ltac:(reflexivity)). lia.
Qed.

Lemma indent_restored (i : Z) : inRange i -> int_sub (int_add i 1) 1 = i.
Proof.
  unfold inRange, int_sub, int_add, wrap. intros Hi.
  replace ((i + 1 + 2 ^ 63) mod 2 ^ 64 - 2 ^ 63 - 1 + 2 ^ 63)
    with ((i + 1 + 2 ^ 63) mod 2 ^ 64 - 1) by lia.
  rewrite Zminus_mod_idemp_l.
  replace (i + 1 + 2 ^ 63 - 1) with (i + 2 ^ 63) by lia.
  rewrite Z.mod_small by lia. lia.
Qed.

(** The filter is kept, what is recorded stays recorded, and the output
    is only appended to. *)
Definition framedBut (p q : printer) : Prop :=
  pr_filter q = pr_filter p /\ keeps p q /\ exists s, pr_output q = pr_output p ++ s.

(** The same, and the indentation is what it was. *)
Definition framed (p q : printer) : Prop :=
  pr_indent q = pr_indent p /\ framedBut p q.

Lemma framedBut_refl (p : printer) : framedBut p p.
Proof.
  split; [reflexivity|]. split; [apply keeps_refl|]. exists []. now rewrite app_nil_r.
Qed.

Lemma framedBut_trans (p q r : printer) : framedBut p q -> framedBut q r -> framedBut p r.
Proof.
  intros (Hf1 & Hk1 & s1 & Hs1) (Hf2 & Hk2 & s2 & Hs2).
  split; [congruence|]. split; [eapply keeps_trans; eassumption|].
  exists (s1 ++ s2). rewrite Hs2, Hs1, app_assoc. reflexivity.
Qed.

Lemma framed_refl (p : printer) : framed p p.
Proof. split; [reflexivity|apply framedBut_refl]. Qed.

Lemma framed_trans (p q r : printer) : framed p q -> framed q r -> framed p r.
Proof.
  intros [Hi1 H1] [Hi2 H2]. split; [congruence|eapply framedBut_trans; eassumption].
Qed.

Lemma framed_printf (text : bytes) (p : printer) : framed p (printf text p).
Proof.
  unfold printf. destruct (Write_labelled text p) as (Ho & _ & _ & Hi & Hm).
  split; [exact Hi|]. split; [apply printf_filter|].
  split; [apply keeps_same; exact Hm|]. eexists. exact Ho.
Qed.

Lemma framedBut_set_indent (v : Z) (p : printer) : framedBut p (set_indent v p).
Proof.
  split; [reflexivity|]. split; [apply keeps_same; reflexivity|].
  exists []. cbn. now rewrite app_nil_r.
Qed.

Lemma framed_inRange (p q : printer) : framed p q -> inRange (pr_indent p) -> inRange (pr_indent q).
Proof. intros [Hi _] H. rewrite Hi. exact H. Qed.

Section Frame.

Variable IsExported : bytes -> bool.
Variable heap : list value.

Section LoopsFrame.

Variable prt : value -> printer -> option printer.
Hypothesis Hprt : forall v q q', inRange (pr_indent q) -> prt v q = Some q' -> framed q q'.

Lemma printElems_framed (l : list value) (i : Z) (p p' : printer) :
  inRange (pr_indent p) -> printElems prt i l p = Some p' -> framed p p'.
Proof.
  revert i p. induction l as [|v l IH]; intros i p Hr H; cbn [printElems] in H.
  - injection H as <-. apply framed_refl.
  - pose proof (framed_printf (itoa i ++ bs ": ") p) as H0.
    destruct (prt v (printf (itoa i ++ bs ": ") p)) as [q|] eqn:Eq; [|discriminate H].
    pose proof (Hprt _ _ _ (framed_inRange _ _ H0 Hr) Eq) as H1.
    pose proof (framed_trans _ _ _ (framed_trans _ _ _ H0 H1) (framed_printf [Ch.nl] q)) as H2.
    eapply framed_trans; [exact H2|].
    apply (IH (i + 1) _ (framed_inRange _ _ H2 Hr) H).
Qed.

Lemma printEntries_framed (l : list (value * value)) (p p' : printer) :
  inRange (pr_indent p) -> printEntries prt l p = Some p' -> framed p p'.
Proof.
  revert p. induction l as [|[key v] l IH]; intros p Hr H; cbn [printEntries] in H.
  - injection H as <-. apply framed_refl.
  - destruct (prt key p) as [q1|] eqn:E1; [|discriminate H].
    pose proof (Hprt _ _ _ Hr E1) as H1.
    pose proof (framed_trans _ _ _ H1 (framed_printf (bs ": ") q1)) as H2.
    destruct (prt v (printf (bs ": ") q1)) as [q2|] eqn:E2; [|discriminate H].
    pose proof (Hprt _ _ _ (framed_inRange _ _ H2 Hr) E2) as H3.
    pose proof (framed_trans _ _ _ (framed_trans _ _ _ H2 H3) (framed_printf [Ch.nl] q2)) as H4.
    eapply framed_trans; [exact H4|].
    apply (IH _ (framed_inRange _ _ H4 Hr) H).
Qed.

Lemma printFields_framed (l : list (bytes * value)) (first : bool) (p p' : printer) :
  inRange (pr_indent p) -> printFields IsExported prt l first p = Some p' -> framed p p'.
Proof.
  revert first p. induction l as [|[name v] l IH]; intros first p Hr H; cbn [printFields] in H.
  - injection H as <-. apply framed_refl.
  - destruct (IsExported name && match pr_filter p with
                                  | Some f => f name v
                                  | None => true
                                  end); [|apply (IH _ _ Hr H)].
    assert (H0 : framed p (if first then printf [Ch.nl] p else p))
      by (destruct first; [apply framed_printf|apply framed_refl]).
    revert H0 H. generalize (if first then printf [Ch.nl] p else p). intros p0 H0 H.
    pose proof (framed_trans _ _ _ H0 (framed_printf (name ++ bs ": ") p0)) as H1.
    destruct (prt v (printf (name ++ bs ": ") p0)) as [q|] eqn:Eq; [|discriminate H].
    pose proof (Hprt _ _ _ (framed_inRange _ _ H1 Hr) Eq) as H2.
    pose proof (framed_trans _ _ _ (framed_trans _ _ _ H1 H2) (framed_printf [Ch.nl] q)) as H3.
    eapply framed_trans; [exact H3|].
    apply (IH _ _ (framed_inRange _ _ H3 Hr) H).
Qed.

End LoopsFrame.

Lemma indented_framed (n : Z) (body : printer -> option printer) (p p' : printer) :
  inRange (pr_indent p) ->
  (forall q q', inRange (pr_indent q) -> body q = Some q' -> framed q q') ->
  indented n body p = Some p' -> framed p p'.
Proof.
  intros Hr Hbody H. unfold indented in H.
  destruct (0 <? n); [|injection H as <-; apply framed_refl].
  set (p1 := set_indent (int_add (pr_indent p) 1) p) in *.
  pose proof (framed_printf [Ch.nl] p1) as H1.
  destruct (body (printf [Ch.nl] p1)) as [q|] eqn:Eq; [|discriminate H].
  injection H as <-.
  assert (Hr1 : inRange (pr_indent (printf [Ch.nl] p1))).
  { apply (framed_inRange _ _ H1). subst p1. apply wrap_inRange. }
  pose proof (framed_trans _ _ _ H1 (Hbody _ _ Hr1 Eq)) as [Hi Hb].
  split.
  - cbn [pr_indent set_indent]. rewrite Hi. subst p1. cbn [pr_indent set_indent].
    apply indent_restored, Hr.
  - eapply framedBut_trans; [apply (framedBut_set_indent (int_add (pr_indent p) 1))|].
    eapply framedBut_trans; [exact Hb|apply framedBut_set_indent].
Qed.

Lemma print_framed (fuel : nat) (x : value) (p p' : printer) :
  inRange (pr_indent p) ->
  print IsExported heap fuel x p = Some p' ->
  framed p p'
  /\ (forall ptr, x = VPtr ptr -> is_Some (pr_ptrmap p' !! ptr)).
Proof.
  revert x p p'. induction fuel as [|fuel IH]; intros x p p' Hr H; [discriminate H|].
  assert (IH1 : forall v q q', inRange (pr_indent q) ->
                  print IsExported heap fuel v q = Some q' -> framed q q').
  { intros v q q' Hq Hv. apply (IH v q q' Hq Hv). }
  destruct x as [|elem|type entries|ptr|type elems|type elems|type fields|text];
    cbn [print] in H.
  - injection H as <-. split; [apply framed_printf|discriminate].
  - split; [apply (IH1 _ _ _ Hr H)|discriminate].
  - split; [|discriminate].
    set (p0 := printf (type ++ bs " (len = " ++ itoa (len entries) ++ bs ") {") p) in *.
    pose proof (framed_printf (type ++ bs " (len = " ++ itoa (len entries) ++ bs ") {") p) as H0.
    fold p0 in H0.
    destruct (indented (len entries) (printEntries (print IsExported heap fuel) entries) p0)
      as [q|] eqn:Eq; [|discriminate H].
    injection H as <-.
    eapply framed_trans; [exact H0|]. eapply framed_trans; [|apply framed_printf].
    eapply (indented_framed _ _ p0 q (framed_inRange _ _ H0 Hr)); [|exact Eq].
    intros r r' Hrr. apply printEntries_framed; [exact IH1|exact Hrr].
  - pose proof (framed_printf (bs "*") p) as H0.
    rewrite printf_ptrmap in H.
    destruct (pr_ptrmap p !! ptr) as [line|] eqn:Eptr.
    + injection H as <-. split.
      * eapply framed_trans; [exact H0|apply framed_printf].
      * intros a Ea. injection Ea as <-. rewrite !printf_ptrmap, Eptr. eauto.
    + destruct (heap !! ptr) as [elem|] eqn:Eh; [|discriminate H].
      set (p1 := set_ptrmap _ _) in H.
      assert (H1 : framed (printf (bs "*") p) p1).
      { subst p1. split; [reflexivity|]. split; [reflexivity|]. split.
        - intros a l Ha. cbn [set_ptrmap pr_ptrmap].
          rewrite printf_ptrmap in Ha.
          destruct (decide (ptr = a)) as [->|Hne]; [congruence|].
          rewrite lookup_insert_ne by exact Hne. exact Ha.
        - exists []. cbn. now rewrite app_nil_r. }
      pose proof (framed_trans _ _ _ H0 H1) as H2.
      pose proof (IH1 _ _ _ (framed_inRange _ _ H2 Hr) H) as H3.
      split; [eapply framed_trans; eassumption|].
      intros a Ea. injection Ea as <-.
      destruct H3 as (_ & _ & Hk & _).
      exists (pr_line (printf (bs "*") p)). apply Hk. subst p1.
      cbn [set_ptrmap pr_ptrmap]. apply lookup_insert_eq.
  - split; [|discriminate].
    set (p0 := printf (type ++ bs " {") p) in *.
    pose proof (framed_printf (type ++ bs " {") p) as H0. fold p0 in H0.
    destruct (indented (len elems) (printElems (print IsExported heap fuel) 0 elems) p0)
      as [q|] eqn:Eq; [|discriminate H].
    injection H as <-.
    eapply framed_trans; [exact H0|]. eapply framed_trans; [|apply framed_printf].
    eapply (indented_framed _ _ p0 q (framed_inRange _ _ H0 Hr)); [|exact Eq].
    intros r r' Hrr. apply printElems_framed; [exact IH1|exact Hrr].
  - split; [|discriminate].
    set (p0 := printf (type ++ bs " (len = " ++ itoa (len elems) ++ bs ") {") p) in *.
    pose proof (framed_printf (type ++ bs " (len = " ++ itoa (len elems) ++ bs ") {") p) as H0.
    fold p0 in H0.
    destruct (indented (len elems) (printElems (print IsExported heap fuel) 0 elems) p0)
      as [q|] eqn:Eq; [|discriminate H].
    injection H as <-.
    eapply framed_trans; [exact H0|]. eapply framed_trans; [|apply framed_printf].
    eapply (indented_framed _ _ p0 q (framed_inRange _ _ H0 Hr)); [|exact Eq].
    intros r r' Hrr. apply printElems_framed; [exact IH1|exact Hrr].
  - split; [|discriminate].
    set (p0 := printf (type ++ bs " {") p) in *.
    pose proof (framed_printf (type ++ bs " {") p) as [Hi0 Hb0]. fold p0 in Hi0, Hb0.
    set (p1 := set_indent (int_add (pr_indent p0) 1) p0) in *.
    destruct (printFields IsExported (print IsExported heap fuel) fields true p1)
      as [q|] eqn:Eq; [|discriminate H].
    injection H as <-.
    assert (Hr1 : inRange (pr_indent p1)) by (subst p1; apply wrap_inRange).
    pose proof (printFields_framed _ IH1 _ _ _ _ Hr1 Eq) as [Hi Hb].
    set (q1 := set_indent (int_sub (pr_indent q) 1) q).
    assert (Hq1 : framed p q1).
    { split.
      - subst q1. cbn [pr_indent set_indent]. rewrite Hi. subst p1.
        cbn [pr_indent set_indent]. rewrite Hi0. apply indent_restored, Hr.
      - eapply framedBut_trans; [exact Hb0|].
        eapply framedBut_trans; [apply (framedBut_set_indent (int_add (pr_indent p0) 1))|].
        eapply framedBut_trans; [exact Hb|apply framedBut_set_indent]. }
    eapply framed_trans; [exact Hq1|apply framed_printf].
  - injection H as <-. split; [apply framed_printf|discriminate].
Qed.

End Frame.

(** X14: a call of [print] that returns leaves the indentation level
    and the filter as they were (every [indent++] is undone by its
    [indent--]), keeps every object recorded in [ptrmap] with its line,
    and only appends to the output; after a pointer is printed it is
    recorded, whether this call printed the object or an earlier one
    did. *)
Theorem X14_print_frame (IsExported : bytes -> bool) (heap : list value) (fuel : nat)
    (x : value) (p p' : printer) :
  - 2 ^ 63 <= pr_indent p < 2 ^ 63 ->
  print IsExported heap fuel x p = Some p' ->
  pr_indent p' = pr_indent p
  /\ pr_filter p' = pr_filter p
  /\ (forall a line, pr_ptrmap p !! a = Some line -> pr_ptrmap p' !! a = Some line)
  /\ (exists s, pr_output p' = pr_output p ++ s)
  /\ (forall ptr, x = VPtr ptr -> is_Some (pr_ptrmap p' !! ptr)).
Proof.
  intros Hr H.
  destruct (print_framed IsExported heap fuel x p p' Hr H) as ((Hi & Hf & Hk & Hs) & Hp).
  repeat split; assumption.
Qed.

Lemma X14_print_frame_witness :
  exists p',
    print allExported selfLoop 5 (VPtr 0)
      {| pr_output := []; pr_filter := None; pr_ptrmap := ∅; pr_indent := 0;
         pr_last := Ch.nl; pr_line := 0 |} = Some p'
    /\ pr_indent p' = 0 /\ is_Some (pr_ptrmap p' !! 0%nat).
Proof.
  assert (H : {p' | print allExported selfLoop 5 (VPtr 0)
                      {| pr_output := []; pr_filter := None; pr_ptrmap := ∅; pr_indent := 0;
                         pr_last := Ch.nl; pr_line := 0 |} = Some p'}).
  { eexists. vm_compute. reflexivity. }
  destruct H as [p' E].
  assert (Hr : - 2 ^ 63 <= pr_indent {| pr_output := []; pr_filter := None; pr_ptrmap := ∅;
                                        pr_indent := 0; pr_last := Ch.nl; pr_line := 0 |}
               < 2 ^ 63) by (cbn; lia).
  destruct (X14_print_frame _ _ _ _ _ _ Hr E) as (Hi & _ & _ & _ & Hp).
  exists p'. split; [exact E|]. split; [exact Hi|]. apply (Hp 0%nat eq_refl).
Defined.


End AstPrintFacts.
